(** * Replay test reporting core: step aggregation, retry and dispatch

    A shallow embedding of
    - [groupStepsByTest] and its helpers (the Cypress step aggregator),
    - [jitter], [geometricBackoff], [linearBackoff], [retry] and
      [concurrentWithRetry] (the upload utilities),
    together with the properties stated about them.

    JavaScript objects that the source mutates through several references
    (the [TestStep] objects, reachable both from [currentTest.steps] and from
    [stepStack]) live in an explicit store; the list position is the object
    identity. *)

From Stdlib Require Import ZArith QArith String Ascii List Permutation Sorted Lia Lqa.
From Stdlib Require OrdersEx.
From Stdlib Require Import Qpower Qround Qabs.
From Stdlib Require Import DecimalString DecimalNat.
From stdpp Require Import base list.

Import ListNotations.
Local Open Scope Z_scope.
Local Open Scope string_scope.
Local Open Scope list_scope.

(** ** JavaScript values carried as command arguments *)

#[warnings="-register-all"]
Inductive JsValue : Type :=
| JsUndefined
| JsNull
| JsBool (b : bool)
| JsNumber (z : Z)
| JsString (s : string)
| JsObject (fields : list (string * JsValue)).

Fixpoint getField (k : string) (fields : list (string * JsValue)) : option JsValue :=
  match fields with
  | [] => None
  | (k', v) :: rest => if String.eqb k k' then Some v else getField k rest
  end.

(** [lastArg != null && typeof lastArg === "object" && lastArg.log === false] *)
Definition logDisabled (lastArg : option JsValue) : bool :=
  match lastArg with
  | Some (JsObject fields) =>
      match getField "log" fields with
      | Some (JsBool false) => true
      | _ => false
      end
  | _ => false
  end.

(** [a && typeof a === "object" ? {} : a] *)
Definition simplifyArg (a : JsValue) : JsValue :=
  match a with
  | JsObject _ => JsObject []
  | _ => a
  end.

(** Truthiness of a string: only the empty string is falsy. *)
Definition truthy (s : string) : bool := negb (String.eqb s "").

(** ** The data model *)

Inductive EventKind : Type :=
| StepEnqueue   (* "step:enqueue" *)
| StepStart     (* "step:start" *)
| StepEnd       (* "step:end" *)
| TestStart     (* "test:start" *)
| TestEnd.      (* "test:end" *)

Inductive Category : Type := CatAssertion | CatCommand | CatOther.

Record TestError : Type := mkTestError {
  message : string;
  line : option Z;
  column : option Z
}.

Record Command : Type := mkCommand {
  cmd_id : string;
  cmd_groupId : option string;
  cmd_commandId : option string;
  cmd_name : string;
  cmd_args : list JsValue
}.

Record StepEvent : Type := mkStepEvent {
  event : EventKind;
  timestamp : string;
  test : list string;
  file : string;
  command : option Command;
  category : option Category;
  hook : option string;
  error : option TestError
}.

Record TestStep : Type := mkTestStep {
  step_id : string;
  step_parentId : option string;
  step_name : string;
  step_args : list JsValue;
  step_commandId : option string;
  step_relativeStartTime : Z;
  step_category : Category;
  step_hook : option string;
  step_duration : option Z;
  step_error : option TestError;
  step_assertIds : option (list string)
}.

(** A [Test]; [S] is what its [steps] array holds: references into the step
    store while aggregating, the step objects themselves in the result. *)
Record Test (S : Type) : Type := mkTest {
  test_title : string;
  test_path : list string;
  test_result : string;
  test_relativePath : string;
  test_relativeStartTime : Z;
  test_steps : list S;
  test_duration : option Z
}.

Arguments mkTest {S}.
Arguments test_title {S}.
Arguments test_path {S}.
Arguments test_result {S}.
Arguments test_relativePath {S}.
Arguments test_relativeStartTime {S}.
Arguments test_steps {S}.
Arguments test_duration {S}.

(** A reference to a step object: its position in the step store. *)
Abbreviation StepRef := nat (only parsing).

(** [interface StepStackItem { event; step }], the step by reference. *)
Definition StepStackItem : Type := (StepEvent * StepRef)%type.

(** What the aggregator can throw. *)
Inductive Thrown : Type :=
| CurrentTestDoesNotExist   (* Error("currentTest does not exist") *)
| MismatchedStepEvent       (* Error("Mismatched step event: ...") *)
| TypeError.                (* property access on an undefined command *)

(** The mutable locals of [groupStepsByTest] and the objects they reach. *)
Record AggState : Type := mkAggState {
  tests : list (Test StepRef);
  store : list TestStep;
  stepStack : list StepStackItem;
  skippedStepIds : list string;
  activeGroup : option (string * string);   (* groupId, parentId *)
  currentTest : option nat                  (* position in [tests] *)
}.

(** ** Array helpers *)

(** [Array.prototype.includes] on a string array; the probe may be undefined. *)
Definition includes (l : list string) (x : option string) : bool :=
  match x with
  | Some s => existsb (String.eqb s) l
  | None => false
  end.

(** [Array.prototype.find], returning the position of the match. *)
Fixpoint findIndex {A : Type} (p : A -> bool) (l : list A) : option nat :=
  match l with
  | [] => None
  | x :: rest => if p x then Some 0%nat else option_map S (findIndex p rest)
  end.

(** [Array.prototype.find], returning the matching element. *)
Fixpoint findFirst {A : Type} (p : A -> bool) (l : list A) : option A :=
  match l with
  | [] => None
  | x :: rest => if p x then Some x else findFirst p rest
  end.

(** [Array.prototype.toString] on a string array: the elements joined by commas. *)
Definition toString (path : list string) : string := String.concat "," path.

(** [Array.prototype.sort] with a comparator: a stable sort.  An element is
    placed before the first one it does not compare greater than, so equal
    elements keep their arrival order. *)
Fixpoint insertSorted {A : Type} (cmp : A -> A -> comparison) (x : A) (l : list A) : list A :=
  match l with
  | [] => [x]
  | y :: rest =>
      match cmp x y with
      | Gt => y :: insertSorted cmp x rest
      | _ => x :: y :: rest
      end
  end.

Definition stableSort {A : Type} (cmp : A -> A -> comparison) (l : list A) : list A :=
  fold_right (insertSorted cmp) [] l.

Definition optNatEqb (a b : option nat) : bool :=
  match a, b with
  | Some x, Some y => Nat.eqb x y
  | None, None => true
  | _, _ => false
  end.

Definition isNone {A : Type} (o : option A) : bool :=
  match o with
  | Some _ => false
  | None => true
  end.

Definition isTestStart (e : StepEvent) : bool :=
  match event e with
  | TestStart => true
  | _ => false
  end.

(** [step.test[step.test.length - 1] || step.file] *)
Definition titleOf (path : list string) (fileName : string) : string :=
  match last path with
  | Some s => if truthy s then s else fileName
  | None => fileName
  end.

(** [(a, b) => a.timestamp.localeCompare(b.timestamp)] *)
Definition byTimestamp (localeCompare : string -> string -> comparison)
    (a b : StepEvent) : comparison :=
  localeCompare (timestamp a) (timestamp b).

Section Aggregator.

(** [new Date(timestamp).getTime()], the string comparison used for sorting,
    and the constant imported from "./constants". *)
Variable toTime : string -> Z.
Variable localeCompare : string -> string -> comparison.
Variable AFTER_EACH_HOOK : string.

Definition toRelativeTime (ts : string) (startTime : Z) : Z :=
  toTime ts - startTime.

Definition assertCurrentTest (cur : option nat) : Thrown + nat :=
  match cur with
  | Some i => inr i
  | None => inl CurrentTestDoesNotExist
  end.

Definition assertMatchingStep (currentStep previousStep : option StepEvent)
  : Thrown + StepEvent :=
  match currentStep, previousStep with
  | Some c, Some p =>
      match command c, command p with
      | Some cc, Some pc =>
          if String.eqb (cmd_id cc) (cmd_id pc) then inr p
          else inl MismatchedStepEvent
      | _, _ => inl MismatchedStepEvent
      end
  | _, _ => inl MismatchedStepEvent
  end.

Definition shouldSkipStep (step : StepEvent) (skippedSteps : list string) : bool :=
  let lastArg :=
    match command step with
    | Some c => last (cmd_args c)
    | None => None
    end in
  if logDisabled lastArg then true
  else if includes skippedSteps (option_map cmd_id (command step)) then true
  else if includes skippedSteps (command step ≫= cmd_groupId) then true
  else false.

(** The object literal built for each "test:start" event. *)
Definition newTest (firstTimestamp : Z) (step : StepEvent) : Test StepRef :=
  {| test_title := titleOf (test step) (file step);
     test_path := test step;
     test_result := "passed";
     test_relativePath := file step;
     test_relativeStartTime := toRelativeTime (timestamp step) firstTimestamp;
     test_steps := [];
     test_duration := None |}.

(** [tests.find(t => t.title === step.test[step.test.length - 1])] *)
Definition testForStep (ts : list (Test StepRef)) (step : StepEvent) : option nat :=
  match last (test step) with
  | Some s => findIndex (fun t => String.eqb (test_title t) s) ts
  | None => None
  end.

Definition setActiveGroup (g : option (string * string)) (st : AggState) : AggState :=
  {| tests := tests st; store := store st; stepStack := stepStack st;
     skippedStepIds := skippedStepIds st; activeGroup := g;
     currentTest := currentTest st |}.

Definition setCurrentTest (c : option nat) (st : AggState) : AggState :=
  {| tests := tests st; store := store st; stepStack := stepStack st;
     skippedStepIds := skippedStepIds st; activeGroup := activeGroup st;
     currentTest := c |}.

Definition setSkipped (sk : list string) (st : AggState) : AggState :=
  {| tests := tests st; store := store st; stepStack := stepStack st;
     skippedStepIds := sk; activeGroup := activeGroup st;
     currentTest := currentTest st |}.

Definition setStore (h : list TestStep) (st : AggState) : AggState :=
  {| tests := tests st; store := h; stepStack := stepStack st;
     skippedStepIds := skippedStepIds st; activeGroup := activeGroup st;
     currentTest := currentTest st |}.

Definition setTests (ts : list (Test StepRef)) (st : AggState) : AggState :=
  {| tests := ts; store := store st; stepStack := stepStack st;
     skippedStepIds := skippedStepIds st; activeGroup := activeGroup st;
     currentTest := currentTest st |}.

(** [skippedStepIds.push(x)] under [if (x)]. *)
Definition pushIfTruthy (x : option string) (l : list string) : list string :=
  match x with
  | Some s => if truthy s then l ++ [s] else l
  | None => l
  end.

Definition pushStep (r : StepRef) (t : Test StepRef) : Test StepRef :=
  {| test_title := test_title t; test_path := test_path t;
     test_result := test_result t; test_relativePath := test_relativePath t;
     test_relativeStartTime := test_relativeStartTime t;
     test_steps := test_steps t ++ [r];
     test_duration := test_duration t |}.

Definition setTestDuration (d : Z) (t : Test StepRef) : Test StepRef :=
  {| test_title := test_title t; test_path := test_path t;
     test_result := test_result t; test_relativePath := test_relativePath t;
     test_relativeStartTime := test_relativeStartTime t;
     test_steps := test_steps t;
     test_duration := Some d |}.

(** [commandStep.assertIds = commandStep?.assertIds || []; assertIds.push(id)] *)
Definition pushAssertId (i : string) (s : TestStep) : TestStep :=
  {| step_id := step_id s; step_parentId := step_parentId s;
     step_name := step_name s; step_args := step_args s;
     step_commandId := step_commandId s;
     step_relativeStartTime := step_relativeStartTime s;
     step_category := step_category s; step_hook := step_hook s;
     step_duration := step_duration s; step_error := step_error s;
     step_assertIds := Some (default [] (step_assertIds s) ++ [i]) |}.

(** The three assignments of the "step:end" case on the matched step. *)
Definition endStep (isAssert : bool) (endArgs : list JsValue)
    (relativeEndTime : Z) (err : option TestError) (s : TestStep) : TestStep :=
  {| step_id := step_id s; step_parentId := step_parentId s;
     step_name := step_name s;
     step_args := if isAssert then endArgs else step_args s;
     step_commandId := step_commandId s;
     step_relativeStartTime := step_relativeStartTime s;
     step_category := step_category s; step_hook := step_hook s;
     step_duration := Some (Z.max 0 (relativeEndTime - step_relativeStartTime s));
     step_error := err;
     step_assertIds := step_assertIds s |}.

Definition stepIdIs (h : list TestStep) (i : string) (r : StepRef) : bool :=
  match h !! r with
  | Some s => String.eqb (step_id s) i
  | None => false
  end.

(** case "step:start".  [cur] is the position of [currentTest], which the
    loop head has just found in [tests]: the lookup [tests st !! cur] cannot
    fail on the states the loop produces. *)
Definition onStepStart (firstTimestamp : Z) (cur : nat) (st : AggState)
    (step : StepEvent) : Thrown + AggState :=
  if shouldSkipStep step (skippedStepIds st) then
    let sk1 := pushIfTruthy (option_map cmd_id (command step)) (skippedStepIds st) in
    let sk2 := pushIfTruthy (command step ≫= cmd_groupId) sk1 in
    inr (setSkipped sk2 st)
  else
    let groupId := command step ≫= cmd_groupId in
    let reuse :=
      match activeGroup st, groupId with
      | Some (g, p), Some g' => if String.eqb g g' then Some p else None
      | _, _ => None
      end in
    let parentId := reuse in
    let group' :=
      match reuse, command step with
      | Some _, _ => activeGroup st
      | None, Some c =>
          match cmd_groupId c with
          | Some g' => if truthy g' then Some (g', cmd_id c) else activeGroup st
          | None => activeGroup st
          end
      | None, None => activeGroup st
      end in
    match command step with
    | None => inl TypeError
    | Some c =>
        match tests st !! cur with
        | None => inl CurrentTestDoesNotExist
        | Some t =>
            let testStep :=
              {| step_id := cmd_id c;
                 step_parentId := parentId;
                 step_name := cmd_name c;
                 step_args := map simplifyArg (cmd_args c);
                 step_commandId := cmd_commandId c;
                 step_relativeStartTime :=
                   toRelativeTime (timestamp step) firstTimestamp
                   - test_relativeStartTime t;
                 step_category := default CatOther (category step);
                 step_hook := hook step;
                 step_duration := None;
                 step_error := None;
                 step_assertIds := None |} in
            let store1 :=
              match cmd_commandId c with
              | Some cid =>
                  if truthy cid then
                    match findFirst (stepIdIs (store st) cid) (test_steps t) with
                    | Some r => alter (pushAssertId (cmd_id c)) r (store st)
                    | None => store st
                    end
                  else store st
              | None => store st
              end in
            let r := length store1 in
            inr {| tests := alter (pushStep r) cur (tests st);
                   store := store1 ++ [testStep];
                   stepStack := stepStack st ++ [(step, r)];
                   skippedStepIds := skippedStepIds st;
                   activeGroup := group';
                   currentTest := currentTest st |}
        end
    end.

(** [step.test[0] === AFTER_EACH_HOOK] *)
Definition isAfterEach (step : StepEvent) : bool :=
  match head (test step) with
  | Some h => String.eqb h AFTER_EACH_HOOK
  | None => false
  end.

(** [stepStack.find(a => a.step.id === step.command!.id &&
      a.event.test.toString() === step.test.toString())] *)
Definition findLastStep (st : AggState) (step : StepEvent) (c : Command)
  : option StepStackItem :=
  findFirst
    (fun a : StepStackItem =>
       stepIdIs (store st) (cmd_id c) (snd a)
       && String.eqb (toString (test (fst a))) (toString (test step)))
    (stepStack st).

(** case "step:end".  [assertMatchingStep] throws when [lastStep] is
    undefined, so the branch that reads [lastStep.step] has a stack item. *)
Definition onStepEnd (firstTimestamp : Z) (cur : nat) (st : AggState)
    (step : StepEvent) : Thrown + AggState :=
  match command step with
  | None => inl TypeError
  | Some c =>
      let isAssert := String.eqb (cmd_name c) "assert" in
      let lastStep := findLastStep st step c in
      if isNone lastStep && includes (skippedStepIds st) (Some (cmd_id c))
      then inr st
      else if isAfterEach step
      then inr st
      else
        match assertMatchingStep (Some step) (option_map fst lastStep), lastStep with
        | inl e, _ => inl e
        | inr _, None => inl MismatchedStepEvent
        | inr _, Some (_, r) =>
            match tests st !! cur with
            | None => inl CurrentTestDoesNotExist
            | Some t =>
                let relativeEndTime :=
                  toRelativeTime (timestamp step) firstTimestamp
                  - test_relativeStartTime t in
                inr (setStore
                       (alter (endStep isAssert (cmd_args c) relativeEndTime (error step))
                              r (store st))
                       st)
            end
        end
  end.

(** case "test:end" *)
Definition onTestEnd (firstTimestamp : Z) (cur : nat) (st : AggState)
    (step : StepEvent) : Thrown + AggState :=
  match tests st !! cur with
  | None => inl CurrentTestDoesNotExist
  | Some t =>
      let d := toRelativeTime (timestamp step) firstTimestamp
               - test_relativeStartTime t in
      inr (setTests (alter (setTestDuration d) cur (tests st)) st)
  end.

(** The head of the loop body: [activeGroup] is dropped when the test found
    for this event is not [currentTest], then [currentTest] is replaced. *)
Definition enterTest (found : option nat) (st : AggState) : AggState :=
  setCurrentTest found
    (if optNatEqb (currentTest st) found then st else setActiveGroup None st).

(** One iteration of the [for] loop over [sortedSteps]. *)
Definition processEvent (firstTimestamp : Z) (st : AggState) (step : StepEvent)
  : Thrown + AggState :=
  let found := testForStep (tests st) step in
  let st' := enterTest found st in
  match assertCurrentTest found with
  | inl e => inl e
  | inr cur =>
      match event step with
      | StepEnqueue => inr st'
      | StepStart => onStepStart firstTimestamp cur st' step
      | StepEnd => onStepEnd firstTimestamp cur st' step
      | TestEnd => onTestEnd firstTimestamp cur st' step
      | TestStart => inr st'
      end
  end.

(** The loop: the first throw aborts the whole call. *)
Fixpoint processEvents (firstTimestamp : Z) (st : AggState) (evs : list StepEvent)
  : Thrown + AggState :=
  match evs with
  | [] => inr st
  | e :: rest =>
      match processEvent firstTimestamp st e with
      | inl err => inl err
      | inr st' => processEvents firstTimestamp st' rest
      end
  end.

Definition sortSteps (steps : list StepEvent) : list StepEvent :=
  stableSort (byTimestamp localeCompare) steps.

Definition initialState (firstTimestamp : Z) (sortedSteps : list StepEvent) : AggState :=
  {| tests := map (newTest firstTimestamp) (filter isTestStart sortedSteps);
     store := [];
     stepStack := [];
     skippedStepIds := [];
     activeGroup := None;
     currentTest := None |}.

(** Reading the returned [tests] array: every step reference is followed. *)
Definition resolveTest (h : list TestStep) (t : Test StepRef) : Test TestStep :=
  {| test_title := test_title t; test_path := test_path t;
     test_result := test_result t; test_relativePath := test_relativePath t;
     test_relativeStartTime := test_relativeStartTime t;
     test_steps := omap (fun r => h !! r) (test_steps t);
     test_duration := test_duration t |}.

Definition groupStepsByTest (steps : list StepEvent) (firstTimestamp : Z)
  : Thrown + list (Test TestStep) :=
  match steps with
  | [] => inr []
  | _ =>
      let sortedSteps := sortSteps steps in
      match processEvents firstTimestamp (initialState firstTimestamp sortedSteps)
              sortedSteps with
      | inl err => inl err
      | inr st => inr (map (resolveTest (store st)) (tests st))
      end
  end.

End Aggregator.

Arguments enterTest : simpl never.

(** ** Binary64 arithmetic

    The numbers of the backoff policies are JavaScript numbers: every
    product and sum is rounded to the nearest binary64 number, ties to the
    even significand.  A finite binary64 number is a rational [m * 2^e / 2^1074]
    with [e >= 0] and a significand [m] of at most 53 bits ([e = 0] for the
    subnormal ones), so rounding scales by [2^1074], picks [e] from the
    magnitude and rounds the significand.  The results here stay far below
    [2^1024], where JavaScript would give [Infinity]. *)

(** Rounding to the nearest integer, a tie going to the even one. *)
Definition roundHalfEven (x : Q) : Z :=
  let f := Qfloor x in
  match (x - inject_Z f ?= 1 # 2)%Q with
  | Lt => f
  | Gt => f + 1
  | Eq => if Z.even f then f else f + 1
  end.

(** The binary64 number nearest to [x]. *)
Definition binary64 (x : Q) : Q :=
  let y := (x * inject_Z (2 ^ 1074))%Q in
  let e := Z.max (Z.log2 (Qfloor (Qabs y)) - 52) 0 in
  let m := roundHalfEven (y / inject_Z (2 ^ e)) in
  (inject_Z (m * 2 ^ e) / inject_Z (2 ^ 1074))%Q.

(** The largest binary64 number below 1, [1 - 2^-53]: the most
    [Math.random()] can return. *)
Definition maxRandom : Q := (9007199254740991 # 9007199254740992)%Q.

(** ** Backoff policies

    [Math.random()] is an input from the environment: a binary64 number
    [random] with [0 <= random < 1], that is [0 <= random <= maxRandom].
    Delays are in milliseconds; [2 ** iteration] is a power of two. *)

Definition jitter (random : Q) : Q := binary64 (random * 100).

Definition geometricBackoff (iteration : Z) (random : Q) : Q :=
  binary64 (binary64 (binary64 (2 ^ iteration) * 100) + jitter random).

Definition linearBackoff (random : Q) : Q := binary64 (100 + jitter random).

(** ** The retry loop *)

Definition MAX_ATTEMPTS : nat := 5.

Section Retry.

Context {E T : Type}.

(** What [retry] can throw: the operation's own error, rethrown, or the
    error after the loop. *)
Inductive RetryThrown : Type :=
| Rethrown (e : E)
| ShouldBeUnreachable.

(** The observable actions of one [retry] call, in program order. *)
Inductive RetryAction : Type :=
| Invoked (attempt : nat)        (* await fn() *)
| OnFailCalled (e : E)           (* onFail(e) *)
| Waited (ms : Q).               (* await waitForTime(ms) *)

(** [fn k] is how the [k]-th invocation of the operation settles (the loop
    body invokes it once per iteration, after incrementing
    [currentAttempt], so the invocation number is [currentAttempt]);
    [backOffStrategy] already contains its random draw; [onFail] tells
    whether the optional observer was supplied. *)
Variable fn : nat -> E + T.
Variable backOffStrategy : nat -> Q.
Variable onFail : bool.

(** The [while (currentAttempt <= MAX_ATTEMPTS)] loop.  [None] is fuel
    running out, which [retry_total] excludes. *)
Fixpoint retryLoop (fuel : nat) (currentAttempt : nat) (log : list RetryAction)
  : list RetryAction * option (RetryThrown + T) :=
  match fuel with
  | O => (log, None)
  | S fuel' =>
      if (currentAttempt <=? MAX_ATTEMPTS)%nat then
        let currentAttempt := S currentAttempt in
        let log := log ++ [Invoked currentAttempt] in
        match fn currentAttempt with
        | inr v => (log, Some (inr v))
        | inl e =>
            let log := if onFail then log ++ [OnFailCalled e] else log in
            if (currentAttempt =? MAX_ATTEMPTS)%nat then (log, Some (inl (Rethrown e)))
            else retryLoop fuel' currentAttempt
                   (log ++ [Waited (backOffStrategy currentAttempt)])
        end
      else (log, Some (inl ShouldBeUnreachable))
  end.

Definition retry : list RetryAction * option (RetryThrown + T) :=
  retryLoop (MAX_ATTEMPTS + 2) 0 [].

Definition invocations (log : list RetryAction) : list nat :=
  omap (fun a => match a with Invoked k => Some k | _ => None end) log.

Definition failuresObserved (log : list RetryAction) : list E :=
  omap (fun a => match a with OnFailCalled e => Some e | _ => None end) log.

Definition waits (log : list RetryAction) : list Q :=
  omap (fun a => match a with Waited ms => Some ms | _ => None end) log.

End Retry.

Arguments RetryThrown : clear implicits.
Arguments RetryAction : clear implicits.

(** [exponentialBackoffRetry]: [retry] with [geometricBackoff]; [random k]
    is the draw made when backing off after attempt [k]. *)
Definition exponentialBackoffRetry {E T : Type} (fn : nat -> E + T)
    (random : nat -> Q) (onFail : bool) :=
  retry fn (fun iteration => geometricBackoff (Z.of_nat iteration) (random iteration)) onFail.

(** [linearBackoffRetry]: [retry] with [linearBackoff]. *)
Definition linearBackoffRetry {E T : Type} (fn : nat -> E + T)
    (random : nat -> Q) (onFail : bool) :=
  retry fn (fun iteration => linearBackoff (random iteration)) onFail.

(** ** The bounded dispatcher

    [concurrentWithRetry] interleaves its own loop with the task promises it
    has started.  The interleaving is a step relation: the loop takes a step
    ([Launch], [AwaitRace], [ExitLoop], [Return]) or a started task settles
    ([Settle], [SettleFail]).  Tasks are allowed to settle at any point, which
    covers every order in which they can complete. *)

(** [results[i] = v] on a JavaScript array: writing past the end extends the
    array, leaving holes. *)
Definition arraySet {R : Type} (l : list (option R)) (i : nat) (v : R) : list (option R) :=
  if (i <? length l)%nat then <[i := Some v]> l
  else l ++ replicate (i - length l) None ++ [Some v].

(** A JavaScript number as a comparison sees it: a binary64 value is a
    rational, an infinity or NaN. *)
Inductive JsDouble : Type :=
| Finite (q : Q)
| PlusInfinity
| MinusInfinity
| NotANumber.

(** [n < limit] for an array length [n]: false when [limit] is NaN. *)
Definition lengthBelow (n : nat) (limit : JsDouble) : bool :=
  match limit with
  | Finite q => negb (Qle_bool q (inject_Z (Z.of_nat n)))
  | PlusInfinity => true
  | MinusInfinity => false
  | NotANumber => false
  end.

Section Dispatcher.

Context {Task Err Result : Type}.

(** [retryFn t i] is how the promise of [retryFn(tasks[i], handler)] settles,
    [t] being [tasks[i]] and [i] standing for the handler, a closure over the
    task index; then the task list, and the limit: any JavaScript number,
    which the loop only compares with [activePromises.length]. *)
Variable retryFn : Task -> nat -> Err + Result.
Variable tasks : list Task.
Variable concurrencyLimit : JsDouble.

Inductive Pc : Type :=
| Looping                                  (* in the [while] loop *)
| Racing                                   (* at [await Promise.race(activePromises)] *)
| Joining                                  (* at [await Promise.all(activePromises)] *)
| Returned (out : list (option Result))    (* [return results] *)
| Rejected (e : Err).                      (* the awaited promise rejected *)

Record Dispatch : Type := mkDispatch {
  pc : Pc;
  activePromises : list nat;   (* the promise of [executeTask(i)] is named [i] *)
  results : list (option Result);
  taskIndex : nat
}.

Definition dispatchStart : Dispatch :=
  {| pc := Looping; activePromises := []; results := []; taskIndex := 0 |}.

(** [activePromises.filter(promise => promise !== taskPromise)] *)
Definition removePromise (i : nat) (l : list nat) : list nat :=
  List.filter (fun j => negb (Nat.eqb j i)) l.

(** Where the loop stands after one of the awaited promises fulfils. *)
Definition afterFulfil (p : Pc) : option Pc :=
  match p with
  | Looping => Some Looping
  | Racing => Some Looping
  | Joining => Some Joining
  | _ => None
  end.

(** Where the loop stands after a task promise rejects: an [await] in
    progress rethrows, otherwise the rejection goes unobserved. *)
Definition afterReject (e : Err) (p : Pc) : option Pc :=
  match p with
  | Looping => Some Looping
  | Racing => Some (Rejected e)
  | Joining => Some (Rejected e)
  | _ => None
  end.

Inductive dstep : Dispatch -> Dispatch -> Prop :=
| Launch s :
    pc s = Looping ->
    (taskIndex s < length tasks)%nat ->
    lengthBelow (length (activePromises s)) concurrencyLimit = true ->
    dstep s {| pc := Looping;
               activePromises := activePromises s ++ [taskIndex s];
               results := results s;
               taskIndex := S (taskIndex s) |}
| AwaitRace s :
    pc s = Looping ->
    (taskIndex s < length tasks)%nat ->
    lengthBelow (length (activePromises s)) concurrencyLimit = false ->
    dstep s {| pc := Racing;
               activePromises := activePromises s;
               results := results s;
               taskIndex := taskIndex s |}
| ExitLoop s :
    pc s = Looping ->
    ~ (taskIndex s < length tasks)%nat ->
    dstep s {| pc := Joining;
               activePromises := activePromises s;
               results := results s;
               taskIndex := taskIndex s |}
| Settle s i t r p' :
    In i (activePromises s) ->
    tasks !! i = Some t ->
    retryFn t i = inr r ->
    afterFulfil (pc s) = Some p' ->
    dstep s {| pc := p';
               activePromises := removePromise i (activePromises s);
               results := arraySet (results s) i r;
               taskIndex := taskIndex s |}
| SettleFail s i t e p' :
    In i (activePromises s) ->
    tasks !! i = Some t ->
    retryFn t i = inl e ->
    afterReject e (pc s) = Some p' ->
    dstep s {| pc := p';
               activePromises := removePromise i (activePromises s);
               results := results s;
               taskIndex := taskIndex s |}
| Return s :
    pc s = Joining ->
    activePromises s = [] ->
    dstep s {| pc := Returned (results s);
               activePromises := activePromises s;
               results := results s;
               taskIndex := taskIndex s |}.

(** The states an execution of [concurrentWithRetry] passes through. *)
Inductive dreach : Dispatch -> Prop :=
| dreach_start : dreach dispatchStart
| dreach_step s s' : dreach s -> dstep s s' -> dreach s'.

Definition pcWeight (p : Pc) : nat :=
  match p with
  | Looping => 2
  | Racing => 1
  | Joining => 1
  | _ => 0
  end.

(** Work left: tasks to launch, promises to settle, awaits to enter. *)
Definition remainingWork (s : Dispatch) : nat :=
  3 * (length tasks - taskIndex s) + 2 * length (activePromises s) + pcWeight (pc s).

End Dispatcher.

Arguments Pc : clear implicits.
Arguments Dispatch : clear implicits.

(** ** Vocabulary of the properties *)

(** A duration that is either not yet set or a non-negative number. *)
Definition nonNegative (d : option Z) : Prop :=
  match d with
  | Some x => 0 <= x
  | None => True
  end.

(** The fields of a [Test] fixed at seeding time. *)
Definition testHeader {S : Type} (t : Test S) : string * list string * string * Z :=
  (test_title t, test_path t, test_relativePath t, test_relativeStartTime t).

(** The active group, if any, was opened by a "step:start" event of the
    history [hist], and every event from that one on belongs to the current
    test. *)
Definition groupOpenedIn (hist : list StepEvent) (st : AggState) : Prop :=
  forall g p, activeGroup st = Some (g, p) ->
    exists before opener between c,
      hist = before ++ opener :: between
      /\ event opener = StepStart
      /\ command opener = Some c
      /\ cmd_id c = p
      /\ cmd_groupId c = Some g
      /\ forall e, In e (opener :: between) ->
                   testForStep (tests st) e = currentTest st.

(** The header of the [Test] seeded from a "test:start" event. *)
Definition seedHeader (toTime : string -> Z) (firstTimestamp : Z) (e : StepEvent)
  : string * list string * string * Z :=
  (titleOf (test e) (file e), test e, file e,
   toRelativeTime toTime (timestamp e) firstTimestamp).


(** What holds of every state of a dispatch in which the task at each index
    [i] settles with the result [resultOf i]. *)
Definition dispatchInv {Task Err Result : Type} (tasks : list Task)
    (concurrencyLimit : JsDouble) (resultOf : nat -> Result) (s : Dispatch Err Result) : Prop :=
  (taskIndex s <= length tasks)%nat
  /\ (forall i, In i (activePromises s) -> (i < taskIndex s)%nat)
  /\ (forall i t, tasks !! i = Some t -> (i < taskIndex s)%nat ->
                  In i (activePromises s)
                  \/ results s !! i = Some (Some (resultOf i)))
  /\ (length (results s) <= taskIndex s)%nat
  /\ match pc s with
     | Looping => True
     | Racing =>
         lengthBelow (length (activePromises s)) concurrencyLimit = false
         /\ (taskIndex s < length tasks)%nat
     | Joining => taskIndex s = length tasks
     | Returned out =>
         out = results s /\ activePromises s = [] /\ taskIndex s = length tasks
     | Rejected _ => False
     end.

(** ** A concrete clock and collation, for worked inputs

    [isoTime] is [new Date(ts).getTime()] on timestamps in the format of
    [Date.prototype.toISOString] ("YYYY-MM-DDTHH:mm:ss.sssZ"); on such strings
    [localeCompare] orders like the code-unit comparison [isoCompare]. *)

Definition digitVal (c : ascii) : option Z :=
  let n := Z.of_N (N_of_ascii c) in
  if ((48 <=? n)%Z && (n <=? 57)%Z)%bool then Some (n - 48) else None.

Fixpoint parseDecimal (acc : Z) (s : string) : option Z :=
  match s with
  | EmptyString => Some acc
  | String c rest =>
      match digitVal c with
      | Some d => parseDecimal (10 * acc + d) rest
      | None => None
      end
  end.

Definition numField (off len : nat) (s : string) : Z :=
  default 0 (parseDecimal 0 (substring off len s)).

(** Days since 1970-01-01 of a proleptic Gregorian date. *)
Definition daysFromCivil (y m d : Z) : Z :=
  let y' := if (m <=? 2)%Z then y - 1 else y in
  let era := y' / 400 in
  let yoe := y' - era * 400 in
  let mp := if (m <=? 2)%Z then m + 9 else m - 3 in
  let doy := (153 * mp + 2) / 5 + d - 1 in
  let doe := yoe * 365 + yoe / 4 - yoe / 100 + doy in
  era * 146097 + doe - 719468.

Definition isoTime (ts : string) : Z :=
  let days := daysFromCivil (numField 0 4 ts) (numField 5 2 ts) (numField 8 2 ts) in
  (((days * 24 + numField 11 2 ts) * 60 + numField 14 2 ts) * 60
   + numField 17 2 ts) * 1000 + numField 20 3 ts.

Definition isoCompare : string -> string -> comparison := OrdersEx.String_as_OT.compare.

(** The hook marker used in the worked inputs; the properties below that
    mention it hold for every value of the constant. *)
Definition hookMarker : string := "hook:afterEach".

Definition cmdOf (i : string) : Command :=
  {| cmd_id := i; cmd_groupId := None; cmd_commandId := None;
     cmd_name := "get"; cmd_args := [] |}.

Definition eventOf (k : EventKind) (ts : string) (path : list string)
    (c : option Command) : StepEvent :=
  {| event := k; timestamp := ts; test := path; file := "spec.cy.ts";
     command := c; category := None; hook := None; error := None |}.

Definition t0 : Z := 1704067200000.
Definition at_ms (ms : string) : string := ("2024-01-01T00:00:00." ++ ms ++ "Z")%string.

Definition scenario : list StepEvent :=
  [ eventOf TestStart (at_ms "000") ["suite"; "works"] None;
    eventOf StepStart (at_ms "005") ["suite"; "works"] (Some (cmdOf "a"));
    eventOf StepEnd (at_ms "015") ["suite"; "works"] (Some (cmdOf "a"));
    eventOf TestEnd (at_ms "020") ["suite"; "works"] None ].




(** The state a pass over [evs] reaches from [st] ([st] itself if it throws). *)
Definition stateAfter (first : Z) (st : AggState) (evs : list StepEvent) : AggState :=
  match processEvents isoTime hookMarker first st evs with
  | inr st' => st'
  | inl _ => st
  end.

Definition worksStart : StepEvent :=
  eventOf TestStart (at_ms "000") ["suite"; "works"] None.

(** The state after seeding one test and processing its "test:start". *)
Definition seededState : AggState :=
  stateAfter t0 (initialState isoTime t0 [worksStart]) [worksStart].

(** A "step:end" inside an after-each hook for a command never started. *)
Definition afterEachEnd : StepEvent :=
  eventOf StepEnd (at_ms "010") [hookMarker; "works"] (Some (cmdOf "z")).

(** The same event outside the hook. *)
Definition plainEnd : StepEvent :=
  eventOf StepEnd (at_ms "010") ["suite"; "works"] (Some (cmdOf "z")).

Definition assertCmd (msg : string) : Command :=
  {| cmd_id := "a"; cmd_groupId := None; cmd_commandId := None;
     cmd_name := "assert"; cmd_args := [JsString msg] |}.

(** An assertion started and ended inside an after-each hook. *)
Definition hookAssertStart : StepEvent :=
  eventOf StepStart (at_ms "005") [hookMarker; "works"] (Some (assertCmd "expected 1")).

Definition hookAssertEnd : StepEvent :=
  eventOf StepEnd (at_ms "015") [hookMarker; "works"] (Some (assertCmd "expected 2")).

Definition hookAssertState : AggState :=
  stateAfter t0 seededState [hookAssertStart].

(** An assertion started and ended in the test body. *)
Definition bodyAssertStart : StepEvent :=
  eventOf StepStart (at_ms "005") ["suite"; "works"] (Some (assertCmd "expected 1")).

Definition bodyAssertEnd : StepEvent :=
  eventOf StepEnd (at_ms "015") ["suite"; "works"] (Some (assertCmd "expected 2")).

Definition bodyAssertState : AggState :=
  stateAfter t0 seededState [bodyAssertStart].

(** A test whose end is stamped 10 ms before its start. *)
Definition skewedTest : list StepEvent :=
  [ eventOf TestStart (at_ms "020") ["suite"; "works"] None;
    eventOf TestEnd (at_ms "010") ["suite"; "works"] None ].

(** A test started twice, then a test with the same title in another suite;
    the step belongs to the last. *)
Definition sameTitle : list StepEvent :=
  [ eventOf TestStart (at_ms "000") ["login"; "works"] None;
    eventOf TestStart (at_ms "010") ["login"; "works"] None;
    eventOf TestStart (at_ms "020") ["checkout"; "works"] None;
    eventOf StepStart (at_ms "025") ["checkout"; "works"] (Some (cmdOf "a")) ].

(** Two suites that each have a test titled "works", one "test:start" per
    test: command "b" and the last "test:end" belong to "checkout". *)
Definition sharedTitle : list StepEvent :=
  [ eventOf TestStart (at_ms "000") ["login"; "works"] None;
    eventOf StepStart (at_ms "005") ["login"; "works"] (Some (cmdOf "a"));
    eventOf StepEnd (at_ms "010") ["login"; "works"] (Some (cmdOf "a"));
    eventOf TestEnd (at_ms "015") ["login"; "works"] None;
    eventOf TestStart (at_ms "020") ["checkout"; "works"] None;
    eventOf StepStart (at_ms "025") ["checkout"; "works"] (Some (cmdOf "b"));
    eventOf StepEnd (at_ms "030") ["checkout"; "works"] (Some (cmdOf "b"));
    eventOf TestEnd (at_ms "040") ["checkout"; "works"] None ].

Definition groupCmd (i g : string) (args : list JsValue) : Command :=
  {| cmd_id := i; cmd_groupId := Some g; cmd_commandId := None;
     cmd_name := "should"; cmd_args := args |}.

(** A chained command with logging disabled, then a sibling in its group. *)
Definition quietStart : StepEvent :=
  eventOf StepStart (at_ms "005") ["suite"; "works"]
    (Some (groupCmd "p" "g" [JsString "#menu"; JsObject [("log", JsBool false)]])).

Definition siblingStart : StepEvent :=
  eventOf StepStart (at_ms "006") ["suite"; "works"] (Some (groupCmd "q" "g" [])).

Definition quietState : AggState := stateAfter t0 seededState [quietStart].

(** The end of the unlogged command. *)
Definition quietEnd : StepEvent :=
  eventOf StepEnd (at_ms "006") ["suite"; "works"] (Some (groupCmd "p" "g" [])).

(** A chained command that is logged: it opens group "g". *)
Definition openerStart : StepEvent :=
  eventOf StepStart (at_ms "005") ["suite"; "works"] (Some (groupCmd "p" "g" [])).

Definition openedState : AggState :=
  stateAfter t0 (initialState isoTime t0 [worksStart]) [worksStart; openerStart].


Definition twoTasks : list Z := [3; 4].

(** A task that succeeds with ten times its payload. *)
Definition tenfold (t : Z) (i : nat) : unit + Z := inr (t * 10).

Definition tenfoldResult (i : nat) : Z := default 0 (twoTasks !! i) * 10.

(** Limits that are not whole numbers. *)
Definition oneHalf : JsDouble := Finite (1 # 2).
Definition threeHalves : JsDouble := Finite (3 # 2).

(** The state of the run of [twoTasks] under a limit of three halves in
    which both tasks are in flight. *)
Definition bothInFlight : Dispatch unit Z :=
  {| pc := Looping; activePromises := [0%nat; 1%nat]; results := []; taskIndex := 2 |}.

(** The last state of the run of [twoTasks] under a limit of one half. *)
Definition twoTasksReturned : Dispatch unit Z :=
  {| pc := Returned [Some 30; Some 40]; activePromises := [];
     results := [Some 30; Some 40]; taskIndex := 2 |}.


(** ** Vocabulary of the further properties *)

(** What identifies a Step and places it in time: every field but the ones
    the "step:end" case and the assertion back-link write. *)
Definition sameStepIdentity (s s' : TestStep) : Prop :=
  step_id s' = step_id s
  /\ step_parentId s' = step_parentId s
  /\ step_name s' = step_name s
  /\ step_commandId s' = step_commandId s
  /\ step_category s' = step_category s
  /\ step_hook s' = step_hook s
  /\ step_relativeStartTime s' = step_relativeStartTime s.

(** Every item of the stack of in-progress steps refers to a step in the
    store that has the id of the item's event. *)
Definition stackConsistent (st : AggState) : Prop :=
  forall e r, In (e, r) (stepStack st) ->
    exists c s, command e = Some c /\ store st !! r = Some s
                /\ step_id s = cmd_id c.

(** The step references held by the tests, test after test. *)
Definition attachedSteps (ts : list (Test StepRef)) : list StepRef :=
  concat (map test_steps ts).


(** The step a "step:start" with command [c] links its assertion to: the
    first step of the current test [t] whose id is the command's commandId,
    if that is a non-empty string. *)
Definition assertionTarget (h : list TestStep) (t : Test StepRef) (c : Command)
  : option StepRef :=
  match cmd_commandId c with
  | Some cid => if truthy cid then findFirst (stepIdIs h cid) (test_steps t) else None
  | None => None
  end.

(** A failed end of the body assertion, for a retried step. *)
Definition bodyAssertFailed : StepEvent :=
  {| event := StepEnd; timestamp := at_ms "010"; test := ["suite"; "works"];
     file := "spec.cy.ts"; command := Some (assertCmd "expected 2");
     category := None; hook := None;
     error := Some {| message := "expected 1 to equal 2"; line := Some 3;
                      column := Some 7 |} |}.

(** An assertion on the command "a", and one on a command never seen. *)
Definition assertionOn (i target : string) : Command :=
  {| cmd_id := i; cmd_groupId := None; cmd_commandId := Some target;
     cmd_name := "assert"; cmd_args := [JsObject [("actual", JsNumber 1)]] |}.

Definition linkedAssertStart : StepEvent :=
  eventOf StepStart (at_ms "007") ["suite"; "works"] (Some (assertionOn "b" "a")).


(** The time a caller spends in [waitForTime] over a list of delays. *)
Definition totalDelay (delays : list Q) : Q := fold_right Qplus 0%Q delays.


(** ** Small utilities of the command-line package *)

(** [s.indexOf(ch) != -1] for a one-character [ch]. *)
Fixpoint inString (c : ascii) (s : string) : bool :=
  match s with
  | EmptyString => false
  | String c' rest => if Ascii.eqb c c' then true else inString c rest
  end.

(** The [for] loop of [isValidUUID], from index [i] on: [s] is the rest of
    the string. *)
Fixpoint uuidCharsFrom (s : string) : bool :=
  match s with
  | EmptyString => true
  | String c rest =>
      if negb (inString c "0123456789abcdef-") then false else uuidCharsFrom rest
  end.

(** [isValidUUID(str: unknown)].  A string is its sequence of code units;
    a code unit outside ASCII is in no case one of the seventeen accepted
    characters. *)
Definition isValidUUID (str : JsValue) : bool :=
  match str with
  | JsString s =>
      if negb (Nat.eqb (String.length s) 36) then false else uuidCharsFrom s
  | _ => false
  end.

(** A lower-case hexadecimal digit, by character code. *)
Definition isLowerHex (c : ascii) : bool :=
  let n := N_of_ascii c in
  ((48 <=? n)%N && (n <=? 57)%N) || ((97 <=? n)%N && (n <=? 102)%N).

Definition isDash (c : ascii) : bool := Ascii.eqb c "-".

Section BrowserNames.

(** [String.prototype.toLowerCase] and [String.prototype.trim]. *)
Variable toLowerCase : string -> string.
Variable trim : string -> string.

(** [fuzzyBrowserName(browser?: string)] *)
Definition fuzzyBrowserName (browser : option string) : option string :=
  let browser := option_map trim (option_map toLowerCase browser) in
  match browser with
  | Some b =>
      if String.eqb b "chrome" then Some "chromium"
      else if String.eqb b "gecko" then Some "firefox"
      else browser
  | None => browser
  end.

(** [assertValidBrowserName(browser?: string)]: [inl] is the message of the
    error thrown. *)
Definition assertValidBrowserName (browser : option string) : string + unit :=
  match browser with
  | Some b =>
      if negb (truthy b)
         || (negb (String.eqb b "chromium") && negb (String.eqb b "firefox"))
      then inl ("Unsupported browser: " ++ b)%string
      else inr tt
  | None => inl "Unsupported browser: undefined"
  end.

End BrowserNames.

(** ** The import resolution check of the build *)

Record ResolveOptions : Type := mkResolveOptions {
  isEntry : bool;
  customBundled : bool     (* options.custom?.bundled is truthy *)
}.

Record ResolvedId : Type := mkResolvedId {
  resolved_id : string
}.

(** The four errors of [resolveId], with the source and the importer their
    messages are built from. *)
Inductive ResolveThrown : Type :=
| UndeclaredImport (source : string) (importer : option string)
| UnresolvedUndeclaredImport (source : string) (importer : option string)
| CouldNotResolve (source : string) (importer : option string)
| ImportOutsidePackage (source : string) (importer : option string).

(** [String.prototype.startsWith] *)
Definition startsWith (s prefix : string) : bool := String.prefix prefix s.

(** The string "\0". *)
Definition nulString : string := String (ascii_of_nat 0) EmptyString.

Section ResolveErrors.

(** The plugin's [isExternal] and [pkg.dir], and rollup's [this.resolve]
    ([None] when it resolves to null). *)
Variable isExternal : string -> bool.
Variable pkgDir : string.
Variable resolve : string -> option string -> ResolveOptions -> option ResolvedId.

(** [resolveId(source, importer, options)]: [inr None] is the plain
    [return]. *)
Definition resolveId (source : string) (importer : option string)
    (options : ResolveOptions) : ResolveThrown + option ResolvedId :=
  if isEntry options || startsWith source nulString || customBundled options
  then inr None
  else if negb (startsWith source ".") && negb (isExternal source)
  then inl (UndeclaredImport source importer)
  else
    match resolve source importer options with
    | None =>
        if negb (startsWith source ".")
        then inl (UnresolvedUndeclaredImport source importer)
        else inl (CouldNotResolve source importer)
    | Some resolved =>
        if startsWith (resolved_id resolved) nulString
           || startsWith (resolved_id resolved) pkgDir
        then inr (Some resolved)
        else inl (ImportOutsidePackage source importer)
    end.

End ResolveErrors.


(** ** The Playwright reporter *)

Definition newline : ascii := ascii_of_nat 10.

(** [s.split("\n")]: never empty, the empty string gives one empty line. *)
Fixpoint splitLines (s : string) : list string :=
  match s with
  | EmptyString => [EmptyString]
  | String c rest =>
      if Ascii.eqb c newline then EmptyString :: splitLines rest
      else match splitLines rest with
           | l :: ls => String c l :: ls
           | [] => [String c EmptyString]
           end
  end.

(** [lines.join("\n")] *)
Fixpoint joinLines (lines : list string) : string :=
  match lines with
  | [] => EmptyString
  | l :: rest =>
      match rest with
      | [] => l
      | _ :: _ => (l ++ String newline (joinLines rest))%string
      end
  end.

(** [String(i)] for an array index. *)
Definition indexString (i : nat) : string :=
  NilEmpty.string_of_uint (Nat.to_uint i).

(** [n || 0] on an optional number. *)
Definition orZero (n : option Z) : Z :=
  match n with
  | Some v => if (v =? 0)%Z then 0%Z else v
  | None => 0%Z
  end.

(** [l.entries()]: the elements with their positions. *)
Definition entries {A : Type} (l : list A) : list (nat * A) :=
  combine (seq 0 (length l)) l.

(** [l.slice(start, -1)] for a [start] that is not negative. *)
Definition sliceToLast {A : Type} (start : nat) (l : list A) : list A :=
  firstn (length l - 1 - start) (skipn start l).

Record PwLocation : Type := mkPwLocation {
  loc_line : Z;
  loc_column : Z
}.

(** Playwright's [TestError]. *)
Record PwTestError : Type := mkPwTestError {
  pw_message : option string;
  pw_value : option string;
  pw_error_location : option PwLocation
}.

(** Playwright's [TestStep], as far as the reporter reads it. *)
Record PwTestStep : Type := mkPwTestStep {
  pw_category : string;
  pw_title : string;
  pw_titlePath : list string;
  pw_error : option PwTestError;
  pw_location : option PwLocation
}.

Record PwTestResult : Type := mkPwTestResult {
  res_status : string;
  res_retry : Z;
  res_duration : Z;
  res_steps : list PwTestStep;
  res_error : option PwTestError
}.

Record PwTestCase : Type := mkPwTestCase {
  tc_title : string;
  tc_titlePath : list string;
  tc_results : list PwTestResult;
  tc_location_file : string
}.

Inductive PwHook : Type := HookBeforeEach | HookAfterEach.

Inductive UserActionCategory : Type := UaAssertion | UaCommand | UaOther.

Record UserActionError : Type := mkUserActionError {
  uae_name : string;
  uae_message : string;
  uae_line : Z;
  uae_column : Z
}.

(** [UserActionEvent["data"]] *)
Record UserActionEvent : Type := mkUserActionEvent {
  ua_id : string;
  ua_parentId : option string;
  ua_command_name : string;
  ua_command_arguments : list string;
  ua_scope : list string;
  ua_error : option UserActionError;
  ua_category : UserActionCategory
}.

Record PwSource : Type := mkPwSource {
  src_title : string;
  src_scope : list string
}.

(** The [Map] from hook to events: a key is absent until its first event. *)
Record HookMap : Type := mkHookMap {
  hm_beforeEach : option (list UserActionEvent);
  hm_afterEach : option (list UserActionEvent)
}.

(** The one test of the object handed to [reporter.onTestEnd], with the
    fields beside it. *)
Record PwTestEnd : Type := mkPwTestEnd {
  te_attempt : Z;
  te_approximateDuration : Z;
  te_source : PwSource;
  te_result : string;
  te_error : option UserActionError;
  te_beforeAll : list UserActionEvent;
  te_afterAll : list UserActionEvent;
  te_beforeEach : list UserActionEvent;
  te_afterEach : list UserActionEvent;
  te_main : list UserActionEvent;
  te_specFile : option string;
  te_replayTitle : string;
  te_extraMetadata : option (option string * string)
}.

Definition mapTestStepCategory (step : PwTestStep) : UserActionCategory :=
  if String.eqb (pw_category step) "expect" then UaAssertion
  else if String.eqb (pw_category step) "step" || String.eqb (pw_category step) "pw:api"
  then UaCommand
  else UaOther.

Definition mapTestStepHook (step : PwTestStep) : option PwHook :=
  if negb (String.eqb (pw_category step) "hook") then None
  else if String.eqb (pw_title step) "Before Hooks" then Some HookBeforeEach
  else if String.eqb (pw_title step) "After Hooks" then Some HookAfterEach
  else None.

Definition getTestId (test : PwTestCase) : string :=
  String.concat "-" (tc_titlePath test).

Definition getSource (test : PwTestCase) : PwSource :=
  {| src_title := tc_title test;
     src_scope := sliceToLast 3 (tc_titlePath test) |}.

Definition hookMapGet (hook : PwHook) (m : HookMap) : option (list UserActionEvent) :=
  match hook with
  | HookBeforeEach => hm_beforeEach m
  | HookAfterEach => hm_afterEach m
  end.

Definition hookMapSet (hook : PwHook) (v : list UserActionEvent) (m : HookMap) : HookMap :=
  match hook with
  | HookBeforeEach => {| hm_beforeEach := Some v; hm_afterEach := hm_afterEach m |}
  | HookAfterEach => {| hm_beforeEach := hm_beforeEach m; hm_afterEach := Some v |}
  end.

Section PlaywrightReporter.

(** [removeAnsiCodes] of the test utilities, and the reporter's
    [captureTestFile] with [readFileSync] ([None] when it throws). *)
Variable removeAnsiCodes : option string -> option string.
Variable captureTestFile : bool.
Variable readFileSync : string -> option string.

Definition extractErrorMessage (error : PwTestError) : string :=
  let otherwise :=
    match pw_value error with
    | Some v => v
    | None => "Unknown error"
    end in
  match removeAnsiCodes (pw_message error) with
  | Some message =>
      if truthy message then
        let errorMessageLines := splitLines message in
        let stackStart :=
          match findIndex (fun l => startsWith l "Call log:") errorMessageLines with
          | None => 10%nat
          | Some i => Nat.min i 10
          end in
        joinLines (firstn stackStart errorMessageLines)
      else otherwise
  | None => otherwise
  end.

(** The event built in the loop of [onTestEnd] for step [s] at index [i]. *)
Definition stepEvent (i : nat) (s : PwTestStep) : UserActionEvent :=
  let stepErrorMessage := option_map extractErrorMessage (pw_error s) in
  {| ua_id := indexString i;
     ua_parentId := None;
     ua_command_name := pw_title s;
     ua_command_arguments := [];
     ua_scope := pw_titlePath s;
     ua_error :=
       match stepErrorMessage with
       | Some m =>
           if truthy m then
             Some {| uae_name := "AssertionError";
                     uae_message := m;
                     uae_line := orZero (option_map loc_line (pw_location s));
                     uae_column := orZero (option_map loc_column (pw_location s)) |}
           else None
       | None => None
       end;
     ua_category := mapTestStepCategory s |}.

(** One turn of the loop over [result.steps.entries()]. *)
Definition bucketStep (acc : HookMap * list UserActionEvent) (entry : nat * PwTestStep)
    : HookMap * list UserActionEvent :=
  let '(hookMap, steps) := acc in
  let '(i, s) := entry in
  let step := stepEvent i s in
  match mapTestStepHook s with
  | Some hook =>
      let hookSteps := match hookMapGet hook hookMap with Some l => l | None => [] end in
      (hookMapSet hook (hookSteps ++ [step]) hookMap, steps)
  | None => (hookMap, steps ++ [step])
  end.

(** [onTestEnd(test, result)]: what is handed to [reporter.onTestEnd], for
    a reporter that exists; [None] when nothing is reported. *)
Definition pwOnTestEnd (test : PwTestCase) (result : PwTestResult) : option PwTestEnd :=
  let status := res_status result in
  if String.eqb status "skipped" then None
  else
    let relativePath := tc_titlePath test !! 2%nat in
    let playwrightMetadata :=
      if captureTestFile then
        match readFileSync (tc_location_file test) with
        | Some content => Some (relativePath, content)
        | None => None
        end
      else None in
    let '(hookMap, steps) :=
      fold_left bucketStep (entries (res_steps result))
                ({| hm_beforeEach := None; hm_afterEach := None |}, []) in
    Some {| te_attempt := res_retry result + 1;
            te_approximateDuration :=
              fold_left (fun acc r => (acc + res_duration r)%Z) (tc_results test) 0%Z;
            te_source := getSource test;
            te_result := if String.eqb status "interrupted" then "unknown" else status;
            te_error :=
              match res_error result with
              | Some e =>
                  Some {| uae_name := "Error";
                          uae_message := extractErrorMessage e;
                          uae_line := orZero (option_map loc_line (pw_error_location e));
                          uae_column := orZero (option_map loc_column (pw_error_location e)) |}
              | None => None
              end;
            te_beforeAll := [];
            te_afterAll := [];
            te_beforeEach := match hookMapGet HookBeforeEach hookMap with Some l => l | None => [] end;
            te_afterEach := match hookMapGet HookAfterEach hookMap with Some l => l | None => [] end;
            te_main := steps;
            te_specFile := relativePath;
            te_replayTitle := tc_title test;
            te_extraMetadata := playwrightMetadata |}.

End PlaywrightReporter.

(** ** The earlier Cypress plugin *)

(** The [reduce] of [after:spec] over the states of the tests. *)
Definition specStatus (states : list string) : string :=
  fold_left (fun acc t =>
               if String.eqb acc "failed" || String.eqb t "failed"
               then "failed" else "passed")
            states "passed"%string.

Record SpecEnd : Type := mkSpecEnd {
  se_title : string;
  se_path : list string;
  se_result : string;
  se_relativePath : string
}.

(** The [after:spec] handler: what it hands to [reporter.onTestEnd], [None]
    when it returns before. *)
Definition afterSpec (selectedBrowser : option string) (relative : string)
    (specType : option string) (states : list string) : option SpecEnd :=
  let status := specStatus states in
  if negb (includes ["passed"; "failed"] (Some status)) then None
  else
    let orEmpty (o : option string) :=
      match o with Some s => if truthy s then s else "" | None => "" end in
    Some {| se_title := relative;
            se_path := [""; orEmpty selectedBrowser; relative; orEmpty specType];
            se_result := status;
            se_relativePath := relative |}.


(** The bucket an entry of [result.steps.entries()] belongs to. *)
Definition isMainEntry (entry : nat * PwTestStep) : bool :=
  match mapTestStepHook (snd entry) with
  | None => true
  | Some _ => false
  end.

Definition isBeforeEachEntry (entry : nat * PwTestStep) : bool :=
  match mapTestStepHook (snd entry) with
  | Some HookBeforeEach => true
  | _ => false
  end.

Definition isAfterEachEntry (entry : nat * PwTestStep) : bool :=
  match mapTestStepHook (snd entry) with
  | Some HookAfterEach => true
  | _ => false
  end.

(** What a bucket of the hook map holds, an absent key read as empty. *)
Definition bucket (hook : PwHook) (m : HookMap) : list UserActionEvent :=
  match hookMapGet hook m with
  | Some l => l
  | None => []
  end.


(** ** The Cypress plugin *)

Definition packageName : string := "@replayio/cypress".

(** ["".padEnd(n, "=")]: empty when [n] is not positive. *)
Definition rule (n : Z) : string :=
  string_of_list_ascii (repeat "="%char (Z.to_nat n)).

(** [process.stdout.columns || 80] *)
Definition terminalWidth (columns : option Z) : Z :=
  match columns with
  | Some c => if (c =? 0)%Z then 80%Z else c
  | None => 80%Z
  end.

(** [Math.floor((terminalWidth - packageName.length) / 2 - 1)]: the floor of a
    half less one is the floored half less one. *)
Definition startHeaderWidth (w : Z) : Z :=
  ((w - Z.of_nat (String.length packageName)) / 2 - 1)%Z.

Definition endHeaderWidth (w : Z) : Z :=
  (w - startHeaderWidth w - Z.of_nat (String.length packageName) - 2)%Z.

Section Warn.

(** [chalk.magentaBright] *)
Variable magentaBright : string -> string.

(** [warn(...lines)]: the texts given to [console.warn], one per call, the
    [%s] of the formats filled in. *)
Definition warn (columns : option Z) (lines : list string) : list string :=
  let w := terminalWidth columns in
  [(String newline
      (rule (startHeaderWidth w) ++ " " ++ magentaBright packageName ++ " "
       ++ rule (endHeaderWidth w) ++ String newline ""))%string]
  ++ lines
  ++ [(String newline (rule w ++ String newline ""))%string].

End Warn.

(** A JS object used as a map with string keys: a key keeps its place when
    it is set again, a new key goes last. *)
Fixpoint assocGet {V : Type} (k : string) (m : list (string * V)) : option V :=
  match m with
  | [] => None
  | (k', v) :: rest => if String.eqb k k' then Some v else assocGet k rest
  end.

Fixpoint assocSet {V : Type} (k : string) (v : V) (m : list (string * V))
    : list (string * V) :=
  match m with
  | [] => [(k, v)]
  | (k', v') :: rest =>
      if String.eqb k k' then (k, v) :: rest else (k', v') :: assocSet k v rest
  end.

Section PluginEvents.

Context {Handler : Type}.

(** A call of the wrapped [on] of Cypress: with the handler itself, or with
    the dispatcher [makeHandlerDispatcher(e)]. *)
Inductive BaseCall : Type :=
| BaseHandler (e : string) (h : Handler)
| BaseDispatcher (e : string).

(** The closure of [_on(base)]: [handlers], [singleHandlerEvents], and the
    calls made to [base] so far.  Event names are taken not to be names of
    properties every object inherits. *)
Record OnState : Type := mkOnState {
  handlers : list (string * list Handler);
  singleHandlerEvents : list (string * bool);
  baseCalls : list BaseCall
}.

Definition onInitial : OnState :=
  {| handlers := [];
     singleHandlerEvents :=
       [("after:screenshot"%string, false);
        ("file:preprocessor"%string, false);
        ("dev-server:start"%string, false)];
     baseCalls := [] |}.

(** The function [_on] returns, [(e, h) => ...]: [inl] is the message of
    the error thrown. *)
Definition on (e : string) (h : Handler) (st : OnState) : string + OnState :=
  if String.eqb e "task" then
    inr {| handlers := handlers st;
           singleHandlerEvents := singleHandlerEvents st;
           baseCalls := baseCalls st ++ [BaseHandler e h] |}
  else if existsb (String.eqb e) (map fst (singleHandlerEvents st)) then
    match assocGet e (singleHandlerEvents st) with
    | Some true => inl ("Only 1 handler allowed for " ++ e)%string
    | _ =>
        inr {| handlers := handlers st;
               singleHandlerEvents := assocSet e true (singleHandlerEvents st);
               baseCalls := baseCalls st ++ [BaseHandler e h] |}
    end
  else
    let hs := match assocGet e (handlers st) with Some l => l | None => [] end ++ [h] in
    inr {| handlers := assocSet e hs (handlers st);
           singleHandlerEvents := singleHandlerEvents st;
           baseCalls :=
             if Nat.eqb (length hs) 1 then baseCalls st ++ [BaseDispatcher e]
             else baseCalls st |}.

(** Registrations made one after the other; the first that throws ends them. *)
Fixpoint onAll (regs : list (string * Handler)) (st : OnState) : string + OnState :=
  match regs with
  | [] => inr st
  | (e, h) :: rest =>
      match on e h st with
      | inl msg => inl msg
      | inr st' => onAll rest st'
      end
  end.

Definition callEvent (c : BaseCall) : string :=
  match c with
  | BaseHandler e _ => e
  | BaseDispatcher e => e
  end.

(** The calls of [base] for event [e], and the handlers registered for it. *)
Definition callsFor (e : string) (calls : list BaseCall) : list BaseCall :=
  List.filter (fun c => String.eqb (callEvent c) e) calls.

Definition regsFor (e : string) (regs : list (string * Handler)) : list Handler :=
  map snd (List.filter (fun r => String.eqb (fst r) e) regs).

End PluginEvents.

Arguments BaseCall : clear implicits.
Arguments OnState : clear implicits.

(** The events for which one handler only may be registered. *)
Definition isSingleHandlerEvent (e : string) : bool :=
  existsb (String.eqb e) ["after:screenshot"; "file:preprocessor"; "dev-server:start"]%string.

(** ** Event tracking *)

(** [{...properties, ...defaultProperties}] *)
Definition spread {V : Type} (properties defaultProperties : list (string * V))
    : list (string * V) :=
  fold_left (fun m kv => assocSet (fst kv) (snd kv) m) defaultProperties properties.

(** [trackEvent(eventName, properties)]: the name and the properties handed
    to [mixpanelAPI.track]; [None] when there is no API object. *)
Definition trackEvent {V : Type} (mixpanelAPI : bool)
    (defaultProperties : list (string * V))
    (eventName : string) (properties : list (string * V))
    : option (string * list (string * V)) :=
  if negb mixpanelAPI then None
  else
    let eventName :=
      if negb (startsWith eventName "replayio.")
      then ("replayio." ++ eventName)%string else eventName in
    Some (eventName, spread properties defaultProperties).

(** ** The prompt for a runtime update *)

Record Version : Type := mkVersion {
  buildId : string;
  version : string
}.

Inductive PromptAction : Type :=
| AnnounceUpdate (toVersion : Version)
| AnnounceInstall
| Prompt
| UpdateCachedPromptData (id : string) (metadata : string)
| InstallLatestRelease.

Definition PROMPT_ID : string := "runtime-update".

(** [promptForRuntimeUpdate(updateCheck)]: what it does, in order, when the
    prompt resolves to [answer]. *)
Definition promptForRuntimeUpdate (fromVersion : option Version)
    (toVersion : Version) (answer : bool) : list PromptAction :=
  let confirmed := isNone fromVersion in
  let '(shown, confirmed) :=
    match fromVersion with
    | Some _ => ([AnnounceUpdate toVersion; Prompt], answer)
    | None => ([AnnounceInstall; Prompt], confirmed)
    end in
  shown
  ++ [UpdateCachedPromptData PROMPT_ID (buildId toVersion)]
  ++ (if confirmed then [InstallLatestRelease] else []).


(** What the closure of [_on] holds after the registrations [regs], all of
    them successful. *)
Definition onInv {Handler : Type} (st : OnState Handler)
    (regs : list (string * Handler)) : Prop :=
  map fst (singleHandlerEvents st)
  = ["after:screenshot"; "file:preprocessor"; "dev-server:start"]%string
  /\ (forall e, isSingleHandlerEvent e = true ->
        assocGet e (singleHandlerEvents st)
        = Some (negb (Nat.eqb (length (regsFor e regs)) 0))
        /\ (length (regsFor e regs) <= 1)%nat)
  /\ (forall e, e <> "task"%string -> isSingleHandlerEvent e = false ->
        assocGet e (handlers st)
        = if Nat.eqb (length (regsFor e regs)) 0 then None else Some (regsFor e regs))
  /\ (forall e, callsFor e (baseCalls st)
        = if String.eqb e "task" || isSingleHandlerEvent e
          then map (BaseHandler e) (regsFor e regs)
          else if Nat.eqb (length (regsFor e regs)) 0 then []
               else [BaseDispatcher e]).


(** ** Worked inputs for the utilities, the reporters and the plugin *)

(** [toLowerCase] and [trim] on text whose code units are below 256: the
    capital letters are A to Z and U+00C0 to U+00DE without U+00D7; the
    characters trimmed are tab, line feed, vertical tab, form feed, carriage
    return, space and the no-break space. *)
Definition lowerChar (c : ascii) : ascii :=
  let n := N_of_ascii c in
  if (((65 <=? n)%N && (n <=? 90)%N)
      || ((192 <=? n)%N && (n <=? 222)%N && negb (n =? 215)%N))%bool
  then ascii_of_N (n + 32) else c.

Definition isTrimmed (c : ascii) : bool :=
  let n := N_of_ascii c in
  (((9 <=? n)%N && (n <=? 13)%N) || (n =? 32)%N || (n =? 160)%N)%bool.

Fixpoint asciiLowerCase (s : string) : string :=
  match s with
  | EmptyString => EmptyString
  | String c rest => String (lowerChar c) (asciiLowerCase rest)
  end.

Fixpoint trimStart (s : string) : string :=
  match s with
  | EmptyString => EmptyString
  | String c rest => if isTrimmed c then trimStart rest else s
  end.

Definition reverseString (s : string) : string :=
  string_of_list_ascii (rev (list_ascii_of_string s)).

Definition trimSpaces (s : string) : string :=
  reverseString (trimStart (reverseString (trimStart s))).

Definition sampleUUID : JsValue := JsString "123e4567-e89b-12d3-a456-426614174000".

(** A package that declares "react" only, and a resolver that finds
    nothing. *)
Definition onlyReact (source : string) : bool := String.eqb source "react".

Definition resolveNothing (source : string) (importer : option string)
    (options : ResolveOptions) : option ResolvedId := None.

Definition plainImport : ResolveOptions :=
  {| isEntry := false; customBundled := false |}.

(** A failed expectation of Playwright, with its call log. *)
Definition callLogMessage : string :=
  Eval vm_compute in
    String.concat (String newline "")
      ["expect(locator).toBeVisible()"; "Call log:"; "  - waiting for locator"]%string.

Definition callLogError : PwTestError :=
  {| pw_message := Some callLogMessage; pw_value := None; pw_error_location := None |}.

Definition keepText (message : option string) : option string := message.

Definition hookStep (title : string) : PwTestStep :=
  {| pw_category := "hook"; pw_title := title; pw_titlePath := [title];
     pw_error := None; pw_location := None |}.

Definition expectStep : PwTestStep :=
  {| pw_category := "expect"; pw_title := "expect.toBeVisible";
     pw_titlePath := ["expect.toBeVisible"%string];
     pw_error := Some callLogError;
     pw_location := Some {| loc_line := 12; loc_column := 5 |} |}.

Definition failedResult : PwTestResult :=
  {| res_status := "failed"; res_retry := 0; res_duration := 1500;
     res_steps := [hookStep "Before Hooks"; expectStep; hookStep "After Hooks"];
     res_error := Some callLogError |}.

Definition signsIn : PwTestCase :=
  {| tc_title := "signs in";
     tc_titlePath := [""; "chromium"; "login.spec.ts"; "auth"; "signs in"]%string;
     tc_results := [failedResult];
     tc_location_file := "/repo/tests/login.spec.ts" |}.

Definition noFile (path : string) : option string := None.

(** Registrations of the plugin and of a user's configuration file, the
    handlers named by numbers. *)
Definition someRegistrations : list (string * nat) :=
  [("before:spec"%string, 1%nat); ("task"%string, 2%nat);
   ("before:spec"%string, 3%nat); ("after:screenshot"%string, 4%nat)].

Definition sessionDefaults : list (string * string) :=
  [("packageName"%string, "replayio"%string)].

Definition callerProperties : list (string * string) :=
  [("packageName"%string, "other"%string); ("command"%string, "upload"%string)].


(** * Properties *)

(** ** List and string helpers *)

Lemma includes_In (l : list string) (s : string) :
  includes l (Some s) = true <-> In s l.
Proof.
  unfold includes. rewrite existsb_exists. split.
  - intros [x [Hin Heq]]. apply String.eqb_eq in Heq. now subst.
  - intros Hin. exists s. split; [assumption | apply String.eqb_refl].
Qed.

Lemma pushIfTruthy_extends (x : option string) (l : list string) :
  exists extra, pushIfTruthy x l = l ++ extra.
Proof.
  unfold pushIfTruthy. destruct x as [s|].
  - destruct (truthy s); [now exists [s] | exists []; now rewrite app_nil_r].
  - exists []. now rewrite app_nil_r.
Qed.

Lemma optNatEqb_eq (a b : option nat) : optNatEqb a b = true <-> a = b.
Proof.
  destruct a as [x|], b as [y|]; simpl; try (split; congruence).
  rewrite Nat.eqb_eq. split; congruence.
Qed.

Lemma findIndex_Some {A : Type} (p : A -> bool) (l : list A) (i : nat) :
  findIndex p l = Some i ->
  exists x, l !! i = Some x /\ p x = true
            /\ forall j y, (j < i)%nat -> l !! j = Some y -> p y = false.
Proof.
  revert i. induction l as [|a l IH]; intros i H; simpl in H; [discriminate|].
  destruct (p a) eqn:Hp.
  - inversion H; subst. exists a. repeat split; auto. intros j y Hj. lia.
  - destruct (findIndex p l) as [k|] eqn:Hk; simpl in H; [|discriminate].
    inversion H; subst. destruct (IH k eq_refl) as [x [Hx [Hpx Hmin]]].
    exists x. repeat split; auto.
    intros [|j] y Hj Hy; simpl in Hy.
    + congruence.
    + apply (Hmin j); [lia | assumption].
Qed.

Lemma findFirst_Some {A : Type} (p : A -> bool) (l : list A) (x : A) :
  findFirst p l = Some x -> In x l /\ p x = true.
Proof.
  induction l as [|a l IH]; simpl; [discriminate|].
  destruct (p a) eqn:Hp.
  - intros H; inversion H; subst. auto.
  - intros H. destruct (IH H). auto.
Qed.

(** ** The stable sort *)

Section SortFacts.

Context {A : Type} (cmp : A -> A -> comparison).

Lemma insertSorted_perm (x : A) (l : list A) :
  Permutation (insertSorted cmp x l) (x :: l).
Proof.
  induction l as [|y l IH]; simpl; [reflexivity|].
  destruct (cmp x y); try reflexivity.
  rewrite IH. apply perm_swap.
Qed.

Lemma stableSort_perm (l : list A) : Permutation (stableSort cmp l) l.
Proof.
  induction l as [|x l IH]; simpl; [reflexivity|].
  rewrite insertSorted_perm. now constructor.
Qed.

Hypothesis cmp_antisym : forall a b, cmp b a = CompOpp (cmp a b).
Hypothesis cmp_trans : forall a b c, cmp a b = Lt -> cmp b c = Lt -> cmp a c = Lt.







End SortFacts.


Section AggregatorFacts.

Variable toTime : string -> Z.
Variable AFTER_EACH_HOOK : string.


(** What one loop iteration does, by event kind. *)
Lemma processEvent_inr (first : Z) (st st' : AggState) (ev : StepEvent) :
  processEvent toTime AFTER_EACH_HOOK first st ev = inr st' ->
  exists cur,
    testForStep (tests st) ev = Some cur /\
    let st1 := enterTest (Some cur) st in
    match event ev with
    | StepEnqueue | TestStart => st' = st1
    | StepStart => onStepStart toTime first cur st1 ev = inr st'
    | StepEnd => onStepEnd toTime AFTER_EACH_HOOK first cur st1 ev = inr st'
    | TestEnd => onTestEnd toTime first cur st1 ev = inr st'
    end.
Proof.
  unfold processEvent. intros H.
  destruct (testForStep (tests st) ev) as [cur|]; simpl in H; [|discriminate].
  exists cur. split; [reflexivity|]. simpl.
  destruct (event ev); congruence.
Qed.

Lemma enterTest_tests found st : tests (enterTest found st) = tests st.
Proof. unfold enterTest. now destruct (optNatEqb _ _). Qed.

Lemma enterTest_store found st : store (enterTest found st) = store st.
Proof. unfold enterTest. now destruct (optNatEqb _ _). Qed.

Lemma enterTest_stepStack found st : stepStack (enterTest found st) = stepStack st.
Proof. unfold enterTest. now destruct (optNatEqb _ _). Qed.

Lemma enterTest_skipped found st :
  skippedStepIds (enterTest found st) = skippedStepIds st.
Proof. unfold enterTest. now destruct (optNatEqb _ _). Qed.

Lemma enterTest_currentTest found st : currentTest (enterTest found st) = found.
Proof. reflexivity. Qed.

Lemma enterTest_activeGroup found st :
  activeGroup (enterTest found st)
  = if optNatEqb (currentTest st) found then activeGroup st else None.
Proof. unfold enterTest. now destruct (optNatEqb _ _). Qed.

(** *** The skipped-id list only grows *)

Lemma onStepStart_skipped first cur st ev st' :
  onStepStart toTime first cur st ev = inr st' ->
  exists extra, skippedStepIds st' = skippedStepIds st ++ extra.
Proof.
  unfold onStepStart. destruct (shouldSkipStep ev (skippedStepIds st)).
  - intros H; inversion H; subst; clear H. simpl.
    destruct (pushIfTruthy_extends (option_map cmd_id (command ev)) (skippedStepIds st))
      as [e1 H1].
    destruct (pushIfTruthy_extends (command ev ≫= cmd_groupId)
                (pushIfTruthy (option_map cmd_id (command ev)) (skippedStepIds st)))
      as [e2 H2].
    exists (e1 ++ e2). rewrite H2, H1. now rewrite app_assoc.
  - destruct (command ev) as [c|]; [|discriminate].
    destruct (tests st !! cur); [|discriminate].
    intros H; inversion H; subst; clear H. simpl.
    exists []. now rewrite app_nil_r.
Qed.

Lemma onStepEnd_skipped first cur st ev st' :
  onStepEnd toTime AFTER_EACH_HOOK first cur st ev = inr st' ->
  skippedStepIds st' = skippedStepIds st.
Proof.
  unfold onStepEnd. destruct (command ev) as [c|]; [|discriminate].
  destruct (isNone _ && _); [intros H; now inversion H|].
  destruct (isAfterEach _ _); [intros H; now inversion H|].
  destruct (assertMatchingStep _ _); [discriminate|].
  destruct (findLastStep st ev c) as [[e0 r]|]; [|discriminate].
  destruct (tests st !! cur); [|discriminate].
  intros H; now inversion H.
Qed.

Lemma onTestEnd_skipped first cur st ev st' :
  onTestEnd toTime first cur st ev = inr st' ->
  skippedStepIds st' = skippedStepIds st.
Proof.
  unfold onTestEnd. destruct (tests st !! cur); [|discriminate].
  intros H; now inversion H.
Qed.

Lemma processEvent_skipped first st ev st' :
  processEvent toTime AFTER_EACH_HOOK first st ev = inr st' ->
  exists extra, skippedStepIds st' = skippedStepIds st ++ extra.
Proof.
  intros H. apply processEvent_inr in H. destruct H as [cur [_ H]]. simpl in H.
  destruct (event ev).
  - subst. exists []. now rewrite enterTest_skipped, app_nil_r.
  - apply onStepStart_skipped in H. now rewrite enterTest_skipped in H.
  - apply onStepEnd_skipped in H. rewrite enterTest_skipped in H.
    exists []. now rewrite app_nil_r.
  - subst. exists []. now rewrite enterTest_skipped, app_nil_r.
  - apply onTestEnd_skipped in H. rewrite enterTest_skipped in H.
    exists []. now rewrite app_nil_r.
Qed.

Lemma processEvents_skipped first evs : forall st st',
  processEvents toTime AFTER_EACH_HOOK first st evs = inr st' ->
  exists extra, skippedStepIds st' = skippedStepIds st ++ extra.
Proof.
  induction evs as [|e evs IH]; intros st st' H; simpl in H.
  - inversion H; subst. exists []. now rewrite app_nil_r.
  - destruct (processEvent toTime AFTER_EACH_HOOK first st e) as [err|st1] eqn:He; [discriminate|].
    destruct (processEvent_skipped _ _ _ _ He) as [x1 H1].
    destruct (IH _ _ H) as [x2 H2].
    exists (x1 ++ x2). rewrite H2, H1. now rewrite app_assoc.
Qed.

Lemma shouldSkipStep_group (ev : StepEvent) (c : Command) (g : string)
    (skipped : list string) :
  command ev = Some c -> cmd_groupId c = Some g -> In g skipped ->
  shouldSkipStep ev skipped = true.
Proof.
  intros Hc Hg Hin. unfold shouldSkipStep. rewrite Hc. simpl. rewrite Hg.
  apply includes_In in Hin. rewrite Hin.
  destruct (logDisabled _); [reflexivity|].
  now destruct (existsb _ _).
Qed.

(** C7. The skipped-id list grows monotonically along a pass, and once a
    group id is in it, no later "step:start" event of that group creates
    a Step: the step store, every test's step list and the stack of
    in-progress steps are left as they were. *)
Theorem skip_monotone_and_propagates (first : Z) (st st1 : AggState)
    (later : list StepEvent) :
  processEvents toTime AFTER_EACH_HOOK first st later = inr st1 ->
  (exists extra, skippedStepIds st1 = skippedStepIds st ++ extra) /\
  (forall g ev c st2,
      In g (skippedStepIds st) ->
      event ev = StepStart -> command ev = Some c -> cmd_groupId c = Some g ->
      processEvent toTime AFTER_EACH_HOOK first st1 ev = inr st2 ->
      store st2 = store st1 /\ tests st2 = tests st1
      /\ stepStack st2 = stepStack st1
      /\ In g (skippedStepIds st2)).
Proof.
  intros Hrun. pose proof (processEvents_skipped _ _ _ _ Hrun) as [extra Hex].
  split; [now exists extra|].
  intros g ev c st2 Hin Hev Hc Hg Hstep.
  assert (Hin1 : In g (skippedStepIds st1)).
  { rewrite Hex. apply in_or_app. now left. }
  pose proof (processEvent_skipped _ _ _ _ Hstep) as [extra2 Hex2].
  apply processEvent_inr in Hstep. destruct Hstep as [cur [_ Hstep]].
  simpl in Hstep. rewrite Hev in Hstep. unfold onStepStart in Hstep.
  rewrite enterTest_skipped in Hstep.
  rewrite (shouldSkipStep_group ev c g _ Hc Hg Hin1) in Hstep.
  inversion Hstep; subst; clear Hstep.
  unfold setSkipped in *. cbn [store tests stepStack skippedStepIds] in *.
  rewrite enterTest_store, enterTest_tests, enterTest_stepStack.
  repeat split; try reflexivity.
  rewrite Hex2. apply in_or_app. now left.
Qed.

(** *** "step:end" events *)

Lemma assertMatchingStep_None (cur : option StepEvent) :
  assertMatchingStep cur None = inl MismatchedStepEvent.
Proof. now destruct cur. Qed.

(** C6, as the code has it.  For a "step:end" event that carries a command,
    belongs to a known test and matches no in-progress step:
    - if its command id is in the skipped list, the event is ignored: the
      iteration succeeds and leaves tests, steps, stack and skipped list as
      they were;
    - otherwise, if its test path starts with the after-each hook marker, it
      is dropped in the same way;
    - otherwise the aggregator throws the mismatched-step error. *)
Theorem step_end_without_match (first : Z) (st : AggState) (ev : StepEvent)
    (c : Command) (cur : nat) :
  event ev = StepEnd ->
  command ev = Some c ->
  testForStep (tests st) ev = Some cur ->
  findLastStep st ev c = None ->
  (In (cmd_id c) (skippedStepIds st) ->
   processEvent toTime AFTER_EACH_HOOK first st ev = inr (enterTest (Some cur) st)) /\
  (~ In (cmd_id c) (skippedStepIds st) ->
   isAfterEach AFTER_EACH_HOOK ev = true ->
   processEvent toTime AFTER_EACH_HOOK first st ev = inr (enterTest (Some cur) st)) /\
  (~ In (cmd_id c) (skippedStepIds st) ->
   isAfterEach AFTER_EACH_HOOK ev = false ->
   processEvent toTime AFTER_EACH_HOOK first st ev = inl MismatchedStepEvent).
Proof.
  intros Hev Hc Hcur Hlast.
  assert (Hlast' : findLastStep (enterTest (Some cur) st) ev c = None).
  { unfold findLastStep in *. now rewrite enterTest_store, enterTest_stepStack. }
  unfold processEvent. rewrite Hcur, Hev. simpl assertCurrentTest. cbv iota beta.
  unfold onStepEnd. rewrite Hc. cbv zeta. rewrite Hlast', enterTest_skipped.
  simpl isNone. simpl option_map. rewrite assertMatchingStep_None.
  repeat split.
  - intros Hin. apply includes_In in Hin. now rewrite Hin.
  - intros Hnin Hgate.
    destruct (includes (skippedStepIds st) (Some (cmd_id c))); simpl; [reflexivity|].
    now rewrite Hgate.
  - intros Hnin Hgate.
    destruct (includes (skippedStepIds st) (Some (cmd_id c))) eqn:Hinc.
    + apply includes_In in Hinc. contradiction.
    + simpl. now rewrite Hgate.
Qed.

Lemma enterTest_state_eq found st :
  tests (enterTest found st) = tests st /\ store (enterTest found st) = store st
  /\ stepStack (enterTest found st) = stepStack st
  /\ skippedStepIds (enterTest found st) = skippedStepIds st.
Proof.
  now rewrite enterTest_tests, enterTest_store, enterTest_stepStack, enterTest_skipped.
Qed.

(** C9, as the code has it.  A successfully processed "step:end" event that
    matches the in-progress step at reference [r]:
    - when its test path starts with the after-each hook marker, changes no
      step at all;
    - otherwise rewrites only the step at [r]: its duration becomes a
      non-negative number, its error the event's error, its args the event's
      args exactly when the command name is "assert"; id, parentId, name,
      commandId, category, hook, relativeStartTime and assertIds stay, and so
      do all other steps, the tests, the stack and the skipped list. *)
Theorem step_end_frame (first : Z) (st st' : AggState) (ev e0 : StepEvent)
    (c : Command) (r : StepRef) (s : TestStep) :
  event ev = StepEnd ->
  command ev = Some c ->
  findLastStep st ev c = Some (e0, r) ->
  store st !! r = Some s ->
  processEvent toTime AFTER_EACH_HOOK first st ev = inr st' ->
  tests st' = tests st /\ stepStack st' = stepStack st
  /\ skippedStepIds st' = skippedStepIds st
  /\ (forall r', r' <> r -> store st' !! r' = store st !! r')
  /\ (isAfterEach AFTER_EACH_HOOK ev = true -> store st' = store st)
  /\ (isAfterEach AFTER_EACH_HOOK ev = false ->
      exists s' d,
        store st' !! r = Some s'
        /\ step_duration s' = Some d /\ 0 <= d
        /\ step_error s' = error ev
        /\ step_args s' = (if String.eqb (cmd_name c) "assert"
                           then cmd_args c else step_args s)
        /\ step_id s' = step_id s
        /\ step_parentId s' = step_parentId s
        /\ step_name s' = step_name s
        /\ step_commandId s' = step_commandId s
        /\ step_category s' = step_category s
        /\ step_hook s' = step_hook s
        /\ step_relativeStartTime s' = step_relativeStartTime s
        /\ step_assertIds s' = step_assertIds s).
Proof.
  intros Hev Hc Hlast Hs Hstep.
  apply processEvent_inr in Hstep. destruct Hstep as [cur [Hcur Hstep]].
  cbv zeta in Hstep. rewrite Hev in Hstep.
  assert (Hlast' : findLastStep (enterTest (Some cur) st) ev c = Some (e0, r)).
  { unfold findLastStep in *. now rewrite enterTest_store, enterTest_stepStack. }
  destruct (enterTest_state_eq (Some cur) st) as [Ht [Hst [Hsk Hskip]]].
  remember (enterTest (Some cur) st) as st1 eqn:Est1. clear Est1.
  unfold onStepEnd in Hstep. rewrite Hc in Hstep. cbv zeta in Hstep.
  rewrite Hlast' in Hstep. simpl isNone in Hstep. simpl andb in Hstep.
  cbv iota in Hstep.
  destruct (isAfterEach AFTER_EACH_HOOK ev) eqn:Hgate.
  - inversion Hstep; subst; clear Hstep.
    rewrite ?Ht, ?Hst, ?Hsk, ?Hskip. repeat split; try reflexivity; discriminate.
  - destruct (assertMatchingStep _ _); [discriminate|].
    rewrite Ht in Hstep. destruct (tests st !! cur) as [t|]; [|discriminate].
    inversion Hstep; subst; clear Hstep.
    unfold setStore. cbn [tests stepStack skippedStepIds store].
    rewrite ?Ht, ?Hst, ?Hsk, ?Hskip. repeat split; try reflexivity.
    + intros r' Hne. rewrite list_lookup_alter_ne by congruence. reflexivity.
    + discriminate.
    + intros _. eexists. eexists. rewrite list_lookup_alter_eq, ?Hst, Hs. simpl.
      repeat split; try reflexivity. apply Z.le_max_l.
Qed.

(** *** Invariants of the loop *)

Lemma processEvents_invariant (P : AggState -> Prop) (first : Z) :
  (forall st ev st', P st -> processEvent toTime AFTER_EACH_HOOK first st ev = inr st' -> P st') ->
  forall evs st st',
    P st -> processEvents toTime AFTER_EACH_HOOK first st evs = inr st' -> P st'.
Proof.
  intros Hstep evs. induction evs as [|e evs IH]; intros st st' HP H; simpl in H.
  - now inversion H; subst.
  - destruct (processEvent toTime AFTER_EACH_HOOK first st e) as [err|st1] eqn:He;
      [discriminate|].
    eapply IH; [|exact H]. eapply Hstep; eauto.
Qed.

Lemma map_alter_same {A B : Type} (f : A -> B) (g : A -> A) (i : nat) (l : list A) :
  (forall x, f (g x) = f x) -> map f (alter g i l) = map f l.
Proof.
  intros Hfg. revert i. induction l as [|a l IH]; intros [|i]; simpl; try reflexivity.
  - now rewrite Hfg.
  - f_equal. apply IH.
Qed.

Lemma processEvent_headers first st ev st' :
  processEvent toTime AFTER_EACH_HOOK first st ev = inr st' ->
  map testHeader (tests st') = map testHeader (tests st).
Proof.
  intros H. apply processEvent_inr in H. destruct H as [cur [_ H]].
  cbv zeta in H. rewrite <- (enterTest_tests (Some cur) st).
  remember (enterTest (Some cur) st) as st1 eqn:E. clear E.
  destruct (event ev).
  - now subst.
  - unfold onStepStart in H. destruct (shouldSkipStep ev (skippedStepIds st1)).
    + now inversion H.
    + destruct (command ev) as [c|]; [|discriminate].
      destruct (tests st1 !! cur); [|discriminate].
      inversion H; subst; clear H. simpl. now apply map_alter_same.
  - unfold onStepEnd in H. destruct (command ev) as [c|]; [|discriminate].
    destruct (isNone _ && _); [now inversion H|].
    destruct (isAfterEach _ _); [now inversion H|].
    destruct (assertMatchingStep _ _); [discriminate|].
    destruct (findLastStep st1 ev c) as [[e0 r]|]; [|discriminate].
    destruct (tests st1 !! cur); [|discriminate].
    now inversion H.
  - now subst.
  - unfold onTestEnd in H. destruct (tests st1 !! cur); [|discriminate].
    inversion H; subst; clear H. simpl. now apply map_alter_same.
Qed.

Lemma processEvents_headers first evs st st' :
  processEvents toTime AFTER_EACH_HOOK first st evs = inr st' ->
  map testHeader (tests st') = map testHeader (tests st).
Proof.
  intros H.
  apply (processEvents_invariant
           (fun s => map testHeader (tests s) = map testHeader (tests st)) first)
    with (evs := evs) (st := st); auto.
  intros s ev s' HP Hs. rewrite <- HP. eapply processEvent_headers; eauto.
Qed.

Lemma testForStep_headers (ts ts' : list (Test StepRef)) (ev : StepEvent) :
  map testHeader ts = map testHeader ts' ->
  testForStep ts ev = testForStep ts' ev.
Proof.
  unfold testForStep. destruct (last (test ev)) as [s|]; [|reflexivity].
  revert ts'. induction ts as [|t ts IH]; intros [|t' ts'] H; simpl in *;
    try discriminate; [reflexivity|].
  inversion H as [[Ht Hp Hr Hs Hrest]]. rewrite Ht.
  destruct (String.eqb (test_title t') s); [reflexivity|].
  now rewrite (IH ts').
Qed.

(** *** Step durations *)

Lemma endStep_nonNegative isAssert endArgs rel err s :
  nonNegative (step_duration (endStep isAssert endArgs rel err s)).
Proof. simpl. apply Z.le_max_l. Qed.

Lemma processEvent_durations first st ev st' :
  Forall (fun s => nonNegative (step_duration s)) (store st) ->
  processEvent toTime AFTER_EACH_HOOK first st ev = inr st' ->
  Forall (fun s => nonNegative (step_duration s)) (store st').
Proof.
  intros HP H. apply processEvent_inr in H. destruct H as [cur [_ H]].
  cbv zeta in H. rewrite <- (enterTest_store (Some cur) st) in HP.
  remember (enterTest (Some cur) st) as st1 eqn:E. clear E.
  destruct (event ev).
  - now subst.
  - unfold onStepStart in H. destruct (shouldSkipStep ev (skippedStepIds st1)).
    + now inversion H.
    + destruct (command ev) as [c|]; [|discriminate].
      destruct (tests st1 !! cur) as [t|]; [|discriminate].
      inversion H; subst; clear H. simpl.
      apply Forall_app_2; [|repeat constructor].
      destruct (cmd_commandId c) as [cid|]; [|assumption].
      destruct (truthy cid); [|assumption].
      destruct (findFirst _ _); [|assumption].
      apply Forall_alter; [assumption|]. now intros x _ Hx.
  - unfold onStepEnd in H. destruct (command ev) as [c|]; [|discriminate].
    destruct (isNone _ && _); [now inversion H; subst|].
    destruct (isAfterEach _ _); [now inversion H; subst|].
    destruct (assertMatchingStep _ _); [discriminate|].
    destruct (findLastStep st1 ev c) as [[e0 r]|]; [|discriminate].
    destruct (tests st1 !! cur); [|discriminate].
    inversion H; subst; clear H. simpl.
    apply Forall_alter; [assumption|]. intros x _ _. apply Z.le_max_l.
  - now subst.
  - unfold onTestEnd in H. destruct (tests st1 !! cur); [|discriminate].
    now inversion H; subst.
Qed.

(** Every Step of the aggregator's output has a duration that is unset or
    non-negative, whatever the timestamps. *)
Theorem step_durations_nonNegative (localeCompare : string -> string -> comparison)
    (steps : list StepEvent) (first : Z) (out : list (Test TestStep)) :
  groupStepsByTest toTime localeCompare AFTER_EACH_HOOK steps first = inr out ->
  forall t s, In t out -> In s (test_steps t) -> nonNegative (step_duration s).
Proof.
  unfold groupStepsByTest. destruct steps as [|e0 rest].
  - intros H; inversion H; subst. intros t s [].
  - destruct (processEvents _ _ _ _ _) as [err|st] eqn:Hrun; [discriminate|].
    intros H; inversion H; subst; clear H. intros t s Ht Hs.
    assert (Hinv : Forall (fun s => nonNegative (step_duration s)) (store st)).
    { refine (processEvents_invariant
                (fun x => Forall (fun s => nonNegative (step_duration s)) (store x))
                first _ _ _ _ _ Hrun).
      - intros; eapply processEvent_durations; eauto.
      - constructor. }
    apply in_map_iff in Ht. destruct Ht as [t1 [<- _]]. simpl in Hs.
    apply list_elem_of_In, list_elem_of_omap in Hs. destruct Hs as [r [_ Hr]].
    exact (Forall_lookup_1 _ _ _ _ Hinv Hr).
Qed.

(** A Test's duration is the raw difference between the "test:end" time and
    the Test's start: nothing keeps it from being negative. *)
Lemma onTestEnd_duration first cur st ev st' t :
  tests st !! cur = Some t ->
  onTestEnd toTime first cur st ev = inr st' ->
  test_duration <$> tests st' !! cur
  = Some (Some (toRelativeTime toTime (timestamp ev) first - test_relativeStartTime t)).
Proof.
  intros Ht H. unfold onTestEnd in H. rewrite Ht in H.
  inversion H; subst; clear H. cbn [tests setTests].
  now rewrite list_lookup_alter_eq, Ht.
Qed.


(** *** The active group *)

Lemma processEvent_currentTest first st ev st' :
  processEvent toTime AFTER_EACH_HOOK first st ev = inr st' ->
  currentTest st' = testForStep (tests st) ev.
Proof.
  intros H. apply processEvent_inr in H. destruct H as [cur [Hcur H]].
  cbv zeta in H. rewrite Hcur. rewrite <- (enterTest_currentTest (Some cur) st).
  remember (enterTest (Some cur) st) as st1 eqn:E. clear E.
  destruct (event ev).
  - now subst.
  - unfold onStepStart in H. destruct (shouldSkipStep ev (skippedStepIds st1)).
    + now inversion H.
    + destruct (command ev) as [c|]; [|discriminate].
      destruct (tests st1 !! cur); [|discriminate]. now inversion H.
  - unfold onStepEnd in H. destruct (command ev) as [c|]; [|discriminate].
    destruct (isNone _ && _); [now inversion H|].
    destruct (isAfterEach _ _); [now inversion H|].
    destruct (assertMatchingStep _ _); [discriminate|].
    destruct (findLastStep st1 ev c) as [[e0 r]|]; [|discriminate].
    destruct (tests st1 !! cur); [|discriminate]. now inversion H.
  - now subst.
  - unfold onTestEnd in H. destruct (tests st1 !! cur); [|discriminate].
    now inversion H.
Qed.

(** After an iteration the active group is the one the loop head left, or
    one that this very "step:start" event has opened. *)
Lemma processEvent_activeGroup first st ev st' :
  processEvent toTime AFTER_EACH_HOOK first st ev = inr st' ->
  activeGroup st' = activeGroup (enterTest (testForStep (tests st) ev) st)
  \/ (event ev = StepStart /\
      exists c g, command ev = Some c /\ cmd_groupId c = Some g
                  /\ activeGroup st' = Some (g, cmd_id c)).
Proof.
  intros H. apply processEvent_inr in H. destruct H as [cur [Hcur H]].
  cbv zeta in H. rewrite Hcur.
  remember (enterTest (Some cur) st) as st1 eqn:E. clear E.
  destruct (event ev) eqn:Hev.
  - left. now subst.
  - unfold onStepStart in H. destruct (shouldSkipStep ev (skippedStepIds st1)).
    + left. now inversion H.
    + destruct (command ev) as [c|] eqn:Hc; [|discriminate].
      destruct (tests st1 !! cur); [|discriminate].
      inversion H; subst; clear H. cbn [activeGroup]. simpl.
      destruct (activeGroup st1) as [[g p]|] eqn:Hag.
      * destruct (cmd_groupId c) as [g'|] eqn:Hg; [|now left].
        destruct (String.eqb g g'); [now left|].
        destruct (truthy g'); [|now left].
        right. split; [reflexivity|]. exists c, g'. auto.
      * destruct (cmd_groupId c) as [g'|] eqn:Hg; [|now left].
        destruct (truthy g'); [|now left].
        right. split; [reflexivity|]. exists c, g'. auto.
  - left. unfold onStepEnd in H. destruct (command ev) as [c|]; [|discriminate].
    destruct (isNone _ && _); [now inversion H|].
    destruct (isAfterEach _ _); [now inversion H|].
    destruct (assertMatchingStep _ _); [discriminate|].
    destruct (findLastStep st1 ev c) as [[e0 r]|]; [|discriminate].
    destruct (tests st1 !! cur); [|discriminate]. now inversion H.
  - left. now subst.
  - left. unfold onTestEnd in H. destruct (tests st1 !! cur); [|discriminate].
    now inversion H.
Qed.

(** A step that comes out of an iteration with a parent took it from the
    group that was active after the loop head. *)
Lemma processEvent_parent first st ev st' s p :
  processEvent toTime AFTER_EACH_HOOK first st ev = inr st' ->
  store st' !! length (store st) = Some s ->
  step_parentId s = Some p ->
  event ev = StepStart /\
  exists g, command ev ≫= cmd_groupId = Some g
            /\ activeGroup (enterTest (testForStep (tests st) ev) st) = Some (g, p).
Proof.
  intros H Hs Hp. apply processEvent_inr in H. destruct H as [cur [Hcur H]].
  cbv zeta in H. rewrite Hcur. rewrite <- (enterTest_store (Some cur) st) in Hs.
  remember (enterTest (Some cur) st) as st1 eqn:E. clear E.
  assert (Hnone : store st1 !! length (store st1) = None)
    by (apply lookup_ge_None_2; lia).
  destruct (event ev) eqn:Hev.
  - subst. congruence.
  - split; [reflexivity|].
    unfold onStepStart in H. destruct (shouldSkipStep ev (skippedStepIds st1)).
    + inversion H; subst. simpl in Hs. congruence.
    + destruct (command ev) as [c|] eqn:Hc; [|discriminate].
      destruct (tests st1 !! cur) as [t|]; [|discriminate].
      inversion H; subst; clear H. cbn [store] in Hs.
      match type of Hs with (?h ++ _) !! _ = _ =>
        assert (Hlen : length h = length (store st1)) end.
      { destruct (cmd_commandId c) as [cid|]; [|reflexivity].
        destruct (truthy cid); [|reflexivity].
        destruct (findFirst _ _); [|reflexivity]. apply length_alter. }
      rewrite <- Hlen in Hs. rewrite list_lookup_middle in Hs by reflexivity.
      inversion Hs; subst; clear Hs. simpl in Hp. simpl.
      destruct (activeGroup st1) as [[g p']|]; [|discriminate].
      destruct (cmd_groupId c) as [g'|]; [|discriminate].
      destruct (String.eqb g g') eqn:Hgg; [|discriminate].
      apply String.eqb_eq in Hgg. inversion Hp; subst. now exists g'.
  - exfalso. unfold onStepEnd in H. destruct (command ev) as [c|]; [|discriminate].
    destruct (isNone _ && _); [inversion H; subst; congruence|].
    destruct (isAfterEach _ _); [inversion H; subst; congruence|].
    destruct (assertMatchingStep _ _); [discriminate|].
    destruct (findLastStep st1 ev c) as [[e0 r]|]; [|discriminate].
    destruct (tests st1 !! cur); [|discriminate].
    inversion H; subst; clear H. simpl in Hs.
    apply lookup_lt_Some in Hs. rewrite length_alter in Hs. lia.
  - subst. congruence.
  - exfalso. unfold onTestEnd in H. destruct (tests st1 !! cur); [|discriminate].
    inversion H; subst. simpl in Hs. congruence.
Qed.

Lemma groupOpenedIn_step first hist st ev st' :
  groupOpenedIn hist st ->
  processEvent toTime AFTER_EACH_HOOK first st ev = inr st' ->
  groupOpenedIn (hist ++ [ev]) st'.
Proof.
  intros Hinv H g p Hag.
  pose proof (processEvent_currentTest _ _ _ _ H) as Hcur.
  pose proof (processEvent_headers _ _ _ _ H) as Hhdr.
  assert (Hres : forall e, testForStep (tests st') e = testForStep (tests st) e)
    by (intros e; now apply testForStep_headers).
  destruct (processEvent_activeGroup _ _ _ _ H) as [Hkeep | [Hev [c [g' [Hc [Hg Hopen]]]]]].
  - rewrite Hkeep, enterTest_activeGroup in Hag.
    destruct (optNatEqb (currentTest st) (testForStep (tests st) ev)) eqn:Hsame;
      [|discriminate].
    apply optNatEqb_eq in Hsame.
    destruct (Hinv g p Hag) as (before & opener & between & c & Hh & Ho & Hc & Hid & Hg & Hall).
    exists before, opener, (between ++ [ev]), c. repeat split; auto.
    + rewrite Hh. now rewrite <- app_assoc.
    + intros e He. rewrite Hres, Hcur. rewrite app_comm_cons in He.
      apply in_app_or in He. destruct He as [He | [-> | []]]; [|reflexivity].
      rewrite (Hall e He). exact Hsame.
  - rewrite Hopen in Hag. inversion Hag; subst; clear Hag.
    exists hist, ev, [], c. repeat split; auto.
    intros e [-> | []]. now rewrite Hres, Hcur.
Qed.

Lemma groupOpenedIn_run first evs : forall hist st st',
  groupOpenedIn hist st ->
  processEvents toTime AFTER_EACH_HOOK first st evs = inr st' ->
  groupOpenedIn (hist ++ evs) st'.
Proof.
  induction evs as [|e evs IH]; intros hist st st' Hinv H; simpl in H.
  - inversion H; subst. now rewrite app_nil_r.
  - destruct (processEvent toTime AFTER_EACH_HOOK first st e) as [err|st1] eqn:He;
      [discriminate|].
    replace (hist ++ e :: evs) with ((hist ++ [e]) ++ evs)
      by (now rewrite <- app_assoc).
    eapply IH; [|exact H]. eapply groupOpenedIn_step; eauto.
Qed.

(** C10. (1) When the test found for an event is not the current test, the
    iteration runs exactly as if no group were active.  (2) Along a pass that
    starts without an active group, a step that receives a parentId receives
    it from a "step:start" event of the same group id such that this opener,
    every event between it and the new step's event, and that event itself
    all resolve to the same Test. *)
Theorem active_group_scoped_to_test (first : Z) (st0 st : AggState)
    (earlier : list StepEvent) (ev : StepEvent) :
  activeGroup st0 = None ->
  processEvents toTime AFTER_EACH_HOOK first st0 earlier = inr st ->
  (testForStep (tests st) ev <> currentTest st ->
   processEvent toTime AFTER_EACH_HOOK first st ev
   = processEvent toTime AFTER_EACH_HOOK first (setActiveGroup None st) ev)
  /\
  (forall st' s p,
      processEvent toTime AFTER_EACH_HOOK first st ev = inr st' ->
      store st' !! length (store st) = Some s ->
      step_parentId s = Some p ->
      exists before opener between c g,
        earlier = before ++ opener :: between
        /\ event opener = StepStart
        /\ command opener = Some c
        /\ cmd_id c = p
        /\ cmd_groupId c = Some g
        /\ command ev ≫= cmd_groupId = Some g
        /\ forall e, In e (opener :: between ++ [ev]) ->
                     testForStep (tests st0) e = testForStep (tests st0) ev).
Proof.
  intros Hnone Hrun. split.
  - intros Hdiff. unfold processEvent. cbn [tests setActiveGroup].
    assert (Hneq : optNatEqb (currentTest st) (testForStep (tests st) ev) = false).
    { destruct (optNatEqb _ _) eqn:E; [|reflexivity].
      apply optNatEqb_eq in E. congruence. }
    assert (Henter : enterTest (testForStep (tests st) ev) (setActiveGroup None st)
                     = enterTest (testForStep (tests st) ev) st).
    { unfold enterTest. cbn [currentTest setActiveGroup]. now rewrite Hneq. }
    now rewrite Henter.
  - intros st' s p Hstep Hs Hp.
    assert (Hinv : groupOpenedIn earlier st).
    { apply (groupOpenedIn_run first earlier [] st0 st); [|assumption].
      intros g q Hag. congruence. }
    pose proof (processEvents_headers _ _ _ _ Hrun) as Hhdr.
    assert (Hres : forall e, testForStep (tests st) e = testForStep (tests st0) e)
      by (intros e; now apply testForStep_headers).
    destruct (processEvent_parent _ _ _ _ _ _ Hstep Hs Hp) as [Hev [g [Hg Hag]]].
    rewrite enterTest_activeGroup in Hag.
    destruct (optNatEqb (currentTest st) (testForStep (tests st) ev)) eqn:Hsame;
      [|discriminate].
    apply optNatEqb_eq in Hsame.
    destruct (Hinv g p Hag) as (before & opener & between & c & Hh & Ho & Hc & Hid & Hgc & Hall).
    exists before, opener, between, c, g. repeat split; auto.
    intros e He. rewrite app_comm_cons in He.
    apply in_app_or in He. destruct He as [He | [-> | []]]; [|reflexivity].
    rewrite <- !Hres. rewrite (Hall e He). exact Hsame.
Qed.

(** *** Tests and the steps attached to them *)

Lemma initialState_headers first sorted :
  map testHeader (tests (initialState toTime first sorted))
  = map (seedHeader toTime first) (filter isTestStart sorted).
Proof.
  unfold initialState. cbn [tests]. rewrite map_map. reflexivity.
Qed.

Lemma resolveTest_headers h (ts : list (Test StepRef)) :
  map testHeader (map (resolveTest h) ts) = map testHeader ts.
Proof. rewrite map_map. reflexivity. Qed.

(** A "step:start" iteration that adds a step object adds its reference to
    the test found for the event, and to no other. *)
Lemma processEvent_attach first st ev st' :
  event ev = StepStart ->
  processEvent toTime AFTER_EACH_HOOK first st ev = inr st' ->
  length (store st') = S (length (store st)) ->
  exists i t,
    testForStep (tests st) ev = Some i
    /\ tests st !! i = Some t
    /\ last (test ev) = Some (test_title t)
    /\ tests st' = alter (pushStep (length (store st))) i (tests st).
Proof.
  intros Hev H Hlen. apply processEvent_inr in H. destruct H as [cur [Hcur H]].
  cbv zeta in H. rewrite Hev in H.
  rewrite <- (enterTest_store (Some cur) st) in Hlen.
  rewrite <- (enterTest_store (Some cur) st), <- (enterTest_tests (Some cur) st).
  rewrite <- (enterTest_tests (Some cur) st) in Hcur.
  remember (enterTest (Some cur) st) as st1 eqn:E. clear E.
  unfold onStepStart in H. destruct (shouldSkipStep ev (skippedStepIds st1)).
  { inversion H; subst. simpl in Hlen. lia. }
  destruct (command ev) as [c|]; [|discriminate].
  destruct (tests st1 !! cur) as [t|] eqn:Ht; [|discriminate].
  inversion H; subst; clear H. cbn [tests store] in *.
  exists cur, t. split; [assumption|]. split; [assumption|].
  assert (Hl : forall h : list TestStep,
             length (match cmd_commandId c with
                     | Some cid =>
                         if truthy cid then
                           match findFirst (stepIdIs (store st1) cid) (test_steps t) with
                           | Some r => alter (pushAssertId (cmd_id c)) r (store st1)
                           | None => store st1
                           end
                         else store st1
                     | None => store st1
                     end) = length (store st1)).
  { intros _. destruct (cmd_commandId c) as [cid|]; [|reflexivity].
    destruct (truthy cid); [|reflexivity].
    destruct (findFirst _ _); [|reflexivity]. apply length_alter. }
  rewrite (Hl []). split; [|reflexivity].
  unfold testForStep in Hcur. destruct (last (test ev)) as [s|]; [|discriminate].
  apply findIndex_Some in Hcur. destruct Hcur as [x [Hx [Heq _]]].
  rewrite Ht in Hx. inversion Hx; subst. apply String.eqb_eq in Heq. now subst.
Qed.

Lemma titleOf_last path fileName s :
  last path = Some s -> s <> "" -> titleOf path fileName = s.
Proof.
  intros Hl Hs. unfold titleOf. rewrite Hl. unfold truthy.
  destruct (String.eqb s "") eqn:E; [|reflexivity].
  apply String.eqb_eq in E. contradiction.
Qed.

(** X27. At any point of a pass over the sorted events:
    (1) the tests are exactly those seeded from the "test:start" events, one
    per event and in sorted order, each with that event's path;
    (2) a "step:start" event that creates a Step attaches it to exactly one
    Test; when the seeded titles are pairwise distinct, the event's path was
    announced by a "test:start" event and does not end in an empty title,
    this is the Test whose path equals the event's test path. *)
Theorem tests_seeded_and_steps_attached
    (localeCompare : string -> string -> comparison) (steps : list StepEvent)
    (first : Z) (before after : list StepEvent) (ev : StepEvent)
    (st st' : AggState) :
  let sorted := sortSteps localeCompare steps in
  let starts := filter isTestStart sorted in
  sorted = before ++ ev :: after ->
  processEvents toTime AFTER_EACH_HOOK first (initialState toTime first sorted) before
  = inr st ->
  processEvent toTime AFTER_EACH_HOOK first st ev = inr st' ->
  map testHeader (tests st') = map (seedHeader toTime first) starts
  /\ (event ev = StepStart ->
      length (store st') = S (length (store st)) ->
      exists i t,
        tests st !! i = Some t
        /\ tests st' = alter (pushStep (length (store st))) i (tests st)
        /\ (NoDup (map (fun e => titleOf (test e) (file e)) starts) ->
            (exists e0, In e0 starts /\ test e0 = test ev) ->
            last (test ev) <> Some "" ->
            test_path t = test ev)).
Proof.
  intros sorted starts Hsplit Hrun Hstep.
  assert (Hhdr : map testHeader (tests st) = map (seedHeader toTime first) starts).
  { rewrite (processEvents_headers _ _ _ _ Hrun). apply initialState_headers. }
  split.
  { rewrite (processEvent_headers _ _ _ _ Hstep). exact Hhdr. }
  intros Hev Hlen.
  destruct (processEvent_attach _ _ _ _ Hev Hstep Hlen) as (i & t & Hi & Ht & Hlast & Htests).
  exists i, t. repeat split; auto.
  intros Hnodup [e0 [Hin0 Hpath0]] Hnonempty.
  assert (Htitle : test_title t <> "") by congruence.
  apply list_elem_of_In, list_elem_of_lookup in Hin0. destruct Hin0 as [j Hj].
  assert (Hti : map (seedHeader toTime first) starts !! i = Some (testHeader t)).
  { rewrite <- Hhdr. change (map testHeader (tests st)) with (testHeader <$> tests st).
    now rewrite list_lookup_fmap, Ht. }
  change (map (seedHeader toTime first) starts)
    with (seedHeader toTime first <$> starts) in Hti.
  rewrite list_lookup_fmap in Hti.
  destruct (starts !! i) as [ei|] eqn:Hei; [|discriminate].
  inversion Hti as [[Htl Hp Hf Hr]].
  assert (Hij : i = j).
  { apply (NoDup_lookup _ i j (test_title t) Hnodup).
    - change (map (fun e => titleOf (test e) (file e)) starts)
        with ((fun e => titleOf (test e) (file e)) <$> starts).
      rewrite list_lookup_fmap, Hei. simpl. now rewrite Htl.
    - change (map (fun e => titleOf (test e) (file e)) starts)
        with ((fun e => titleOf (test e) (file e)) <$> starts).
      rewrite list_lookup_fmap, Hj. simpl. f_equal.
      rewrite Hpath0. now apply titleOf_last. }
  subst j. rewrite Hei in Hj. inversion Hj; subst. congruence.
Qed.

(** *** Arrival order *)


End AggregatorFacts.

(** ** Retry *)

Section RetryFacts.

Context {E T : Type}.

(** The loop always ends by returning or throwing: the fuel is enough. *)
Lemma retry_total (fn : nat -> E + T) (backOffStrategy : nat -> Q) (onFail : bool) :
  snd (retry fn backOffStrategy onFail) <> None.
Proof.
  unfold retry, MAX_ATTEMPTS. simpl.
  destruct (fn 1%nat); [|discriminate]. simpl.
  destruct (fn 2%nat); [|discriminate]. simpl.
  destruct (fn 3%nat); [|discriminate]. simpl.
  destruct (fn 4%nat); [|discriminate]. simpl.
  destruct (fn 5%nat); discriminate.
Qed.

(** A success on the first attempt is returned at once. *)
Lemma retry_first_success (fn : nat -> E + T) (backOffStrategy : nat -> Q)
    (onFail : bool) (v : T) :
  fn 1%nat = inr v ->
  retry fn backOffStrategy onFail = ([Invoked 1], Some (inr v)).
Proof. intros H. unfold retry, MAX_ATTEMPTS. simpl. now rewrite H. Qed.

(** The waits of an operation that keeps failing: one after each of the
    first four attempts, for iterations 1 to 4. *)
Lemma retry_failing_waits (fn : nat -> E + T) (backOffStrategy : nat -> Q)
    (onFail : bool) (errs : nat -> E) :
  (forall k, fn k = inl (errs k)) ->
  waits (fst (retry fn backOffStrategy onFail)) = map backOffStrategy [1; 2; 3; 4]%nat.
Proof.
  intros Hfail. unfold retry, MAX_ATTEMPTS. simpl.
  repeat (rewrite Hfail; simpl).
  destruct onFail; reflexivity.
Qed.

(** C3. An operation that fails on every attempt is invoked exactly five
    times; the observer, when supplied, is called with each of the five
    errors in turn; four waits separate the attempts; and the error thrown
    to the caller is the fifth attempt's. *)
Theorem retry_exhaustion (fn : nat -> E + T) (backOffStrategy : nat -> Q)
    (onFail : bool) (errs : nat -> E) :
  (forall k, fn k = inl (errs k)) ->
  snd (retry fn backOffStrategy onFail) = Some (inl (Rethrown (errs 5%nat)))
  /\ invocations (fst (retry fn backOffStrategy onFail)) = [1; 2; 3; 4; 5]%nat
  /\ failuresObserved (fst (retry fn backOffStrategy onFail))
     = (if onFail then map errs [1; 2; 3; 4; 5]%nat else [])
  /\ waits (fst (retry fn backOffStrategy onFail))
     = map backOffStrategy [1; 2; 3; 4]%nat.
Proof.
  intros Hfail. unfold retry, MAX_ATTEMPTS. simpl.
  repeat (rewrite Hfail; simpl).
  destruct onFail; simpl; repeat split; reflexivity.
Qed.

End RetryFacts.

(** ** Binary64 rounding *)

Lemma inject_Z_le_iff (a b : Z) : (inject_Z a <= inject_Z b)%Q <-> a <= b.
Proof. now rewrite <- Zle_Qle. Qed.

Lemma inject_Z_lt_iff (a b : Z) : (inject_Z a < inject_Z b)%Q <-> a < b.
Proof. now rewrite <- Zlt_Qlt. Qed.

Lemma inject_Z_pos (a : Z) : 0 < a -> (0 < inject_Z a)%Q.
Proof. intros H. now apply (inject_Z_lt_iff 0 a). Qed.

Lemma roundHalfEven_between (a b : Z) (x : Q) :
  (inject_Z a <= x)%Q -> (x <= inject_Z b)%Q ->
  a <= roundHalfEven x <= b.
Proof.
  intros Ha Hb. unfold roundHalfEven.
  pose proof (Qfloor_le x) as Hf.
  pose proof (Qlt_floor x) as Hf'.
  assert (Haf : a <= Qfloor x).
  { rewrite <- (Qfloor_Z a). now apply Qfloor_resp_le. }
  assert (Hfb : Qfloor x <= b).
  { rewrite <- (Qfloor_Z b). now apply Qfloor_resp_le. }
  destruct (Z.eq_dec (Qfloor x) b) as [Heq|Hne].
  - assert (Hx : (x - inject_Z (Qfloor x) < 1 # 2)%Q).
    { rewrite Heq. lra. }
    rewrite Qlt_alt in Hx. rewrite Hx. lia.
  - destruct (x - inject_Z (Qfloor x) ?= 1 # 2)%Q; [destruct (Z.even _)| |]; lia.
Qed.

Lemma roundHalfEven_below (k : Z) (x : Q) :
  (x < inject_Z k + (1 # 2))%Q -> roundHalfEven x <= k.
Proof.
  intros Hx. unfold roundHalfEven.
  pose proof (Qfloor_le x) as Hf.
  assert (Hfk : Qfloor x <= k).
  { destruct (Z_le_gt_dec (Qfloor x) k) as [|Hgt]; [assumption|exfalso].
    assert (k + 1 <= Qfloor x) by lia.
    apply inject_Z_le_iff in H. rewrite inject_Z_plus in H. change (inject_Z 1) with 1%Q in H. lra. }
  destruct (Z.eq_dec (Qfloor x) k) as [Heq|Hne].
  - assert (Hlt : (x - inject_Z (Qfloor x) < 1 # 2)%Q) by (rewrite Heq; lra).
    rewrite Qlt_alt in Hlt. rewrite Hlt. lia.
  - destruct (x - inject_Z (Qfloor x) ?= 1 # 2)%Q; [destruct (Z.even _)| |]; lia.
Qed.

(** The exponent chosen for a non-negative [y] below [2 ^ (E + 53)]. *)
Lemma exponent_le (E : Z) (y : Q) :
  0 <= E -> (0 <= y)%Q -> (y < inject_Z (2 ^ (E + 53)))%Q ->
  0 <= Z.max (Z.log2 (Qfloor (Qabs y)) - 52) 0 <= E.
Proof.
  intros HE Hy Hlt. rewrite Qabs_pos by assumption.
  assert (Hfl : Qfloor y < 2 ^ (E + 53)).
  { apply inject_Z_lt_iff. eapply Qle_lt_trans; [apply Qfloor_le|assumption]. }
  assert (H0 : 0 <= Qfloor y).
  { rewrite <- (Qfloor_Z 0). now apply Qfloor_resp_le. }
  destruct (Z.eq_dec (Qfloor y) 0) as [->|Hne].
  - simpl. lia.
  - assert (Z.log2 (Qfloor y) < E + 53) by (apply Z.log2_lt_pow2; lia). lia.
Qed.

Lemma binary64_between (E a b : Z) (x : Q) :
  0 <= E -> 0 <= a -> b < 2 ^ 53 ->
  (inject_Z (a * 2 ^ E) <= x * inject_Z (2 ^ 1074))%Q ->
  (x * inject_Z (2 ^ 1074) <= inject_Z (b * 2 ^ E))%Q ->
  (inject_Z (a * 2 ^ E) / inject_Z (2 ^ 1074) <= binary64 x)%Q
  /\ (binary64 x <= inject_Z (b * 2 ^ E) / inject_Z (2 ^ 1074))%Q.
Proof.
  intros HE Ha Hb Hlo Hhi. unfold binary64.
  remember (2 ^ 1074) as S eqn:ES.
  assert (HS : 0 < S) by (subst S; apply Z.pow_pos_nonneg; lia).
  assert (HSq : (0 < inject_Z S)%Q) by now apply inject_Z_pos.
  set (y := (x * inject_Z S)%Q) in *.
  assert (HpE : 0 < 2 ^ E) by (apply Z.pow_pos_nonneg; lia).
  assert (Hy0 : (0 <= y)%Q).
  { eapply Qle_trans; [|exact Hlo]. apply (inject_Z_le_iff 0). nia. }
  assert (Hylt : (y < inject_Z (2 ^ (E + 53)))%Q).
  { eapply Qle_lt_trans; [exact Hhi|]. apply inject_Z_lt_iff.
    rewrite Z.pow_add_r by lia. nia. }
  pose proof (exponent_le E y HE Hy0 Hylt) as He.
  set (e := Z.max (Z.log2 (Qfloor (Qabs y)) - 52) 0) in *.
  assert (Hpe : 0 < 2 ^ e) by (apply Z.pow_pos_nonneg; lia).
  assert (Hpeq : (0 < inject_Z (2 ^ e))%Q) by now apply inject_Z_pos.
  assert (Hsplit : 2 ^ E = 2 ^ (E - e) * 2 ^ e).
  { rewrite <- Z.pow_add_r by lia. f_equal. lia. }
  assert (Hpd : 0 < 2 ^ (E - e)) by (apply Z.pow_pos_nonneg; lia).
  destruct (roundHalfEven_between (a * 2 ^ (E - e)) (b * 2 ^ (E - e))
              (y / inject_Z (2 ^ e))) as [Hm1 Hm2].
  { apply Qle_shift_div_l; [exact Hpeq|]. rewrite <- inject_Z_mult.
    replace (a * 2 ^ (E - e) * 2 ^ e) with (a * 2 ^ E) by (rewrite Hsplit; ring).
    exact Hlo. }
  { apply Qle_shift_div_r; [exact Hpeq|]. rewrite <- inject_Z_mult.
    replace (b * 2 ^ (E - e) * 2 ^ e) with (b * 2 ^ E) by (rewrite Hsplit; ring).
    exact Hhi. }
  set (m := roundHalfEven (y / inject_Z (2 ^ e))) in *.
  assert (HSi : (0 <= / inject_Z S)%Q) by (apply Qlt_le_weak, Qinv_lt_0_compat, HSq).
  split; unfold Qdiv; (apply Qmult_le_compat_r; [|exact HSi]);
    apply inject_Z_le_iff; rewrite Hsplit; nia.
Qed.

(** Rounding keeps a number between two integers that are binary64 numbers. *)
Lemma binary64_between_integers (a b : Z) (x : Q) :
  0 <= a -> b < 2 ^ 53 ->
  (inject_Z a <= x)%Q -> (x <= inject_Z b)%Q ->
  (inject_Z a <= binary64 x)%Q /\ (binary64 x <= inject_Z b)%Q.
Proof.
  intros Ha Hb Hlo Hhi.
  remember (2 ^ 1074) as S eqn:ES.
  assert (HS : 0 < S) by (subst S; apply Z.pow_pos_nonneg; lia).
  assert (HSq : (0 < inject_Z S)%Q) by now apply inject_Z_pos.
  assert (Hcancel : forall c, (inject_Z (c * S) / inject_Z S == inject_Z c)%Q).
  { intros c. rewrite inject_Z_mult. field.
    intros H0; rewrite H0 in HSq; now apply Qlt_irrefl in HSq. }
  destruct (binary64_between 1074 a b x) as [H1 H2]; try lia.
  - rewrite <- ES, inject_Z_mult. apply Qmult_le_compat_r; [exact Hlo|]. lra.
  - rewrite <- ES, inject_Z_mult. apply Qmult_le_compat_r; [exact Hhi|]. lra.
  - rewrite <- ES in H1, H2. rewrite Hcancel in H1, H2. auto.
Qed.

Lemma roundHalfEven_wd (x x' : Q) : (x == x')%Q -> roundHalfEven x = roundHalfEven x'.
Proof.
  intros H. unfold roundHalfEven. rewrite (Qfloor_comp x x' H).
  assert (Hc : (x - inject_Z (Qfloor x') ?= 1 # 2)%Q
               = (x' - inject_Z (Qfloor x') ?= 1 # 2)%Q).
  { apply Qcompare_comp; [|reflexivity]. now rewrite H. }
  now rewrite Hc.
Qed.

(** Rounding looks at the value of a rational, not at how it is written. *)
Lemma binary64_wd (x x' : Q) : (x == x')%Q -> binary64 x = binary64 x'.
Proof.
  intros H. unfold binary64.
  assert (Hy : (x * inject_Z (2 ^ 1074) == x' * inject_Z (2 ^ 1074))%Q) by now rewrite H.
  remember (x * inject_Z (2 ^ 1074))%Q as y.
  remember (x' * inject_Z (2 ^ 1074))%Q as y'.
  assert (He : Qfloor (Qabs y) = Qfloor (Qabs y')).
  { apply Qfloor_comp. now rewrite Hy. }
  rewrite He.
  assert (Hm : roundHalfEven (y / inject_Z (2 ^ Z.max (Z.log2 (Qfloor (Qabs y')) - 52) 0))
               = roundHalfEven (y' / inject_Z (2 ^ Z.max (Z.log2 (Qfloor (Qabs y')) - 52) 0))).
  { apply roundHalfEven_wd. now rewrite Hy. }
  now rewrite Hm.
Qed.

(** An integer below [2 ^ 53] is a binary64 number. *)
Lemma binary64_integer (k : Z) (x : Q) :
  0 <= k < 2 ^ 53 -> (x == inject_Z k)%Q -> (binary64 x == inject_Z k)%Q.
Proof.
  intros Hk Hx.
  destruct (binary64_between_integers k k x) as [H1 H2]; try lia.
  - rewrite Hx. apply Qle_refl.
  - rewrite Hx. apply Qle_refl.
  - now apply Qle_antisym.
Qed.

Lemma Qpow2_inject (n : nat) : (2 ^ Z.of_nat n == inject_Z (2 ^ Z.of_nat n))%Q.
Proof. rewrite Zpower_Qpower by lia. reflexivity. Qed.

Lemma pow2_bounds (n : nat) : (n <= 46)%nat -> 1 <= 2 ^ Z.of_nat n <= 2 ^ 46.
Proof.
  intros Hn. split.
  - pose proof (Z.pow_pos_nonneg 2 (Z.of_nat n)). lia.
  - apply Z.pow_le_mono_r; lia.
Qed.

(** [2 ** iteration * 100] is exact. *)
Lemma geometric_base_exact (n : nat) :
  (n <= 46)%nat ->
  (binary64 (binary64 (2 ^ Z.of_nat n) * 100) == 100 * 2 ^ Z.of_nat n)%Q.
Proof.
  intros Hn. pose proof (pow2_bounds n Hn) as [H1 H2].
  change (2 ^ 46) with 70368744177664 in H2.
  assert (Hp : (binary64 (2 ^ Z.of_nat n) == inject_Z (2 ^ Z.of_nat n))%Q).
  { apply binary64_integer; [|apply Qpow2_inject].
    change (2 ^ 53) with 9007199254740992. lia. }
  rewrite (binary64_integer (100 * 2 ^ Z.of_nat n)).
  - rewrite inject_Z_mult, <- Qpow2_inject. reflexivity.
  - change (2 ^ 53) with 9007199254740992. lia.
  - rewrite Hp, inject_Z_mult. change (inject_Z 100) with 100%Q. ring.
Qed.

Lemma jitter_bounds (random : Q) :
  (0 <= random)%Q -> (random <= maxRandom)%Q ->
  (0 <= jitter random)%Q /\ (jitter random < 100)%Q.
Proof.
  intros H0 H1. unfold jitter.
  set (x := (random * 100)%Q).
  assert (Hx0 : (0 <= x)%Q) by (unfold x; lra).
  assert (Hx1 : (x <= maxRandom * 100)%Q).
  { unfold x. apply Qmult_le_compat_r; [exact H1|]. lra. }
  assert (Hx100 : (x <= 100)%Q).
  { eapply Qle_trans; [exact Hx1|]. vm_compute. discriminate. }
  split.
  - destruct (binary64_between_integers 0 100 x) as [H _]; try lia.
    + exact Hx0.
    + change (inject_Z 100) with 100%Q. lra.
    + exact H.
  - destruct (Qlt_le_dec x 64) as [Hlow|Hhigh].
    + destruct (binary64_between_integers 0 64 x) as [_ H]; try lia.
      * exact Hx0.
      * change (inject_Z 64) with 64%Q. lra.
      * change (inject_Z 64) with 64%Q in H. lra.
    + (* the binade of 64: the unit in the last place is 2^-46 *)
      unfold binary64.
      replace (2 ^ 1074) with (2 ^ 1028 * 2 ^ 46)
        by (rewrite <- Z.pow_add_r by lia; reflexivity).
      change (2 ^ 46) with 70368744177664.
      assert (HP : 0 < 2 ^ 1028) by (apply Z.pow_pos_nonneg; lia).
      assert (HP52 : 2 ^ 1080 = 2 ^ 1028 * 4503599627370496)
        by (change 4503599627370496 with (2 ^ 52); rewrite <- Z.pow_add_r by lia; reflexivity).
      assert (HP53 : 2 ^ (1080 + 1) = 2 ^ 1028 * 9007199254740992)
        by (change 9007199254740992 with (2 ^ 53); rewrite <- Z.pow_add_r by lia; reflexivity).
      remember (2 ^ 1028) as P eqn:EP.
      assert (HPq : (0 < inject_Z P)%Q) by now apply inject_Z_pos.
      set (y := (x * inject_Z (P * 70368744177664))%Q).
      assert (Hy : (y == x * 70368744177664 * inject_Z P)%Q).
      { unfold y. rewrite inject_Z_mult.
        change (inject_Z 70368744177664) with 70368744177664%Q. ring. }
      assert (Hylo : (inject_Z (P * 4503599627370496) <= y)%Q).
      { rewrite Hy, inject_Z_mult.
        change (inject_Z 4503599627370496) with 4503599627370496%Q.
        rewrite (Qmult_comm (inject_Z P)).
        apply Qmult_le_compat_r; [lra|lra]. }
      assert (Hyhi : (y < inject_Z (P * 9007199254740992))%Q).
      { rewrite Hy, inject_Z_mult.
        change (inject_Z 9007199254740992) with 9007199254740992%Q.
        rewrite (Qmult_comm (inject_Z P)).
        apply Qmult_lt_compat_r; [exact HPq|lra]. }
      assert (Hy0 : (0 <= y)%Q).
      { eapply Qle_trans; [|exact Hylo]. apply (inject_Z_le_iff 0). nia. }
      assert (He : Z.max (Z.log2 (Qfloor (Qabs y)) - 52) 0 = 1028).
      { rewrite Qabs_pos by exact Hy0.
        assert (Hfl : P * 4503599627370496 <= Qfloor y).
        { rewrite <- (Qfloor_Z (P * 4503599627370496)). now apply Qfloor_resp_le. }
        assert (Hfh : Qfloor y < P * 9007199254740992).
        { apply inject_Z_lt_iff. eapply Qle_lt_trans; [apply Qfloor_le|exact Hyhi]. }
        rewrite (Z.log2_unique (Qfloor y) 1080); [reflexivity|lia|].
        change (Z.succ 1080) with (1080 + 1). rewrite HP52, HP53. lia. }
      rewrite He, <- EP.
      assert (Hz : (y / inject_Z P == x * 70368744177664)%Q).
      { rewrite Hy. field. intros E0. rewrite E0 in HPq. now apply Qlt_irrefl in HPq. }
      rewrite (roundHalfEven_wd _ _ Hz).
      assert (Hm : roundHalfEven (x * 70368744177664) <= 7036874417766399).
      { apply roundHalfEven_below.
        change (inject_Z 7036874417766399) with 7036874417766399%Q.
        assert (Hc : (maxRandom * 100 * 70368744177664
                      < 7036874417766399 + (1 # 2))%Q) by (vm_compute; reflexivity).
        eapply Qle_lt_trans; [|exact Hc].
        apply Qmult_le_compat_r; [exact Hx1|lra]. }
      set (m := roundHalfEven (x * 70368744177664)) in *.
      apply Qlt_shift_div_r.
      * apply inject_Z_pos. lia.
      * change 100%Q with (inject_Z 100).
        rewrite <- inject_Z_mult. apply inject_Z_lt_iff. nia.
Qed.

(** Without the bound on the draw the jitter still is at most 100. *)
Lemma jitter_le (random : Q) :
  (0 <= random)%Q -> (random <= 1)%Q ->
  (0 <= jitter random)%Q /\ (jitter random <= 100)%Q.
Proof.
  intros H0 H1. unfold jitter.
  destruct (binary64_between_integers 0 100 (random * 100)) as [Hlo Hhi]; try lia.
  - change (inject_Z 0) with 0%Q. lra.
  - change (inject_Z 100) with 100%Q. lra.
  - auto.
Qed.

(** The geometric delay is the rounded sum of [100 * 2^iteration] and the
    jitter, and lies between [100 * 2^iteration] and 100 more. *)
Lemma geometricBackoff_bounds (n : nat) (random : Q) :
  (n <= 46)%nat -> (0 <= random)%Q -> (random <= 1)%Q ->
  geometricBackoff (Z.of_nat n) random
  = binary64 (100 * 2 ^ Z.of_nat n + jitter random)
  /\ (100 * 2 ^ Z.of_nat n <= geometricBackoff (Z.of_nat n) random)%Q
  /\ (geometricBackoff (Z.of_nat n) random <= 100 * 2 ^ Z.of_nat n + 100)%Q.
Proof.
  intros Hn H0 H1.
  destruct (jitter_le random H0 H1) as [Hj0 Hj1].
  pose proof (geometric_base_exact n Hn) as Hbase.
  pose proof (pow2_bounds n Hn) as [Hp1 Hp2].
  change (2 ^ 46) with 70368744177664 in Hp2.
  assert (Heq : geometricBackoff (Z.of_nat n) random
                = binary64 (100 * 2 ^ Z.of_nat n + jitter random)).
  { unfold geometricBackoff. apply binary64_wd. now rewrite Hbase. }
  split; [exact Heq|]. rewrite Heq.
  pose proof (Qpow2_inject n) as Hpow.
  destruct (binary64_between_integers (100 * 2 ^ Z.of_nat n) (100 * 2 ^ Z.of_nat n + 100)
              (100 * 2 ^ Z.of_nat n + jitter random)) as [Hlo Hhi].
  - lia.
  - change (2 ^ 53) with 9007199254740992. lia.
  - rewrite inject_Z_mult, <- Hpow. change (inject_Z 100) with 100%Q. lra.
  - rewrite inject_Z_plus, inject_Z_mult, <- Hpow. change (inject_Z 100) with 100%Q. lra.
  - rewrite inject_Z_mult, <- Hpow in Hlo.
    rewrite inject_Z_plus, inject_Z_mult, <- Hpow in Hhi.
    change (inject_Z 100) with 100%Q in Hlo, Hhi. auto.
Qed.

Lemma linearBackoff_bounds (random : Q) :
  (0 <= random)%Q -> (random <= 1)%Q ->
  (100 <= linearBackoff random)%Q /\ (linearBackoff random <= 200)%Q.
Proof.
  intros H0 H1. destruct (jitter_le random H0 H1) as [Hj0 Hj1].
  unfold linearBackoff.
  destruct (binary64_between_integers 100 200 (100 + jitter random)) as [Hlo Hhi]; try lia.
  - change (inject_Z 100) with 100%Q. lra.
  - change (inject_Z 200) with 200%Q. lra.
  - auto.
Qed.

(** ** Backoff *)

(** C5, as the code has it.  The geometric delay for iteration [n] is the
    binary64 sum of [100 * 2^n], which is exact, and a jitter in the range
    [0, 100); the sum being rounded, the delay lies between [100 * 2^n] and
    [100 * 2^n + 100], and does reach the upper end: it is exactly 300 for
    iteration 1 when the draw is [1 - 2^-52].  [retry] asks for iteration
    [n] after the failure of attempt [n]: the delay between attempts [n] and
    [n + 1] is that of iteration [n], starting at 200. *)
Theorem geometric_backoff_delay {E T : Type} (fn : nat -> E + T)
    (random : nat -> Q) (onFail : bool) (errs : nat -> E) :
  (forall k, fn k = inl (errs k)) ->
  (forall k, (0 <= random k)%Q /\ (random k <= maxRandom)%Q) ->
  (forall n : nat, (n <= 46)%nat ->
      geometricBackoff (Z.of_nat n) (random n)
      = binary64 (100 * 2 ^ Z.of_nat n + jitter (random n))
      /\ (0 <= jitter (random n))%Q /\ (jitter (random n) < 100)%Q
      /\ (100 * 2 ^ Z.of_nat n <= geometricBackoff (Z.of_nat n) (random n))%Q
      /\ (geometricBackoff (Z.of_nat n) (random n) <= 100 * 2 ^ Z.of_nat n + 100)%Q)
  /\ (geometricBackoff 1 (4503599627370495 # 4503599627370496) == 300)%Q
  /\ waits (fst (exponentialBackoffRetry fn random onFail))
     = map (fun n => geometricBackoff (Z.of_nat n) (random n)) [1; 2; 3; 4]%nat.
Proof.
  intros Hfail Hrand. split; [|split].
  - intros n Hn. destruct (Hrand n) as [H0 H1].
    destruct (jitter_bounds (random n) H0 H1) as [Hj0 Hj1].
    assert (H1' : (random n <= 1)%Q).
    { eapply Qle_trans; [exact H1|]. vm_compute. discriminate. }
    destruct (geometricBackoff_bounds n (random n) Hn H0 H1') as (Heq & Hlo & Hhi).
    repeat split; assumption.
  - vm_compute. reflexivity.
  - unfold exponentialBackoffRetry.
    exact (retry_failing_waits fn _ onFail errs Hfail).
Qed.

(** ** The dispatcher *)

Lemma arraySet_length {R : Type} (l : list (option R)) (i : nat) (v : R) :
  length (arraySet l i v) = Nat.max (length l) (S i).
Proof.
  unfold arraySet. destruct (i <? length l)%nat eqn:E.
  - apply Nat.ltb_lt in E. rewrite length_insert. lia.
  - apply Nat.ltb_ge in E. rewrite !length_app, length_replicate. simpl. lia.
Qed.

Lemma arraySet_lookup_eq {R : Type} (l : list (option R)) (i : nat) (v : R) :
  arraySet l i v !! i = Some (Some v).
Proof.
  unfold arraySet. destruct (i <? length l)%nat eqn:E.
  - apply Nat.ltb_lt in E. now apply list_lookup_insert_eq.
  - apply Nat.ltb_ge in E. rewrite app_assoc.
    apply list_lookup_middle. rewrite length_app, length_replicate. lia.
Qed.

Lemma arraySet_lookup_ne {R : Type} (l : list (option R)) (i j : nat) (v w : R) :
  j <> i -> l !! j = Some (Some w) -> arraySet l i v !! j = Some (Some w).
Proof.
  intros Hne Hj. unfold arraySet. destruct (i <? length l)%nat.
  - rewrite list_lookup_insert_ne by congruence. exact Hj.
  - now apply lookup_app_l_Some.
Qed.

Lemma removePromise_In (i j : nat) (l : list nat) :
  In j (removePromise i l) <-> In j l /\ j <> i.
Proof.
  unfold removePromise. rewrite filter_In. rewrite Bool.negb_true_iff, Nat.eqb_neq.
  tauto.
Qed.

Lemma removePromise_length (i : nat) (l : list nat) :
  In i l -> (length (removePromise i l) < length l)%nat.
Proof.
  unfold removePromise. induction l as [|x l IH]; intros Hin; [destruct Hin|].
  simpl. destruct (Nat.eqb x i) eqn:E; simpl.
  - pose proof (List.filter_length_le (fun j => negb (Nat.eqb j i)) l). lia.
  - destruct Hin as [->|Hin]; [rewrite Nat.eqb_refl in E; discriminate|].
    specialize (IH Hin). lia.
Qed.

Section DispatcherFacts.

Context {Task Err Result : Type}.
Variable retryFn : Task -> nat -> Err + Result.
Variable tasks : list Task.
Variable concurrencyLimit : JsDouble.
Variable resultOf : nat -> Result.

Hypothesis all_succeed :
  forall i t, tasks !! i = Some t -> retryFn t i = inr (resultOf i).

Lemma dispatchInv_start :
  dispatchInv tasks concurrencyLimit resultOf (dispatchStart (Err := Err)).
Proof.
  unfold dispatchInv, dispatchStart. simpl.
  repeat split; intros; simpl in *; try lia; tauto.
Qed.

Lemma dispatchInv_step (s s' : Dispatch Err Result) :
  dispatchInv tasks concurrencyLimit resultOf s ->
  dstep retryFn tasks concurrencyLimit s s' ->
  dispatchInv tasks concurrencyLimit resultOf s'.
Proof.
  intros (Hidx & Hact & Hres & Hlen & Hpc) Hstep.
  destruct Hstep as [s Hp Hlt Hlim | s Hp Hlt Hlim | s Hp Hge
                    | s i t r p' Hin Ht Hr Hp | s i t e p' Hin Ht He Hp
                    | s Hp Hempty];
    unfold dispatchInv; cbn [pc activePromises results taskIndex].
  - (* Launch *)
    repeat split; try lia.
    + intros i Hi. apply in_app_or in Hi. destruct Hi as [Hi|[<-|[]]]; [|lia].
      specialize (Hact i Hi). lia.
    + intros i t Ht Hi.
      destruct (Nat.eq_dec i (taskIndex s)) as [->|Hne].
      * left. apply in_or_app. right. now left.
      * destruct (Hres i t Ht) as [Hin|Hdone]; [lia| |now right].
        left. apply in_or_app. now left.
  - (* AwaitRace *)
    repeat split; auto.
  - (* ExitLoop *)
    repeat split; auto. lia.
  - (* Settle *)
    pose proof (all_succeed i t Ht) as Hok.
    rewrite Hok in Hr. inversion Hr; subst r; clear Hr.
    repeat split; auto.
    + intros j Hj. apply removePromise_In in Hj. apply Hact. tauto.
    + intros j tj Htj Hj.
      destruct (Nat.eq_dec j i) as [->|Hne].
      * right. rewrite Ht in Htj. inversion Htj; subst. apply arraySet_lookup_eq.
      * destruct (Hres j tj Htj Hj) as [Hinj|Hdone].
        -- left. apply removePromise_In. tauto.
        -- right. now apply arraySet_lookup_ne.
    + rewrite arraySet_length. specialize (Hact i Hin). lia.
    + destruct (pc s); simpl in Hp; inversion Hp; subst; auto.
  - (* SettleFail *)
    pose proof (all_succeed i t Ht) as Hok.
    rewrite Hok in He. discriminate.
  - (* Return *)
    rewrite Hp in Hpc. repeat split; auto.
Qed.

Lemma dispatchInv_reach (s : Dispatch Err Result) :
  dreach retryFn tasks concurrencyLimit s ->
  dispatchInv tasks concurrencyLimit resultOf s.
Proof.
  induction 1 as [|s s' _ IH Hstep].
  - apply dispatchInv_start.
  - eapply dispatchInv_step; eauto.
Qed.

(** The array returned holds each task's result at the task's own index. *)
Lemma dispatch_returns_in_order (s : Dispatch Err Result) (out : list (option Result)) :
  dreach retryFn tasks concurrencyLimit s ->
  pc s = Returned out ->
  out = map (fun i => Some (resultOf i)) (seq 0 (length tasks)).
Proof.
  intros Hreach Hp. apply dispatchInv_reach in Hreach.
  destruct Hreach as (Hidx & Hact & Hres & Hlen & Hpc).
  rewrite Hp in Hpc. destruct Hpc as (-> & Hempty & Hall).
  apply list_eq. intros i.
  change (map (fun i => Some (resultOf i)) (seq 0 (length tasks)))
    with ((fun i => Some (resultOf i)) <$> seq 0 (length tasks)).
  rewrite list_lookup_fmap.
  destruct (tasks !! i) as [t|] eqn:Ht.
  - pose proof (lookup_lt_Some _ _ _ Ht) as Hlt.
    rewrite (lookup_seq_lt 0 (length tasks) i Hlt). simpl.
    destruct (Hres i t Ht) as [Hin|Hdone]; [lia|rewrite Hempty in Hin; destruct Hin|exact Hdone].
  - apply lookup_ge_None in Ht.
    rewrite (lookup_seq_ge 0 (length tasks) i Ht). simpl.
    apply lookup_ge_None. lia.
Qed.

(** With a limit above zero, a dispatch that has not returned can always
    take a step: it never waits on an empty set of promises. *)
Lemma dispatch_progress (s : Dispatch Err Result) :
  lengthBelow 0 concurrencyLimit = true ->
  dreach retryFn tasks concurrencyLimit s ->
  (exists out, pc s = Returned out)
  \/ exists s', dstep retryFn tasks concurrencyLimit s s'.
Proof.
  intros Hlimit Hreach. apply dispatchInv_reach in Hreach.
  destruct Hreach as (Hidx & Hact & Hres & Hlen & Hpc).
  assert (Hsettle : forall p', activePromises s <> [] ->
             afterFulfil (pc s) = Some p' ->
             exists s', dstep retryFn tasks concurrencyLimit s s').
  { intros p' Hne Hp'. destruct (activePromises s) as [|i rest] eqn:Ea; [congruence|].
    assert (Hi : (i < length tasks)%nat).
    { specialize (Hact i (or_introl eq_refl)). lia. }
    destruct (lookup_lt_is_Some_2 tasks i Hi) as [t Ht].
    eexists. eapply (Settle retryFn tasks concurrencyLimit s i t (resultOf i) p').
    - rewrite Ea. now left.
    - exact Ht.
    - now apply all_succeed.
    - exact Hp'. }
  destruct (pc s) eqn:Ep.
  - (* Looping *)
    right. destruct (Nat.lt_ge_cases (taskIndex s) (length tasks)) as [Hlt|Hge].
    + destruct (lengthBelow (length (activePromises s)) concurrencyLimit) eqn:Hroom.
      * eexists. now apply Launch.
      * eexists. now apply AwaitRace.
    + eexists. apply ExitLoop; auto; lia.
  - (* Racing *)
    right. apply (Hsettle Looping); [|reflexivity].
    destruct Hpc as [Hfull _]. intros Hnil. rewrite Hnil in Hfull. simpl length in Hfull.
    congruence.
  - (* Joining *)
    right. destruct (activePromises s) as [|i rest] eqn:Ea.
    + eexists. now apply Return.
    + apply (Hsettle Joining); [discriminate|reflexivity].
  - left. eauto.
  - destruct Hpc.
Qed.

End DispatcherFacts.

(** Every step uses up some of the remaining work: no execution is infinite. *)
Lemma dstep_decreases {Task Err Result : Type} (retryFn : Task -> nat -> Err + Result)
    (tasks : list Task) (concurrencyLimit : JsDouble) (s s' : Dispatch Err Result) :
  dstep retryFn tasks concurrencyLimit s s' ->
  (remainingWork tasks s' < remainingWork tasks s)%nat.
Proof.
  intros Hstep.
  destruct Hstep as [s Hp Hlt Hlim | s Hp Hlt Hlim | s Hp Hge
                    | s i t r p' Hin Ht Hr Hp | s i t e p' Hin Ht He Hp
                    | s Hp Hempty];
    unfold remainingWork; cbn [pc activePromises results taskIndex].
  - rewrite Hp, length_app. simpl. lia.
  - rewrite Hp. simpl. lia.
  - rewrite Hp. simpl. lia.
  - pose proof (removePromise_length i _ Hin).
    destruct (pc s); simpl in Hp; inversion Hp; subst; simpl; lia.
  - pose proof (removePromise_length i _ Hin).
    destruct (pc s); simpl in Hp; inversion Hp; subst; simpl; lia.
  - rewrite Hp. simpl. lia.
Qed.

(** With a limit that is not above zero and a task to run, the loop
    launches nothing: it goes to [Promise.race] of no promise and stays
    there. *)
Lemma dispatch_stuck {Task Err Result : Type} (retryFn : Task -> nat -> Err + Result)
    (tasks : list Task) (concurrencyLimit : JsDouble) (s : Dispatch Err Result) :
  lengthBelow 0 concurrencyLimit = false ->
  tasks <> [] ->
  dreach retryFn tasks concurrencyLimit s ->
  activePromises s = [] /\ taskIndex s = 0%nat /\ results s = []
  /\ (pc s = Looping \/ pc s = Racing).
Proof.
  intros Hlimit Hne Hreach.
  assert (Hlen : (0 < length tasks)%nat) by (destruct tasks; [congruence|simpl; lia]).
  induction Hreach as [|s s' _ IH Hstep].
  - unfold dispatchStart. simpl. auto.
  - destruct IH as (Hact & Hidx & Hres & Hpc).
    destruct Hstep as [s Hp Hlt Hroom | s Hp Hlt Hfull | s Hp Hge
                      | s i t r p' Hin Ht Hr Hp | s i t e p' Hin Ht He Hp
                      | s Hp Hempty];
      cbn [pc activePromises results taskIndex].
    + rewrite Hact in Hroom. simpl length in Hroom. congruence.
    + auto.
    + rewrite Hidx in Hge. contradiction.
    + rewrite Hact in Hin. destruct Hin.
    + rewrite Hact in Hin. destruct Hin.
    + destruct Hpc as [Hpc|Hpc]; congruence.
Qed.

(** C4, as the code has it.  When the task at every index settles with a
    result: whatever the order in which the tasks complete, the array
    returned has the length of [tasks] and holds the result of task [i] at
    index [i].  When moreover the limit is above zero, a whole number or
    not, the call does return: it can always take a step until it has
    returned, and every step uses up remaining work.  When the limit is
    not above zero (zero, negative or NaN) and there is a task, the call
    never returns: nothing is launched, and once the loop waits for the
    race of no promise no step is left. *)
Theorem dispatch_preserves_order {Task Err Result : Type}
    (retryFn : Task -> nat -> Err + Result) (tasks : list Task)
    (concurrencyLimit : JsDouble) (resultOf : nat -> Result) :
  (forall i t, tasks !! i = Some t -> retryFn t i = inr (resultOf i)) ->
  (forall s out,
      dreach retryFn tasks concurrencyLimit s -> pc s = Returned out ->
      length out = length tasks
      /\ forall i, (i < length tasks)%nat -> out !! i = Some (Some (resultOf i)))
  /\ (lengthBelow 0 concurrencyLimit = true ->
      forall s, dreach retryFn tasks concurrencyLimit s ->
                (exists out, pc s = Returned out)
                \/ exists s', dstep retryFn tasks concurrencyLimit s s'
                              /\ (remainingWork tasks s' < remainingWork tasks s)%nat)
  /\ (lengthBelow 0 concurrencyLimit = false -> tasks <> [] ->
      forall s, dreach retryFn tasks concurrencyLimit s ->
                (forall out, pc s <> Returned out)
                /\ activePromises s = [] /\ taskIndex s = 0%nat
                /\ (pc s = Racing ->
                    forall s', ~ dstep retryFn tasks concurrencyLimit s s')).
Proof.
  intros Hok. split; [|split].
  - intros s out Hreach Hp.
    rewrite (dispatch_returns_in_order retryFn tasks concurrencyLimit resultOf Hok
               s out Hreach Hp).
    split; [now rewrite length_map, length_seq|].
    intros i Hi.
    change (map (fun i => Some (resultOf i)) (seq 0 (length tasks)))
      with ((fun i => Some (resultOf i)) <$> seq 0 (length tasks)).
    now rewrite list_lookup_fmap, (lookup_seq_lt 0 (length tasks) i Hi).
  - intros Hlimit s Hreach.
    destruct (dispatch_progress retryFn tasks concurrencyLimit resultOf Hok
                s Hlimit Hreach) as [Hdone|[s' Hstep]]; [now left|].
    right. exists s'. split; [assumption|]. eapply dstep_decreases; eauto.
  - intros Hlimit Hne s Hreach.
    destruct (dispatch_stuck retryFn tasks concurrencyLimit s Hlimit Hne Hreach)
      as (Hact & Hidx & Hres & Hpc).
    split; [|split; [exact Hact|split; [exact Hidx|]]].
    + intros out Hout. destruct Hpc as [Hpc|Hpc]; congruence.
    + intros Hracing s' Hstep.
      destruct Hstep as [s Hp Hlt Hroom | s Hp Hlt Hfull | s Hp Hge
                        | s i t r p' Hin Ht Hr Hp | s i t e p' Hin Ht He Hp
                        | s Hp Hempty]; try congruence.
      * rewrite Hact in Hin. destruct Hin.
      * rewrite Hact in Hin. destruct Hin.
Qed.

(** ** Worked inputs *)



(** The scenario of the specification, and its reversal. *)
Example scenario_result :
  groupStepsByTest isoTime isoCompare hookMarker scenario t0
  = inr [ {| test_title := "works"; test_path := ["suite"; "works"];
             test_result := "passed"; test_relativePath := "spec.cy.ts";
             test_relativeStartTime := 0;
             test_steps :=
               [ {| step_id := "a"; step_parentId := None; step_name := "get";
                    step_args := []; step_commandId := None;
                    step_relativeStartTime := 5; step_category := CatOther;
                    step_hook := None; step_duration := Some 10;
                    step_error := None; step_assertIds := None |} ];
             test_duration := Some 20 |} ].
Proof. vm_compute. reflexivity. Qed.



Lemma skip_witness :
  (exists extra,
      skippedStepIds (stateAfter t0 quietState [quietEnd])
      = skippedStepIds quietState ++ extra)
  /\ store (stateAfter t0 quietState [quietEnd; siblingStart])
     = store (stateAfter t0 quietState [quietEnd])
  /\ In "g" (skippedStepIds (stateAfter t0 quietState [quietEnd; siblingStart])).
Proof.
  destruct (skip_monotone_and_propagates isoTime hookMarker t0 quietState
              (stateAfter t0 quietState [quietEnd]) [quietEnd] eq_refl)
    as [Hgrow Hskip].
  split; [exact Hgrow|].
  destruct (Hskip "g" siblingStart (groupCmd "q" "g" [])
              (stateAfter t0 quietState [quietEnd; siblingStart]))
    as (Hstore & _ & _ & Hin).
  - vm_compute. auto.
  - reflexivity.
  - reflexivity.
  - reflexivity.
  - reflexivity.
  - split; assumption.
Defined.

Lemma step_end_without_match_witness :
  processEvent isoTime hookMarker t0 quietState quietEnd
  = inr (enterTest (Some 0%nat) quietState)
  /\ processEvent isoTime hookMarker t0 seededState afterEachEnd
     = inr (enterTest (Some 0%nat) seededState)
  /\ processEvent isoTime hookMarker t0 seededState plainEnd
     = inl MismatchedStepEvent.
Proof.
  split; [|split].
  - apply (proj1 (step_end_without_match isoTime hookMarker t0 quietState quietEnd
                    (groupCmd "p" "g" []) 0 eq_refl eq_refl eq_refl eq_refl)).
    vm_compute. auto.
  - apply (proj1 (proj2 (step_end_without_match isoTime hookMarker t0 seededState
                           afterEachEnd (cmdOf "z") 0 eq_refl eq_refl eq_refl eq_refl))).
    + vm_compute. tauto.
    + reflexivity.
  - apply (proj2 (proj2 (step_end_without_match isoTime hookMarker t0 seededState
                           plainEnd (cmdOf "z") 0 eq_refl eq_refl eq_refl eq_refl))).
    + vm_compute. tauto.
    + reflexivity.
Defined.

(** An unmatched, unskipped "step:end" whose test path starts with the
    after-each marker is dropped without any error. *)
Lemma after_each_end_is_dropped :
  event afterEachEnd = StepEnd
  /\ findLastStep seededState afterEachEnd (cmdOf "z") = None
  /\ ~ In "z" (skippedStepIds seededState)
  /\ processEvent isoTime hookMarker t0 seededState afterEachEnd
     <> inl MismatchedStepEvent
  /\ groupStepsByTest isoTime isoCompare hookMarker [worksStart; afterEachEnd] t0
     = inr [ {| test_title := "works"; test_path := ["suite"; "works"];
                test_result := "passed"; test_relativePath := "spec.cy.ts";
                test_relativeStartTime := 0; test_steps := [];
                test_duration := None |} ].
Proof.
  repeat split; try reflexivity.
  - vm_compute. tauto.
  - vm_compute. discriminate.
Qed.

Lemma step_end_frame_witness :
  exists s' d,
    store (stateAfter t0 bodyAssertState [bodyAssertEnd]) !! 0%nat = Some s'
    /\ step_duration s' = Some d /\ 0 <= d
    /\ step_args s' = [JsString "expected 2"]
    /\ step_id s' = "a"
    /\ step_relativeStartTime s' = 5.
Proof.
  edestruct (step_end_frame isoTime hookMarker t0 bodyAssertState
               (stateAfter t0 bodyAssertState [bodyAssertEnd])
               bodyAssertEnd bodyAssertStart (assertCmd "expected 2") 0%nat)
    as (_ & _ & _ & _ & _ & Hrewritten); try reflexivity.
  destruct (Hrewritten eq_refl)
    as (s' & d & Hs' & Hd & Hpos & _ & Hargs & Hid & _ & _ & _ & _ & _ & Hstart & _).
  exists s', d. repeat split; assumption.
Defined.

(** The end of an assertion inside an after-each hook matches the
    in-progress step and yet rewrites neither its args nor its duration. *)
Lemma after_each_assert_end_changes_nothing :
  event hookAssertEnd = StepEnd
  /\ findLastStep hookAssertState hookAssertEnd (assertCmd "expected 2")
     = Some (hookAssertStart, 0%nat)
  /\ cmd_name (assertCmd "expected 2") = "assert"
  /\ exists st' s',
      processEvent isoTime hookMarker t0 hookAssertState hookAssertEnd = inr st'
      /\ store st' !! 0%nat = Some s'
      /\ step_args s' = [JsString "expected 1"]
      /\ step_args s' <> cmd_args (assertCmd "expected 2")
      /\ step_duration s' = None.
Proof.
  repeat split; try reflexivity.
  eexists. eexists. split; [vm_compute; reflexivity|].
  split; [vm_compute; reflexivity|].
  repeat split; try reflexivity. vm_compute. discriminate.
Qed.

Lemma active_group_witness :
  exists before opener between c g,
    [worksStart; openerStart] = before ++ opener :: between
    /\ event opener = StepStart
    /\ command opener = Some c
    /\ cmd_id c = "p"
    /\ cmd_groupId c = Some g
    /\ command siblingStart ≫= cmd_groupId = Some g
    /\ forall e, In e (opener :: between ++ [siblingStart]) ->
                 testForStep (tests (initialState isoTime t0 [worksStart])) e
                 = testForStep (tests (initialState isoTime t0 [worksStart])) siblingStart.
Proof.
  destruct (active_group_scoped_to_test isoTime hookMarker t0
              (initialState isoTime t0 [worksStart]) openedState
              [worksStart; openerStart] siblingStart eq_refl eq_refl)
    as [_ Hparent].
  eapply (Hparent (stateAfter t0 openedState [siblingStart])); reflexivity.
Defined.

Lemma tests_seeded_witness :
  exists t,
    tests (stateAfter t0 (initialState isoTime t0 scenario) [worksStart]) !! 0%nat
    = Some t
    /\ test_path t = ["suite"; "works"].
Proof.
  edestruct (tests_seeded_and_steps_attached isoTime hookMarker isoCompare scenario t0
               [worksStart]
               [eventOf StepEnd (at_ms "015") ["suite"; "works"] (Some (cmdOf "a"));
                eventOf TestEnd (at_ms "020") ["suite"; "works"] None]
               (eventOf StepStart (at_ms "005") ["suite"; "works"] (Some (cmdOf "a")))
               (stateAfter t0 (initialState isoTime t0 scenario) [worksStart]))
    as [_ Hattach]; try reflexivity.
  destruct (Hattach eq_refl eq_refl) as (i & t & Ht & Htests & Hpath).
  assert (Hi : i = 0%nat).
  { apply lookup_lt_Some in Ht. vm_compute in Ht. lia. }
  subst i. exists t. split; [exact Ht|].
  apply Hpath.
  - change (NoDup ["works"]). apply NoDup_singleton.
  - exists worksStart. split; [vm_compute; auto | reflexivity].
  - vm_compute. discriminate.
Defined.

(** Two "test:start" events with one path seed two Tests, and a step of a
    later test with the same title lands in the first of them. *)
Lemma same_title_steps_go_to_first_test :
  exists tA tB tC,
    groupStepsByTest isoTime isoCompare hookMarker sameTitle t0 = inr [tA; tB; tC]
    /\ test_path tA = ["login"; "works"]
    /\ test_path tB = ["login"; "works"]
    /\ test_path tC = ["checkout"; "works"]
    /\ map step_id (test_steps tA) = ["a"]
    /\ test_steps tC = [].
Proof. do 3 eexists. vm_compute. repeat split; reflexivity. Qed.

(** C8 at its failing input: two tests of different suites share the title
    "works", each with its own "test:start".  The Test of an event is looked
    up by title alone, so the command and the "test:end" of "checkout" land
    in the Test of "login", which gets both steps and the duration of the
    other test, while the Test of "checkout" stays empty and without a
    duration. *)
Example shared_title_steps_land_in_first_test :
  exists tA tB,
    groupStepsByTest isoTime isoCompare hookMarker sharedTitle t0 = inr [tA; tB]
    /\ test_path tA = ["login"; "works"]
    /\ test_path tB = ["checkout"; "works"]
    /\ map step_id (test_steps tA) = ["a"; "b"]
    /\ test_duration tA = Some 40
    /\ test_steps tB = []
    /\ test_duration tB = None.
Proof. do 2 eexists. vm_compute. repeat split; reflexivity. Qed.

(** C2 at its failing input: a "test:end" stamped before its "test:start"
    yields a negative Test duration. *)
Example skewed_test_duration_negative :
  groupStepsByTest isoTime isoCompare hookMarker skewedTest (t0 + 10)
  = inr [ {| test_title := "works"; test_path := ["suite"; "works"];
             test_result := "passed"; test_relativePath := "spec.cy.ts";
             test_relativeStartTime := 10; test_steps := [];
             test_duration := Some (-10) |} ].
Proof. vm_compute. reflexivity. Qed.

Lemma retry_exhaustion_witness :
  snd (retry (T := unit) (fun k => inl k) (fun _ => linearBackoff 0) true)
  = Some (inl (Rethrown 5%nat))
  /\ invocations (fst (retry (T := unit) (fun k => inl k) (fun _ => linearBackoff 0) true))
     = [1; 2; 3; 4; 5]%nat
  /\ failuresObserved
       (fst (retry (T := unit) (fun k => inl k) (fun _ => linearBackoff 0) true))
     = [1; 2; 3; 4; 5]%nat
  /\ waits (fst (retry (T := unit) (fun k => inl k) (fun _ => linearBackoff 0) true))
     = map (fun _ => linearBackoff 0) [1; 2; 3; 4]%nat.
Proof.
  apply (retry_exhaustion (T := unit) (fun k => inl k) (fun _ => linearBackoff 0)
           true (fun k => k)).
  intros k. reflexivity.
Defined.

Lemma geometric_backoff_witness :
  (forall n : nat, (n <= 46)%nat ->
      geometricBackoff (Z.of_nat n) (1 # 2)
      = binary64 (100 * 2 ^ Z.of_nat n + jitter (1 # 2))
      /\ (0 <= jitter (1 # 2))%Q /\ (jitter (1 # 2) < 100)%Q
      /\ (100 * 2 ^ Z.of_nat n <= geometricBackoff (Z.of_nat n) (1 # 2))%Q
      /\ (geometricBackoff (Z.of_nat n) (1 # 2) <= 100 * 2 ^ Z.of_nat n + 100)%Q)
  /\ (geometricBackoff 1 (4503599627370495 # 4503599627370496) == 300)%Q
  /\ waits (fst (exponentialBackoffRetry (T := unit) (fun k => inl k)
                   (fun _ => 1 # 2) true))
     = map (fun n => geometricBackoff (Z.of_nat n) (1 # 2)) [1; 2; 3; 4]%nat.
Proof.
  apply (geometric_backoff_delay (T := unit) (fun k => inl k) (fun _ => 1 # 2) true
           (fun k => k)).
  - intros k. reflexivity.
  - intros k. split; vm_compute; congruence.
Defined.

(** The wait between the first and the second attempt is at least 200 ms:
    it is not [100 * 2^0] plus a jitter below 100. *)
Lemma geometric_first_delay_not_base :
  waits (fst (exponentialBackoffRetry (T := unit) (fun k => inl k) (fun _ => 0%Q) true))
  = [geometricBackoff 1 0; geometricBackoff 2 0; geometricBackoff 3 0;
     geometricBackoff 4 0]
  /\ (geometricBackoff 1 0 == 200)%Q
  /\ ~ exists j : Q,
        (0 <= j)%Q /\ (j < 100)%Q
        /\ (geometricBackoff 1 0 == 100 * 2 ^ (1 - 1) + j)%Q.
Proof.
  assert (H200 : (geometricBackoff 1 0 == 200)%Q) by (vm_compute; reflexivity).
  split; [reflexivity|]. split; [exact H200|].
  intros [j [H0 [H1 H]]].
  rewrite H200 in H. simpl in H. lra.
Qed.

(** A complete run: launch, wait, settle, launch, leave the loop, settle,
    return. *)
Lemma twoTasks_run : dreach tenfold twoTasks oneHalf twoTasksReturned.
Proof.
  pose (s1 := {| pc := Looping; activePromises := [0%nat]; results := []; taskIndex := 1 |} : Dispatch unit Z).
  pose (s2 := {| pc := Racing; activePromises := [0%nat]; results := []; taskIndex := 1 |} : Dispatch unit Z).
  pose (s3 := {| pc := Looping; activePromises := []; results := [Some 30]; taskIndex := 1 |} : Dispatch unit Z).
  pose (s4 := {| pc := Looping; activePromises := [1%nat]; results := [Some 30]; taskIndex := 2 |} : Dispatch unit Z).
  pose (s5 := {| pc := Joining; activePromises := [1%nat]; results := [Some 30]; taskIndex := 2 |} : Dispatch unit Z).
  pose (s6 := {| pc := Joining; activePromises := []; results := [Some 30; Some 40]; taskIndex := 2 |} : Dispatch unit Z).
  assert (R1 : dreach tenfold twoTasks oneHalf s1).
  { apply (dreach_step tenfold twoTasks oneHalf dispatchStart); [apply dreach_start|].
    apply (Launch tenfold twoTasks oneHalf dispatchStart);
      [reflexivity | simpl; lia | reflexivity]. }
  assert (R2 : dreach tenfold twoTasks oneHalf s2).
  { apply (dreach_step tenfold twoTasks oneHalf s1); [exact R1|].
    apply (AwaitRace tenfold twoTasks oneHalf s1); [reflexivity | simpl; lia | reflexivity]. }
  assert (R3 : dreach tenfold twoTasks oneHalf s3).
  { apply (dreach_step tenfold twoTasks oneHalf s2); [exact R2|].
    apply (Settle tenfold twoTasks oneHalf s2 0%nat 3 30 Looping);
      [simpl; auto | reflexivity | reflexivity | reflexivity]. }
  assert (R4 : dreach tenfold twoTasks oneHalf s4).
  { apply (dreach_step tenfold twoTasks oneHalf s3); [exact R3|].
    apply (Launch tenfold twoTasks oneHalf s3); [reflexivity | simpl; lia | reflexivity]. }
  assert (R5 : dreach tenfold twoTasks oneHalf s5).
  { apply (dreach_step tenfold twoTasks oneHalf s4); [exact R4|].
    apply (ExitLoop tenfold twoTasks oneHalf s4); [reflexivity | simpl; lia]. }
  assert (R6 : dreach tenfold twoTasks oneHalf s6).
  { apply (dreach_step tenfold twoTasks oneHalf s5); [exact R5|].
    apply (Settle tenfold twoTasks oneHalf s5 1%nat 4 40 Joining);
      [simpl; auto | reflexivity | reflexivity | reflexivity]. }
  apply (dreach_step tenfold twoTasks oneHalf s6); [exact R6|].
  apply (Return tenfold twoTasks oneHalf s6); reflexivity.
Qed.

Lemma dispatch_preserves_order_witness :
  (length [Some 30; Some 40] = length twoTasks
   /\ forall i, (i < length twoTasks)%nat
                -> [Some 30; Some 40] !! i = Some (Some (tenfoldResult i)))
  /\ ((exists out, pc (dispatchStart (Err := unit) (Result := Z)) = Returned out)
      \/ exists s', dstep tenfold twoTasks oneHalf dispatchStart s'
                    /\ (remainingWork twoTasks s'
                        < remainingWork twoTasks
                            (dispatchStart (Err := unit) (Result := Z)))%nat).
Proof.
  destruct (dispatch_preserves_order tenfold twoTasks oneHalf tenfoldResult)
    as (Horder & Hreturns & _).
  - intros i t Ht. unfold tenfold, tenfoldResult. now rewrite Ht.
  - split.
    + exact (Horder twoTasksReturned [Some 30; Some 40] twoTasks_run eq_refl).
    + apply Hreturns; [reflexivity | apply dreach_start].
Defined.

(** With a limit of zero the first [await Promise.race(activePromises)]
    waits on an empty array: the call never returns, although its one task
    would succeed. *)
Lemma dispatch_never_returns_with_limit_zero :
  (forall i t, [3] !! i = Some t -> tenfold t i = inr (t * 10))
  /\ ~ exists s out, dreach tenfold [3] (Finite 0) s /\ pc s = Returned out.
Proof.
  split; [intros i t _; reflexivity|].
  intros (s & out & Hreach & Hp).
  destruct (dispatch_stuck tenfold [3] (Finite 0) s eq_refl ltac:(discriminate) Hreach)
    as (_ & _ & _ & [Hpc|Hpc]); congruence.
Qed.

(** * Further properties *)

(** ** The aggregation pass *)

Section AggregatorPass.

Variable toTime : string -> Z.
Variable AFTER_EACH_HOOK : string.

(** What one iteration can do to the tests, the step store, the stack and
    the skipped list: leave them alone, record a skip, create a step, end a
    step, or end a test. *)
Lemma processEvent_cases first st ev st' :
  processEvent toTime AFTER_EACH_HOOK first st ev = inr st' ->
  exists cur,
    testForStep (tests st) ev = Some cur /\
    ((event ev <> StepStart /\ event ev <> TestEnd
      /\ tests st' = tests st /\ store st' = store st
      /\ stepStack st' = stepStack st /\ skippedStepIds st' = skippedStepIds st)
     \/ (event ev = StepStart
         /\ shouldSkipStep ev (skippedStepIds st) = true
         /\ tests st' = tests st /\ store st' = store st
         /\ stepStack st' = stepStack st
         /\ skippedStepIds st'
            = pushIfTruthy (command ev ≫= cmd_groupId)
                (pushIfTruthy (option_map cmd_id (command ev)) (skippedStepIds st)))
     \/ (event ev = StepStart
         /\ shouldSkipStep ev (skippedStepIds st) = false
         /\ exists c t s store1,
             command ev = Some c /\ tests st !! cur = Some t
             /\ (store1 = store st
                 \/ exists r0, store1 = alter (pushAssertId (cmd_id c)) r0 (store st))
             /\ step_id s = cmd_id c
             /\ step_name s = cmd_name c
             /\ step_args s = map simplifyArg (cmd_args c)
             /\ step_relativeStartTime s
                = toRelativeTime toTime (timestamp ev) first - test_relativeStartTime t
             /\ step_duration s = None /\ step_error s = None
             /\ step_assertIds s = None
             /\ tests st' = alter (pushStep (length (store st))) cur (tests st)
             /\ store st' = store1 ++ [s]
             /\ stepStack st' = stepStack st ++ [(ev, length (store st))]
             /\ skippedStepIds st' = skippedStepIds st)
     \/ (event ev = StepEnd
         /\ exists c e0 r t,
             command ev = Some c /\ findLastStep st ev c = Some (e0, r)
             /\ isAfterEach AFTER_EACH_HOOK ev = false
             /\ tests st !! cur = Some t
             /\ store st'
                = alter (endStep (String.eqb (cmd_name c) "assert") (cmd_args c)
                           (toRelativeTime toTime (timestamp ev) first
                            - test_relativeStartTime t)
                           (error ev))
                    r (store st)
             /\ tests st' = tests st /\ stepStack st' = stepStack st
             /\ skippedStepIds st' = skippedStepIds st)
     \/ (event ev = TestEnd
         /\ exists t,
             tests st !! cur = Some t
             /\ tests st'
                = alter (setTestDuration
                           (toRelativeTime toTime (timestamp ev) first
                            - test_relativeStartTime t))
                    cur (tests st)
             /\ store st' = store st /\ stepStack st' = stepStack st
             /\ skippedStepIds st' = skippedStepIds st)).
Proof.
  intros H. apply processEvent_inr in H. destruct H as [cur [Hcur H]].
  exists cur. split; [exact Hcur|]. cbv zeta in H.
  destruct (enterTest_state_eq (Some cur) st) as [Ht [Hs [Hk Hsk]]].
  assert (Hfind : forall c, findLastStep (enterTest (Some cur) st) ev c
                            = findLastStep st ev c).
  { intros c. unfold findLastStep. now rewrite Hs, Hk. }
  remember (enterTest (Some cur) st) as st1 eqn:E. clear E.
  destruct (event ev) eqn:Hev.
  - left. subst st'. repeat split; auto; discriminate.
  - unfold onStepStart in H.
    destruct (shouldSkipStep ev (skippedStepIds st1)) eqn:Hskip.
    + right; left. inversion H; subst; clear H.
      unfold setSkipped; cbn [tests store stepStack skippedStepIds].
      rewrite <- Hsk. auto 7.
    + right; right; left.
      destruct (command ev) as [c|] eqn:Hc; [|discriminate].
      destruct (tests st1 !! cur) as [t|] eqn:Htc; [|discriminate].
      inversion H; subst; clear H. cbn [tests store stepStack skippedStepIds].
      rewrite Hsk in Hskip. rewrite Ht in Htc. rewrite ?Ht, ?Hs, ?Hk, ?Hsk.
      split; [reflexivity|]. split; [exact Hskip|].
      match goal with
      | |- context [?m ++ [_]] => remember m as store1 eqn:E1
      end.
      assert (Hshape : (store1 = store st
                        \/ exists r0, store1 = alter (pushAssertId (cmd_id c)) r0 (store st))
                       /\ length store1 = length (store st)).
      { subst store1.
        destruct (cmd_commandId c) as [cid|]; [|auto].
        destruct (truthy cid); [|auto].
        destruct (findFirst _ _) as [r0|]; [|auto].
        split; [right; eauto | apply length_alter]. }
      destruct Hshape as [Hshape Hlen]. rewrite Hlen.
      eexists c, t, _, store1.
      split; [reflexivity|]. split; [exact Htc|]. split; [exact Hshape|].
      cbn. repeat split; reflexivity.
  - unfold onStepEnd in H. destruct (command ev) as [c|] eqn:Hc; [|discriminate].
    cbv zeta in H. rewrite Hfind in H.
    destruct (isNone (findLastStep st ev c) && _).
    { left. inversion H; subst. repeat split; auto; discriminate. }
    destruct (isAfterEach AFTER_EACH_HOOK ev) eqn:Hgate.
    { left. inversion H; subst. repeat split; auto; discriminate. }
    destruct (assertMatchingStep _ _); [discriminate|].
    destruct (findLastStep st ev c) as [[e0 r]|] eqn:Hlast; [|discriminate].
    destruct (tests st1 !! cur) as [t|] eqn:Htc; [|discriminate].
    inversion H; subst; clear H. right; right; right; left.
    split; [reflexivity|]. exists c, e0, r, t.
    unfold setStore; cbn [tests store stepStack skippedStepIds].
    rewrite <- Ht, <- Hs. auto 10.
  - left. subst st'. repeat split; auto; discriminate.
  - unfold onTestEnd in H. destruct (tests st1 !! cur) as [t|] eqn:Htc; [|discriminate].
    inversion H; subst; clear H. right; right; right; right.
    split; [reflexivity|]. exists t.
    unfold setTests; cbn [tests store stepStack skippedStepIds].
    rewrite <- Ht. auto 10.
Qed.

Lemma sameStepIdentity_refl (s : TestStep) : sameStepIdentity s s.
Proof. unfold sameStepIdentity. auto 10. Qed.

Lemma sameStepIdentity_trans (s1 s2 s3 : TestStep) :
  sameStepIdentity s1 s2 -> sameStepIdentity s2 s3 -> sameStepIdentity s1 s3.
Proof.
  unfold sameStepIdentity. intros (A1 & A2 & A3 & A4 & A5 & A6 & A7)
                                  (B1 & B2 & B3 & B4 & B5 & B6 & B7).
  repeat split; congruence.
Qed.

Lemma alter_keeps_identity (f : TestStep -> TestStep) (h : list TestStep)
    (k r : nat) (s : TestStep) :
  (forall x, sameStepIdentity x (f x)) ->
  h !! r = Some s ->
  exists s', alter f k h !! r = Some s' /\ sameStepIdentity s s'.
Proof.
  intros Hf Hr. destruct (Nat.eq_dec k r) as [->|Hne].
  - exists (f s). rewrite list_lookup_alter_eq, Hr. split; [reflexivity|apply Hf].
  - exists s. rewrite list_lookup_alter_ne by assumption.
    split; [assumption|apply sameStepIdentity_refl].
Qed.

Lemma pushAssertId_identity (i : string) (s : TestStep) :
  sameStepIdentity s (pushAssertId i s).
Proof. unfold sameStepIdentity. simpl. auto 10. Qed.

Lemma endStep_identity isAssert endArgs rel err (s : TestStep) :
  sameStepIdentity s (endStep isAssert endArgs rel err s).
Proof. unfold sameStepIdentity. simpl. auto 10. Qed.

(** One iteration removes no step, re-identifies none, and pops nothing off
    the stack. *)
Lemma processEvent_frame first st ev st' :
  processEvent toTime AFTER_EACH_HOOK first st ev = inr st' ->
  (forall r s, store st !! r = Some s ->
               exists s', store st' !! r = Some s' /\ sameStepIdentity s s')
  /\ (exists pushed, stepStack st' = stepStack st ++ pushed)
  /\ (forall e r, In (e, r) (stepStack st') ->
                  In (e, r) (stepStack st)
                  \/ (r = length (store st) /\ e = ev
                      /\ exists c s, command ev = Some c
                                     /\ store st' !! r = Some s
                                     /\ step_id s = cmd_id c)).
Proof.
  intros H. destruct (processEvent_cases _ _ _ _ H) as [cur [_ Hcases]].
  assert (Hsame : store st' = store st -> stepStack st' = stepStack st ->
          (forall r s, store st !! r = Some s ->
                       exists s', store st' !! r = Some s' /\ sameStepIdentity s s')
          /\ (exists pushed, stepStack st' = stepStack st ++ pushed)
          /\ (forall e r, In (e, r) (stepStack st') ->
                  In (e, r) (stepStack st)
                  \/ (r = length (store st) /\ e = ev
                      /\ exists c s, command ev = Some c
                                     /\ store st' !! r = Some s
                                     /\ step_id s = cmd_id c))).
  { intros Hs Hk. rewrite Hs, Hk. repeat split.
    - intros r s Hr. exists s. split; [assumption|apply sameStepIdentity_refl].
    - exists []. now rewrite app_nil_r.
    - intros e r Hin. now left. }
  destruct Hcases as [(_ & _ & _ & Hs & Hk & _)
                     |[(_ & _ & _ & Hs & Hk & _)
                     |[(_ & _ & c & t & s & store1 & Hc & _ & Hshape & Hid & _ & _ & _
                        & _ & _ & _ & _ & Hs & Hk & _)
                     |[(_ & c & e0 & r0 & t & _ & _ & _ & _ & Hs & _ & Hk & _)
                     |(_ & t & _ & _ & Hs & Hk & _)]]]]; auto.
  - (* a step was created *)
    assert (Hold : forall r x, store st !! r = Some x ->
                     exists x', store1 !! r = Some x' /\ sameStepIdentity x x').
    { intros r x Hr. destruct Hshape as [->|[r0 ->]].
      - exists x. split; [assumption|apply sameStepIdentity_refl].
      - apply alter_keeps_identity; [apply pushAssertId_identity|assumption]. }
    assert (Hlen : length store1 = length (store st)).
    { destruct Hshape as [->|[r0 ->]]; [reflexivity|apply length_alter]. }
    rewrite Hs, Hk. repeat split.
    + intros r x Hr. destruct (Hold r x Hr) as [x' [Hx' Hident]].
      exists x'. split; [now apply lookup_app_l_Some|assumption].
    + eauto.
    + intros e r Hin. apply in_app_or in Hin.
      destruct Hin as [Hin|[Heq|[]]]; [now left|].
      inversion Heq; subst. right. repeat split; try reflexivity.
      exists c, s. split; [assumption|]. split; [|assumption].
      rewrite <- Hlen. now apply list_lookup_middle.
  - (* a step was ended *)
    rewrite Hs, Hk. repeat split.
    + intros r x Hr. apply alter_keeps_identity; [apply endStep_identity|assumption].
    + exists []. now rewrite app_nil_r.
    + intros e r Hin. now left.
Qed.

Lemma processEvents_frame first evs : forall st st',
  processEvents toTime AFTER_EACH_HOOK first st evs = inr st' ->
  (forall r s, store st !! r = Some s ->
               exists s', store st' !! r = Some s' /\ sameStepIdentity s s')
  /\ (exists pushed, stepStack st' = stepStack st ++ pushed).
Proof.
  induction evs as [|e evs IH]; intros st st' H; simpl in H.
  - inversion H; subst. split.
    + intros r s Hr. exists s. split; [assumption|apply sameStepIdentity_refl].
    + exists []. now rewrite app_nil_r.
  - destruct (processEvent toTime AFTER_EACH_HOOK first st e) as [err|st1] eqn:He;
      [discriminate|].
    destruct (processEvent_frame _ _ _ _ He) as (Hs1 & [p1 Hk1] & _).
    destruct (IH _ _ H) as (Hs2 & [p2 Hk2]).
    split.
    + intros r s Hr. destruct (Hs1 r s Hr) as [s1 [Hr1 Hi1]].
      destruct (Hs2 r s1 Hr1) as [s2 [Hr2 Hi2]].
      exists s2. split; [assumption|]. eapply sameStepIdentity_trans; eauto.
    + exists (p1 ++ p2). rewrite Hk2, Hk1. now rewrite app_assoc.
Qed.

(** X9. Along a pass no step is removed and no step changes its id,
    parentId, name, commandId, category, hook or relativeStartTime, whatever
    the events; and the stack of in-progress steps only grows: an ended step
    is never popped. *)
Theorem pass_keeps_steps_and_stack (first : Z) (st st' : AggState)
    (evs : list StepEvent) :
  processEvents toTime AFTER_EACH_HOOK first st evs = inr st' ->
  (forall r s, store st !! r = Some s ->
               exists s', store st' !! r = Some s' /\ sameStepIdentity s s')
  /\ (exists pushed, stepStack st' = stepStack st ++ pushed).
Proof. apply processEvents_frame. Qed.

(** *** In-progress steps and their ends *)

Lemma stackConsistent_step first st ev st' :
  stackConsistent st ->
  processEvent toTime AFTER_EACH_HOOK first st ev = inr st' ->
  stackConsistent st'.
Proof.
  intros Hinv H e r Hin.
  destruct (processEvent_frame _ _ _ _ H) as (Hstore & _ & Hstack).
  destruct (Hstack e r Hin) as [Hold | (_ & -> & c & s & Hc & Hs & Hid)].
  - destruct (Hinv e r Hold) as (c & s & Hc & Hs & Hid).
    destruct (Hstore r s Hs) as (s' & Hs' & Hident).
    exists c, s'. repeat split; try assumption.
    destruct Hident as (Hid' & _). congruence.
  - exists c, s. auto.
Qed.

Lemma stackConsistent_run first evs : forall st st',
  stackConsistent st ->
  processEvents toTime AFTER_EACH_HOOK first st evs = inr st' ->
  stackConsistent st'.
Proof.
  intros st st' Hinv H.
  refine (processEvents_invariant toTime AFTER_EACH_HOOK stackConsistent first
            _ evs st st' Hinv H).
  intros s ev s' Hs Hstep. eapply stackConsistent_step; eauto.
Qed.

Lemma testForStep_lookup (ts : list (Test StepRef)) (ev : StepEvent) (cur : nat) :
  testForStep ts ev = Some cur -> exists t, ts !! cur = Some t.
Proof.
  unfold testForStep. destruct (last (test ev)) as [s|]; [|discriminate].
  intros H. apply findIndex_Some in H. destruct H as [t [Ht _]]. eauto.
Qed.

Lemma findLastStep_Some st ev c e0 r :
  findLastStep st ev c = Some (e0, r) ->
  In (e0, r) (stepStack st)
  /\ (exists s, store st !! r = Some s /\ step_id s = cmd_id c)
  /\ toString (test e0) = toString (test ev).
Proof.
  unfold findLastStep. intros H. apply findFirst_Some in H.
  destruct H as [Hin Hp]. simpl in Hp.
  apply andb_prop in Hp. destruct Hp as [Hid Hpath].
  split; [assumption|]. split.
  - unfold stepIdIs in Hid. destruct (store st !! r) as [s|]; [|discriminate].
    exists s. split; [reflexivity|]. now apply String.eqb_eq.
  - now apply String.eqb_eq.
Qed.

(** What a "step:end" does once its step is found and the after-each gate
    is passed. *)
Lemma processEvent_end_found first st ev st' c e0 r :
  event ev = StepEnd -> command ev = Some c ->
  findLastStep st ev c = Some (e0, r) ->
  isAfterEach AFTER_EACH_HOOK ev = false ->
  processEvent toTime AFTER_EACH_HOOK first st ev = inr st' ->
  exists cur t,
    testForStep (tests st) ev = Some cur /\ tests st !! cur = Some t
    /\ store st'
       = alter (endStep (String.eqb (cmd_name c) "assert") (cmd_args c)
                  (toRelativeTime toTime (timestamp ev) first - test_relativeStartTime t)
                  (error ev))
           r (store st)
    /\ tests st' = tests st /\ stepStack st' = stepStack st.
Proof.
  intros Hev Hc Hlast Hgate H.
  apply processEvent_inr in H. destruct H as [cur [Hcur H]].
  cbv zeta in H. rewrite Hev in H.
  destruct (enterTest_state_eq (Some cur) st) as [Ht [Hs [Hk Hsk]]].
  assert (Hlast' : findLastStep (enterTest (Some cur) st) ev c = Some (e0, r)).
  { unfold findLastStep in *. now rewrite Hs, Hk. }
  remember (enterTest (Some cur) st) as st1 eqn:E. clear E.
  unfold onStepEnd in H. rewrite Hc in H. cbv zeta in H.
  rewrite Hlast', Hgate in H. simpl isNone in H. simpl andb in H. cbv iota in H.
  destruct (assertMatchingStep _ _); [discriminate|].
  destruct (tests st1 !! cur) as [t|] eqn:Htc; [|discriminate].
  inversion H; subst; clear H. exists cur, t.
  unfold setStore; cbn [tests store stepStack].
  rewrite Ht in Htc. rewrite ?Ht, ?Hs, ?Hk. repeat split; auto.
Qed.

(** X3. On any state a pass reaches from one with an empty stack, a
    "step:end" event that carries a command, belongs to a known test and
    finds its step in progress is processed without an error: the
    mismatched-step error is only ever thrown for a step that is not found. *)
Theorem matched_step_end_succeeds (first : Z) (st0 st : AggState)
    (earlier : list StepEvent) (ev e0 : StepEvent) (c : Command) (cur r : nat) :
  stepStack st0 = [] ->
  processEvents toTime AFTER_EACH_HOOK first st0 earlier = inr st ->
  event ev = StepEnd ->
  command ev = Some c ->
  testForStep (tests st) ev = Some cur ->
  findLastStep st ev c = Some (e0, r) ->
  exists st', processEvent toTime AFTER_EACH_HOOK first st ev = inr st'.
Proof.
  intros Hempty Hrun Hev Hc Hcur Hlast.
  assert (Hinv : stackConsistent st).
  { apply (stackConsistent_run first earlier st0 st); [|assumption].
    intros e k Hin. rewrite Hempty in Hin. destruct Hin. }
  destruct (findLastStep_Some _ _ _ _ _ Hlast) as (Hin & (s & Hs & Hid) & _).
  destruct (Hinv e0 r Hin) as (c0 & s0 & Hc0 & Hs0 & Hid0).
  destruct (testForStep_lookup _ _ _ Hcur) as [t Ht].
  destruct (enterTest_state_eq (Some cur) st) as [Hte [Hse [Hke Hske]]].
  unfold processEvent. rewrite Hcur, Hev. simpl assertCurrentTest. cbv iota beta zeta.
  unfold onStepEnd. rewrite Hc. cbv zeta.
  replace (findLastStep (enterTest (Some cur) st) ev c) with (Some (e0, r))
    by (unfold findLastStep in *; now rewrite Hse, Hke).
  simpl isNone. simpl andb. cbv iota.
  destruct (isAfterEach AFTER_EACH_HOOK ev); [eauto|].
  simpl option_map. unfold assertMatchingStep. rewrite Hc, Hc0.
  assert (Heq : String.eqb (cmd_id c) (cmd_id c0) = true).
  { apply String.eqb_eq. congruence. }
  rewrite Heq, Hte, Ht. eauto.
Qed.

Lemma findFirst_ext {A : Type} (p q : A -> bool) (l : list A) :
  (forall x, In x l -> p x = q x) -> findFirst p l = findFirst q l.
Proof.
  induction l as [|a l IH]; intros H; simpl; [reflexivity|].
  rewrite (H a (or_introl eq_refl)). destruct (q a); [reflexivity|].
  apply IH. intros x Hx. apply H. now right.
Qed.

Lemma stepIdIs_alter (f : TestStep -> TestStep) (h : list TestStep) (k : nat)
    (i : string) (r : nat) :
  (forall x, step_id (f x) = step_id x) ->
  stepIdIs (alter f k h) i r = stepIdIs h i r.
Proof.
  intros Hf. unfold stepIdIs. destruct (Nat.eq_dec k r) as [->|Hne].
  - rewrite list_lookup_alter_eq. destruct (h !! r) as [s|]; simpl; [|reflexivity].
    now rewrite Hf.
  - now rewrite list_lookup_alter_ne.
Qed.

(** The stack lookup looks at the stack, the ids in the store, the command
    id and the joined test path, and at nothing else. *)
Lemma findLastStep_ext st st' ev ev' c c' :
  stepStack st' = stepStack st ->
  (forall i r, stepIdIs (store st') i r = stepIdIs (store st) i r) ->
  cmd_id c' = cmd_id c ->
  toString (test ev') = toString (test ev) ->
  findLastStep st' ev' c' = findLastStep st ev c.
Proof.
  intros Hk Hids Hid Hpath. unfold findLastStep. rewrite Hk, Hid, Hpath.
  apply findFirst_ext. intros a _. now rewrite Hids.
Qed.

(** A "step:end" inside an after-each hook leaves every step and every
    test as it was. *)
Lemma processEvent_end_gated first st ev st' :
  event ev = StepEnd ->
  isAfterEach AFTER_EACH_HOOK ev = true ->
  processEvent toTime AFTER_EACH_HOOK first st ev = inr st' ->
  store st' = store st /\ tests st' = tests st.
Proof.
  intros Hev Hgate H.
  destruct (processEvent_cases _ _ _ _ H) as [cur [_ Hcases]].
  destruct Hcases as [(_ & _ & Ht & Hs & _)
                     |[(Hx & _)
                     |[(Hx & _)
                     |[(_ & c & e & k & t & _ & _ & Hg & _)
                     |(Hx & _)]]]]; try congruence.
  auto.
Qed.

(** X4. When two "step:end" events for the same command id and test path
    are processed one after the other, the second finds the same step
    again.  Outside an after-each hook its error and duration replace the
    first one's: the last end wins, so a successful retry clears an earlier
    error.  Inside an after-each hook the second end is dropped: every step
    and every test stays as the first end left it. *)
Theorem later_step_end_overwrites (first : Z) (st st1 st2 : AggState)
    (ev1 ev2 e0 : StepEvent) (c1 c2 : Command) (r : nat) :
  event ev1 = StepEnd -> command ev1 = Some c1 ->
  findLastStep st ev1 c1 = Some (e0, r) ->
  event ev2 = StepEnd -> command ev2 = Some c2 ->
  cmd_id c2 = cmd_id c1 ->
  toString (test ev2) = toString (test ev1) ->
  processEvent toTime AFTER_EACH_HOOK first st ev1 = inr st1 ->
  processEvent toTime AFTER_EACH_HOOK first st1 ev2 = inr st2 ->
  findLastStep st1 ev2 c2 = Some (e0, r)
  /\ (isAfterEach AFTER_EACH_HOOK ev2 = false ->
      exists s2 cur t,
        store st2 !! r = Some s2
        /\ testForStep (tests st) ev2 = Some cur /\ tests st !! cur = Some t
        /\ step_error s2 = error ev2
        /\ step_duration s2
           = Some (Z.max 0 (toRelativeTime toTime (timestamp ev2) first
                            - test_relativeStartTime t - step_relativeStartTime s2)))
  /\ (isAfterEach AFTER_EACH_HOOK ev2 = true ->
      store st2 = store st1 /\ tests st2 = tests st1).
Proof.
  intros Hev1 Hc1 Hlast Hev2 Hc2 Hid Hpath H1 H2.
  assert (Hst1 : tests st1 = tests st /\ stepStack st1 = stepStack st
                 /\ (forall i k, stepIdIs (store st1) i k = stepIdIs (store st) i k)).
  { destruct (processEvent_cases _ _ _ _ H1) as [cur1 [_ Hcases]].
    destruct Hcases as [(_ & _ & Ht & Hs & Hk & _)
                       |[(Hx & _)
                       |[(Hx & _)
                       |[(_ & c & e & k & t & _ & _ & _ & _ & Hs & Ht & Hk & _)
                       |(Hx & _)]]]]; try congruence.
    - rewrite Hs. auto.
    - rewrite Hs. repeat split; auto. intros i j. now apply stepIdIs_alter. }
  destruct Hst1 as (Ht1 & Hk1 & Hids1).
  assert (Hlast2 : findLastStep st1 ev2 c2 = Some (e0, r)).
  { rewrite <- Hlast. now apply findLastStep_ext. }
  split; [exact Hlast2|]. split.
  - intros Hgate.
    destruct (processEvent_end_found _ _ _ _ _ _ _ Hev2 Hc2 Hlast2 Hgate H2)
      as (cur & t & Hcur & Ht & Hstore & _ & _).
    destruct (findLastStep_Some _ _ _ _ _ Hlast2) as (_ & (s & Hs & _) & _).
    rewrite Ht1 in Hcur, Ht.
    eexists _, cur, t. rewrite Hstore, list_lookup_alter_eq, Hs. simpl.
    repeat split; auto.
  - intros Hgate. exact (processEvent_end_gated _ _ _ _ Hev2 Hgate H2).
Qed.

Lemma headers_lookup (ts ts' : list (Test StepRef)) (i : nat) (t : Test StepRef) :
  map testHeader ts = map testHeader ts' ->
  ts !! i = Some t ->
  exists t', ts' !! i = Some t' /\ testHeader t' = testHeader t.
Proof.
  intros Hh Ht.
  assert (H : (testHeader <$> ts') !! i = Some (testHeader t)).
  { change (testHeader <$> ts') with (map testHeader ts'). rewrite <- Hh.
    change (map testHeader ts) with (testHeader <$> ts).
    now rewrite list_lookup_fmap, Ht. }
  rewrite list_lookup_fmap in H. destruct (ts' !! i) as [t'|]; [|discriminate].
  exists t'. split; [reflexivity|]. simpl in H. congruence.
Qed.

(** X5. A step is created by a "step:start" and later a "step:end" that
    resolves to the same Test finds it.  Outside an after-each hook the
    step gets, as its duration, the difference of the two events' times
    clamped at zero: neither firstTimestamp nor the Test's own start time is
    left in it.  Inside an after-each hook the end is dropped and sets
    nothing: a step started and ended there, with no event in between, is
    left without a duration. *)
Theorem step_duration_is_end_minus_start (first : Z) (st st1 st2 st3 : AggState)
    (startEv endEv e0 : StepEvent) (between : list StepEvent) (c : Command) :
  event startEv = StepStart ->
  processEvent toTime AFTER_EACH_HOOK first st startEv = inr st1 ->
  length (store st1) = S (length (store st)) ->
  processEvents toTime AFTER_EACH_HOOK first st1 between = inr st2 ->
  event endEv = StepEnd -> command endEv = Some c ->
  findLastStep st2 endEv c = Some (e0, length (store st)) ->
  testForStep (tests st2) endEv = testForStep (tests st) startEv ->
  processEvent toTime AFTER_EACH_HOOK first st2 endEv = inr st3 ->
  (isAfterEach AFTER_EACH_HOOK endEv = false ->
   step_duration <$> store st3 !! length (store st)
   = Some (Some (Z.max 0 (toTime (timestamp endEv) - toTime (timestamp startEv)))))
  /\ (isAfterEach AFTER_EACH_HOOK endEv = true ->
      store st3 = store st2
      /\ (between = [] ->
          step_duration <$> store st3 !! length (store st) = Some None)).
Proof.
  intros Hs Hstart Hgrew Hrun He Hc Hlast Hsame Hend.
  (* the created step *)
  destruct (processEvent_cases _ _ _ _ Hstart) as [cur [Hcur Hcases]].
  assert (Hcreated : exists t s,
             tests st !! cur = Some t
             /\ store st1 !! length (store st) = Some s
             /\ step_relativeStartTime s
                = toRelativeTime toTime (timestamp startEv) first
                  - test_relativeStartTime t
             /\ step_duration s = None).
  { destruct Hcases as [(_ & _ & _ & Hx & _)
                       |[(_ & _ & _ & Hx & _)
                       |[(_ & _ & c1 & t & s & store1 & _ & Ht & Hshape & _ & _ & _ & Hrel
                          & Hdur & _ & _ & _ & Hst & _)
                       |[(_ & c1 & e1 & k & t & _ & _ & _ & _ & Hx & _)
                       |(_ & t & _ & _ & Hx & _)]]]];
      try (rewrite Hx in Hgrew; lia).
    - exists t, s. split; [assumption|]. split; [|split; assumption].
      rewrite Hst. apply list_lookup_middle.
      destruct Hshape as [->|[r0 ->]]; [reflexivity|now rewrite length_alter].
    - rewrite Hx, length_alter in Hgrew. lia. }
  destruct Hcreated as (t & s & Ht & Hs1 & Hrel & Hdur).
  split.
  - intros Hgate.
    (* it is still there, with the same start, when the end arrives *)
    destruct (processEvents_frame first between st1 st2 Hrun) as [Hkeep _].
    destruct (Hkeep _ _ Hs1) as (s2 & Hs2 & Hident).
    destruct Hident as (_ & _ & _ & _ & _ & _ & Hrel2).
    (* the test it is measured against has kept its start time *)
    destruct (processEvent_end_found _ _ _ _ _ _ _ He Hc Hlast Hgate Hend)
      as (cur2 & t2 & Hcur2 & Ht2 & Hstore & _ & _).
    assert (Hcur_eq : cur2 = cur) by congruence. subst cur2.
    assert (Hhdr : map testHeader (tests st) = map testHeader (tests st2)).
    { rewrite (processEvents_headers _ _ _ _ _ _ Hrun).
      now rewrite (processEvent_headers _ _ _ _ _ _ Hstart). }
    destruct (headers_lookup _ _ _ _ Hhdr Ht) as (t' & Ht' & Hh).
    rewrite Ht2 in Ht'. inversion Ht'; subst t'.
    assert (Hstart_eq : test_relativeStartTime t2 = test_relativeStartTime t)
      by (unfold testHeader in Hh; congruence).
    rewrite Hstore, list_lookup_alter_eq, Hs2. simpl.
    rewrite Hrel2, Hrel, Hstart_eq. unfold toRelativeTime.
    do 2 f_equal. f_equal. lia.
  - intros Hgate.
    destruct (processEvent_end_gated _ _ _ _ He Hgate Hend) as [Hstore _].
    split; [exact Hstore|].
    intros ->. simpl in Hrun. inversion Hrun; subst st2.
    rewrite Hstore, Hs1. simpl. now rewrite Hdur.
Qed.

(** *** Every step belongs to one test *)

Lemma attachedSteps_push (ts : list (Test StepRef)) (cur r : nat) (t : Test StepRef) :
  ts !! cur = Some t ->
  Permutation (attachedSteps (alter (pushStep r) cur ts)) (attachedSteps ts ++ [r]).
Proof.
  unfold attachedSteps. revert cur. induction ts as [|a ts IH]; intros [|cur] H;
    simpl in *; try discriminate.
  - rewrite <- !app_assoc. apply Permutation_app_head. apply Permutation_app_comm.
  - rewrite <- app_assoc. apply Permutation_app_head. now apply IH.
Qed.

Lemma omap_lookup_seq {A : Type} (h pre : list A) :
  omap (fun r => (pre ++ h) !! r) (seq (length pre) (length h)) = h.
Proof.
  revert pre. induction h as [|x h IH]; intros pre; simpl; [reflexivity|].
  rewrite list_lookup_middle by reflexivity. f_equal.
  specialize (IH (pre ++ [x])). rewrite <- app_assoc, length_app in IH. simpl in IH.
  rewrite Nat.add_1_r in IH. exact IH.
Qed.

Lemma resolved_steps (h : list TestStep) (ts : list (Test StepRef)) :
  concat (map test_steps (map (resolveTest h) ts))
  = omap (fun r => h !! r) (attachedSteps ts).
Proof.
  unfold attachedSteps. induction ts as [|t ts IH]; simpl; [reflexivity|].
  now rewrite omap_app, IH.
Qed.

Lemma attachedSteps_step first st ev st' :
  Permutation (attachedSteps (tests st)) (seq 0 (length (store st))) ->
  processEvent toTime AFTER_EACH_HOOK first st ev = inr st' ->
  Permutation (attachedSteps (tests st')) (seq 0 (length (store st'))).
Proof.
  intros Hinv H. destruct (processEvent_cases _ _ _ _ H) as [cur [_ Hcases]].
  destruct Hcases as [(_ & _ & Ht & Hs & _)
                     |[(_ & _ & Ht & Hs & _)
                     |[(_ & _ & c & t & s & store1 & _ & Htc & Hshape & _ & _ & _ & _
                        & _ & _ & _ & Ht & Hs & _)
                     |[(_ & c & e0 & r0 & t & _ & _ & _ & _ & Hs & Ht & _)
                     |(_ & t & _ & Ht & Hs & _)]]]].
  - now rewrite Ht, Hs.
  - now rewrite Ht, Hs.
  - rewrite Ht, Hs, length_app. simpl.
    assert (Hlen : length store1 = length (store st)).
    { destruct Hshape as [->|[r0 ->]]; [reflexivity|apply length_alter]. }
    rewrite Hlen, Nat.add_1_r, seq_S. simpl.
    rewrite (attachedSteps_push _ _ _ _ Htc). now apply Permutation_app_tail.
  - now rewrite Ht, Hs, length_alter.
  - rewrite Ht, Hs. unfold attachedSteps.
    rewrite (map_alter_same test_steps); [assumption|reflexivity].
Qed.

(** X6. At every point of a pass the step references held by the tests are,
    up to order, exactly the references of the steps created so far: every
    step is attached to one and only one Test, so the Tests returned hold
    each created step exactly once. *)
Theorem every_step_in_exactly_one_test (first : Z) (sorted evs : list StepEvent)
    (st : AggState) :
  processEvents toTime AFTER_EACH_HOOK first (initialState toTime first sorted) evs
  = inr st ->
  Permutation (attachedSteps (tests st)) (seq 0 (length (store st)))
  /\ Permutation
       (concat (map test_steps (map (resolveTest (store st)) (tests st))))
       (store st).
Proof.
  intros Hrun.
  assert (Hinv : Permutation (attachedSteps (tests st)) (seq 0 (length (store st)))).
  { refine (processEvents_invariant toTime AFTER_EACH_HOOK
              (fun s => Permutation (attachedSteps (tests s)) (seq 0 (length (store s))))
              first _ evs _ st _ Hrun).
    - intros s ev s' Hs Hstep. eapply attachedSteps_step; eauto.
    - unfold initialState, attachedSteps. cbn [tests store length seq].
      induction (filter isTestStart sorted) as [|e l IH]; simpl; [constructor|exact IH]. }
  split; [exact Hinv|].
  rewrite resolved_steps, Hinv.
  pose proof (omap_lookup_seq (store st) []) as Hall. simpl in Hall.
  now rewrite Hall.
Qed.

(** *** Skipped steps *)

Lemma processEvent_end_ignored first st ev c cur :
  event ev = StepEnd -> command ev = Some c ->
  testForStep (tests st) ev = Some cur ->
  findLastStep st ev c = None ->
  In (cmd_id c) (skippedStepIds st) ->
  processEvent toTime AFTER_EACH_HOOK first st ev = inr (enterTest (Some cur) st).
Proof.
  intros Hev Hc Hcur Hlast Hin.
  destruct (enterTest_state_eq (Some cur) st) as [Ht [Hs [Hk Hsk]]].
  unfold processEvent. rewrite Hcur, Hev. simpl assertCurrentTest. cbv iota beta zeta.
  unfold onStepEnd. rewrite Hc. cbv zeta.
  replace (findLastStep (enterTest (Some cur) st) ev c) with (@None StepStackItem)
    by (unfold findLastStep in *; now rewrite Hs, Hk).
  rewrite Hsk. apply includes_In in Hin. now rewrite Hin.
Qed.

Lemma pushIfTruthy_In (x : option string) (l : list string) (s : string) :
  In s l -> In s (pushIfTruthy x l).
Proof.
  intros H. destruct (pushIfTruthy_extends x l) as [extra ->].
  apply in_or_app. now left.
Qed.

(** X7. When a "step:start" is skipped and its command has a non-empty id,
    a later "step:end" for that id which finds no step in progress is
    ignored, whatever happens in between and also outside an after-each
    hook: skipping a step never makes its end a mismatched-step error. *)
Theorem skipped_step_end_is_ignored (first : Z) (st st1 st2 : AggState)
    (startEv endEv : StepEvent) (between : list StepEvent) (c c' : Command)
    (cur : nat) :
  event startEv = StepStart -> command startEv = Some c -> cmd_id c <> "" ->
  shouldSkipStep startEv (skippedStepIds st) = true ->
  processEvent toTime AFTER_EACH_HOOK first st startEv = inr st1 ->
  processEvents toTime AFTER_EACH_HOOK first st1 between = inr st2 ->
  event endEv = StepEnd -> command endEv = Some c' -> cmd_id c' = cmd_id c ->
  testForStep (tests st2) endEv = Some cur ->
  findLastStep st2 endEv c' = None ->
  processEvent toTime AFTER_EACH_HOOK first st2 endEv = inr (enterTest (Some cur) st2).
Proof.
  intros Hs Hc Hid Hskip Hstart Hrun He Hc' Hsame Hcur Hlast.
  apply (processEvent_end_ignored first st2 endEv c' cur); auto.
  rewrite Hsame.
  destruct (processEvents_skipped _ _ _ _ _ _ Hrun) as [extra ->].
  apply in_or_app. left.
  destruct (processEvent_cases _ _ _ _ Hstart) as [cur1 [_ Hcases]].
  destruct Hcases as [(Hx & _)
                     |[(_ & _ & _ & _ & _ & Hsk)
                     |[(_ & Hx & _)
                     |[(Hx & _)
                     |(Hx & _)]]]]; try congruence.
  rewrite Hsk, Hc. simpl. apply pushIfTruthy_In.
  unfold truthy. destruct (String.eqb (cmd_id c) "") eqn:E.
  - apply String.eqb_eq in E. contradiction.
  - simpl. apply in_or_app. right. now left.
Qed.

(** *** What the call returns *)

Lemma processEvent_results first st ev st' :
  Forall (fun t => test_result t = "passed") (tests st) ->
  processEvent toTime AFTER_EACH_HOOK first st ev = inr st' ->
  Forall (fun t => test_result t = "passed") (tests st').
Proof.
  intros Hinv H. destruct (processEvent_cases _ _ _ _ H) as [cur [_ Hcases]].
  destruct Hcases as [(_ & _ & Ht & _)
                     |[(_ & _ & Ht & _)
                     |[(_ & _ & c & t & s & store1 & _ & _ & _ & _ & _ & _ & _
                        & _ & _ & _ & Ht & _)
                     |[(_ & c & e0 & r0 & t & _ & _ & _ & _ & _ & Ht & _)
                     |(_ & t & _ & Ht & _)]]]]; rewrite Ht; try assumption.
  - apply Forall_alter; [assumption|]. now intros x _ Hx.
  - apply Forall_alter; [assumption|]. now intros x _ Hx.
Qed.

(** X2. When the call returns, it returns one Test per "test:start" event of
    the input, in timestamp order, each with the event's path, the title
    taken from the path (or the file), the start time relative to
    firstTimestamp and the result "passed": other events add no Test and
    change none of these fields. *)
Theorem returned_tests_follow_test_starts
    (localeCompare : string -> string -> comparison) (steps : list StepEvent)
    (first : Z) (out : list (Test TestStep)) :
  groupStepsByTest toTime localeCompare AFTER_EACH_HOOK steps first = inr out ->
  map testHeader out
  = map (seedHeader toTime first) (filter isTestStart (sortSteps localeCompare steps))
  /\ Forall (fun t => test_result t = "passed") out
  /\ length out = length (filter isTestStart steps).
Proof.
  unfold groupStepsByTest. destruct steps as [|e0 rest].
  { intros H; inversion H; subst. repeat split; constructor. }
  set (steps := e0 :: rest).
  destruct (processEvents _ _ _ _ _) as [err|st] eqn:Hrun; [discriminate|].
  intros H; inversion H; subst out; clear H.
  assert (Hhdr : map testHeader (map (resolveTest (store st)) (tests st))
                 = map (seedHeader toTime first)
                     (filter isTestStart (sortSteps localeCompare steps))).
  { rewrite resolveTest_headers, (processEvents_headers _ _ _ _ _ _ Hrun).
    apply initialState_headers. }
  split; [exact Hhdr|]. split.
  - assert (Hres : Forall (fun t => test_result t = "passed") (tests st)).
    { refine (processEvents_invariant toTime AFTER_EACH_HOOK
                (fun s => Forall (fun t => test_result t = "passed") (tests s))
                first _ _ _ st _ Hrun).
      - intros s ev s' Hs Hstep. eapply processEvent_results; eauto.
      - unfold initialState. cbn [tests]. apply List.Forall_forall.
        intros t Ht. apply in_map_iff in Ht. destruct Ht as [e [<- _]]. reflexivity. }
    apply List.Forall_forall. intros t Ht. apply in_map_iff in Ht.
    destruct Ht as [t1 [<- Ht1]]. simpl.
    rewrite List.Forall_forall in Hres. now apply Hres.
  - apply (f_equal (@length _)) in Hhdr. rewrite !length_map in Hhdr.
    rewrite length_map, Hhdr. apply Permutation_length.
    apply filter_Permutation. apply stableSort_perm.
Qed.

(** X1. A non-empty input without any "test:start" event makes the call
    throw "currentTest does not exist": no Test is ever created for an
    event that lacks its "test:start". *)
Theorem no_test_start_throws
    (localeCompare : string -> string -> comparison) (steps : list StepEvent)
    (first : Z) :
  steps <> [] ->
  Forall (fun e => isTestStart e = false) steps ->
  groupStepsByTest toTime localeCompare AFTER_EACH_HOOK steps first
  = inl CurrentTestDoesNotExist.
Proof.
  intros Hne Hnone. unfold groupStepsByTest.
  destruct steps as [|e0 rest]; [congruence|]. set (steps := e0 :: rest) in *.
  pose proof (stableSort_perm (byTimestamp localeCompare) steps) as Hperm.
  fold (sortSteps localeCompare steps) in Hperm.
  assert (Hfilter : filter isTestStart (sortSteps localeCompare steps) = []).
  { assert (Hall : Forall (fun e => isTestStart e = false)
                     (sortSteps localeCompare steps)).
    { eapply Permutation_Forall; [symmetry; exact Hperm|exact Hnone]. }
    clear Hperm. induction Hall as [|x l Hx _ IH]; [reflexivity|].
    rewrite filter_cons. destruct (decide (isTestStart x)) as [Hd|_]; [|exact IH].
    rewrite Hx in Hd. destruct Hd. }
  unfold initialState. rewrite Hfilter. cbn [map].
  destruct (sortSteps localeCompare steps) as [|e sorted] eqn:Hsorted.
  { apply Permutation_nil in Hperm. discriminate. }
  cbn [processEvents]. unfold processEvent. cbn [tests].
  assert (Hfind : testForStep [] e = None).
  { unfold testForStep. now destruct (last (test e)). }
  now rewrite Hfind.
Qed.

(** *** The assertion back-link *)

(** X8. A "step:start" that is not skipped is always recorded as a new Step
    of its own, with object arguments replaced by the empty object and no
    assertIds.  Its id is appended to the assertIds of the first step of the
    same Test whose id is the event's commandId; when there is no such step
    (the target is unknown or belongs to another Test) no existing step is
    changed. *)
Theorem assertion_back_link (first : Z) (st st' : AggState) (ev : StepEvent)
    (c : Command) (cur : nat) (t : Test StepRef) :
  event ev = StepStart -> command ev = Some c ->
  shouldSkipStep ev (skippedStepIds st) = false ->
  testForStep (tests st) ev = Some cur -> tests st !! cur = Some t ->
  processEvent toTime AFTER_EACH_HOOK first st ev = inr st' ->
  (exists s, store st' !! length (store st) = Some s
             /\ step_id s = cmd_id c
             /\ step_args s = map simplifyArg (cmd_args c)
             /\ Forall (fun a => simplifyArg a = a) (step_args s)
             /\ step_assertIds s = None)
  /\ length (store st') = S (length (store st))
  /\ (forall r0 s0,
         assertionTarget (store st) t c = Some r0 -> store st !! r0 = Some s0 ->
         exists s0', store st' !! r0 = Some s0'
                     /\ step_assertIds s0'
                        = Some (default [] (step_assertIds s0) ++ [cmd_id c])
                     /\ sameStepIdentity s0 s0')
  /\ (forall r s0,
         assertionTarget (store st) t c <> Some r -> store st !! r = Some s0 ->
         store st' !! r = Some s0).
Proof.
  intros Hev Hc Hskip Hcur Ht H.
  apply processEvent_inr in H. destruct H as [cur' [Hcur' H]].
  assert (cur' = cur) by congruence. subst cur'.
  cbv zeta in H. rewrite Hev in H.
  destruct (enterTest_state_eq (Some cur) st) as [Hte [Hse [Hke Hske]]].
  remember (enterTest (Some cur) st) as st1 eqn:E. clear E.
  unfold onStepStart in H. rewrite Hske, Hskip, Hc, Hte, Ht, Hse in H.
  inversion H; subst st'; clear H. cbn [store].
  fold (assertionTarget (store st) t c).
  assert (Hlen : length (match assertionTarget (store st) t c with
                         | Some r => alter (pushAssertId (cmd_id c)) r (store st)
                         | None => store st
                         end) = length (store st)).
  { destruct (assertionTarget _ _ _); [apply length_alter|reflexivity]. }
  assert (Hstore1 :
    match cmd_commandId c with
    | Some cid =>
        if truthy cid then
          match findFirst (stepIdIs (store st) cid) (test_steps t) with
          | Some r => alter (pushAssertId (cmd_id c)) r (store st)
          | None => store st
          end
        else store st
    | None => store st
    end
    = match assertionTarget (store st) t c with
      | Some r => alter (pushAssertId (cmd_id c)) r (store st)
      | None => store st
      end).
  { unfold assertionTarget. destruct (cmd_commandId c) as [cid|]; [|reflexivity].
    now destruct (truthy cid). }
  rewrite Hstore1. repeat split.
  - eexists. split.
    + rewrite <- Hlen. apply list_lookup_middle. reflexivity.
    + cbn. repeat split; try reflexivity.
      apply List.Forall_forall. intros a Ha. apply in_map_iff in Ha.
      destruct Ha as [x [<- _]]. now destruct x.
  - rewrite length_app, Hlen. simpl. lia.
  - intros r0 s0 Htarget Hs0. rewrite Htarget.
    exists (pushAssertId (cmd_id c) s0). split; [|split].
    + apply lookup_app_l_Some. now rewrite list_lookup_alter_eq, Hs0.
    + reflexivity.
    + apply pushAssertId_identity.
  - intros r s0 Hne Hs0. apply lookup_app_l_Some.
    destruct (assertionTarget (store st) t c) as [r0|]; [|assumption].
    rewrite list_lookup_alter_ne by congruence. assumption.
Qed.

End AggregatorPass.

(** *** Worked passes *)

Lemma pass_keeps_steps_witness :
  exists s',
    store (stateAfter t0 bodyAssertState [bodyAssertFailed; bodyAssertEnd]) !! 0%nat
    = Some s'
    /\ step_id s' = "a" /\ step_relativeStartTime s' = 5.
Proof.
  destruct (pass_keeps_steps_and_stack isoTime hookMarker t0 bodyAssertState
              (stateAfter t0 bodyAssertState [bodyAssertFailed; bodyAssertEnd])
              [bodyAssertFailed; bodyAssertEnd] eq_refl) as [Hkeep _].
  edestruct (Hkeep 0%nat) as (s' & Hs' & Hid & _ & _ & _ & _ & _ & Hrel);
    [reflexivity|].
  exists s'. repeat split; assumption.
Defined.

Lemma matched_step_end_witness :
  exists st',
    processEvent isoTime hookMarker t0 bodyAssertState bodyAssertEnd = inr st'.
Proof.
  apply (matched_step_end_succeeds isoTime hookMarker t0
           (initialState isoTime t0 [worksStart]) bodyAssertState
           [worksStart; bodyAssertStart] bodyAssertEnd bodyAssertStart
           (assertCmd "expected 2") 0%nat 0%nat); reflexivity.
Defined.

Lemma later_step_end_witness :
  (exists s2 cur t,
      store (stateAfter t0 bodyAssertState [bodyAssertFailed; bodyAssertEnd]) !! 0%nat
      = Some s2
      /\ testForStep (tests bodyAssertState) bodyAssertEnd = Some cur
      /\ tests bodyAssertState !! cur = Some t
      /\ step_error s2 = None
      /\ step_duration s2
         = Some (Z.max 0 (toRelativeTime isoTime (timestamp bodyAssertEnd) t0
                          - test_relativeStartTime t - step_relativeStartTime s2)))
  /\ (store (stateAfter t0 hookAssertState [hookAssertEnd; hookAssertEnd])
      = store (stateAfter t0 hookAssertState [hookAssertEnd])
      /\ tests (stateAfter t0 hookAssertState [hookAssertEnd; hookAssertEnd])
         = tests (stateAfter t0 hookAssertState [hookAssertEnd])).
Proof.
  split.
  - refine (proj1 (proj2
             (later_step_end_overwrites isoTime hookMarker t0 bodyAssertState
                (stateAfter t0 bodyAssertState [bodyAssertFailed])
                (stateAfter t0 bodyAssertState [bodyAssertFailed; bodyAssertEnd])
                bodyAssertFailed bodyAssertEnd bodyAssertStart
                (assertCmd "expected 2") (assertCmd "expected 2") 0%nat
                _ _ _ _ _ _ _ _ _)) _); reflexivity.
  - refine (proj2 (proj2
             (later_step_end_overwrites isoTime hookMarker t0 hookAssertState
                (stateAfter t0 hookAssertState [hookAssertEnd])
                (stateAfter t0 hookAssertState [hookAssertEnd; hookAssertEnd])
                hookAssertEnd hookAssertEnd hookAssertStart
                (assertCmd "expected 2") (assertCmd "expected 2") 0%nat
                _ _ _ _ _ _ _ _ _)) _); reflexivity.
Defined.

Lemma step_duration_witness :
  step_duration <$> store (stateAfter t0 seededState [bodyAssertStart; bodyAssertEnd])
                    !! 0%nat
  = Some (Some (Z.max 0 (isoTime (at_ms "015") - isoTime (at_ms "005"))))
  /\ step_duration <$> store (stateAfter t0 seededState [hookAssertStart; hookAssertEnd])
                       !! 0%nat
     = Some None.
Proof.
  split.
  - refine (proj1
             (step_duration_is_end_minus_start isoTime hookMarker t0 seededState
                bodyAssertState bodyAssertState
                (stateAfter t0 seededState [bodyAssertStart; bodyAssertEnd])
                bodyAssertStart bodyAssertEnd bodyAssertStart []
                (assertCmd "expected 2") _ _ _ _ _ _ _ _ _) _); reflexivity.
  - refine (proj2 (proj2
             (step_duration_is_end_minus_start isoTime hookMarker t0 seededState
                hookAssertState hookAssertState
                (stateAfter t0 seededState [hookAssertStart; hookAssertEnd])
                hookAssertStart hookAssertEnd hookAssertStart []
                (assertCmd "expected 2") _ _ _ _ _ _ _ _ _) _) _); reflexivity.
Defined.

Lemma every_step_in_one_test_witness :
  Permutation
    (attachedSteps (tests (stateAfter t0 (initialState isoTime t0 scenario) scenario)))
    (seq 0 (length (store (stateAfter t0 (initialState isoTime t0 scenario) scenario))))
  /\ Permutation
       (concat (map test_steps
                  (map (resolveTest
                          (store (stateAfter t0 (initialState isoTime t0 scenario)
                                    scenario)))
                     (tests (stateAfter t0 (initialState isoTime t0 scenario)
                               scenario)))))
       (store (stateAfter t0 (initialState isoTime t0 scenario) scenario)).
Proof.
  apply (every_step_in_exactly_one_test isoTime hookMarker t0 scenario scenario).
  reflexivity.
Defined.

Lemma skipped_step_end_witness :
  processEvent isoTime hookMarker t0 quietState quietEnd
  = inr (enterTest (Some 0%nat) quietState).
Proof.
  apply (skipped_step_end_is_ignored isoTime hookMarker t0 seededState quietState
           quietState quietStart quietEnd []
           (groupCmd "p" "g" [JsString "#menu"; JsObject [("log", JsBool false)]])
           (groupCmd "p" "g" []) 0%nat); try reflexivity.
  discriminate.
Defined.

Lemma returned_tests_witness :
  exists out,
    groupStepsByTest isoTime isoCompare hookMarker scenario t0 = inr out
    /\ map testHeader out
       = map (seedHeader isoTime t0) (filter isTestStart (sortSteps isoCompare scenario))
    /\ Forall (fun t => test_result t = "passed") out
    /\ length out = length (filter isTestStart scenario).
Proof.
  eexists. split; [vm_compute; reflexivity|].
  apply (returned_tests_follow_test_starts isoTime hookMarker isoCompare scenario t0).
  vm_compute. reflexivity.
Defined.

Lemma no_test_start_witness :
  groupStepsByTest isoTime isoCompare hookMarker [bodyAssertStart; bodyAssertEnd] t0
  = inl CurrentTestDoesNotExist.
Proof.
  apply no_test_start_throws; [discriminate|].
  repeat constructor.
Defined.

Lemma assertion_back_link_witness :
  exists s0',
    store (stateAfter t0 bodyAssertState [linkedAssertStart]) !! 0%nat = Some s0'
    /\ step_assertIds s0' = Some ["b"]
    /\ length (store (stateAfter t0 bodyAssertState [linkedAssertStart])) = 2%nat.
Proof.
  edestruct (assertion_back_link isoTime hookMarker t0 bodyAssertState
               (stateAfter t0 bodyAssertState [linkedAssertStart])
               linkedAssertStart (assertionOn "b" "a") 0%nat)
    as (_ & Hlen & Hlink & _); try reflexivity.
  edestruct (Hlink 0%nat) as (s0' & Hs0' & Hids & _); [reflexivity|reflexivity|].
  exists s0'. repeat split; assumption.
Defined.

(** ** More on retry and backoff *)

Section RetryMore.

Context {E T : Type}.

(** X10. An operation that fails on its first [k - 1] invocations and
    succeeds on the [k]-th, for [k] from 1 to 5, is invoked exactly [k]
    times; its [k]-th value is returned; the observer sees the [k - 1]
    errors in order; and [k - 1] waits are made, for iterations 1 to
    [k - 1]. *)
Theorem retry_succeeds_at (fn : nat -> E + T) (backOffStrategy : nat -> Q)
    (onFail : bool) (errs : nat -> E) (k : nat) (v : T) :
  (1 <= k <= MAX_ATTEMPTS)%nat ->
  (forall j, (1 <= j < k)%nat -> fn j = inl (errs j)) ->
  fn k = inr v ->
  snd (retry fn backOffStrategy onFail) = Some (inr v)
  /\ invocations (fst (retry fn backOffStrategy onFail)) = seq 1 k
  /\ failuresObserved (fst (retry fn backOffStrategy onFail))
     = (if onFail then map errs (seq 1 (k - 1)) else [])
  /\ waits (fst (retry fn backOffStrategy onFail)) = map backOffStrategy (seq 1 (k - 1)).
Proof.
  unfold MAX_ATTEMPTS. intros Hk Hfail Hok.
  assert (Hcases : (k = 1 \/ k = 2 \/ k = 3 \/ k = 4 \/ k = 5)%nat) by lia.
  unfold retry, MAX_ATTEMPTS.
  destruct Hcases as [->|[->|[->|[->| ->]]]]; simpl;
    repeat (first [ rewrite Hok | rewrite Hfail by lia ]; simpl);
    destruct onFail; simpl; repeat split; reflexivity.
Qed.

(** X11. Whatever the operation does, [retry] invokes it at most five
    times, ends by returning or by rethrowing (the throw after the loop is
    never reached), rethrows only the error of a fifth failed attempt, and
    neither the backoff strategy nor the observer has any influence on the
    outcome or on the number of invocations. *)
Theorem retry_is_bounded (fn : nat -> E + T) (backOffStrategy : nat -> Q)
    (onFail : bool) :
  (length (invocations (fst (retry fn backOffStrategy onFail))) <= MAX_ATTEMPTS)%nat
  /\ snd (retry fn backOffStrategy onFail) <> None
  /\ snd (retry fn backOffStrategy onFail) <> Some (inl ShouldBeUnreachable)
  /\ (forall e, snd (retry fn backOffStrategy onFail) = Some (inl (Rethrown e)) ->
                fn 5%nat = inl e
                /\ invocations (fst (retry fn backOffStrategy onFail))
                   = [1; 2; 3; 4; 5]%nat)
  /\ (forall v, snd (retry fn backOffStrategy onFail) = Some (inr v) ->
                fn (length (invocations (fst (retry fn backOffStrategy onFail))))
                = inr v)
  /\ (forall backOffStrategy' onFail',
         snd (retry fn backOffStrategy' onFail') = snd (retry fn backOffStrategy onFail)
         /\ invocations (fst (retry fn backOffStrategy' onFail'))
            = invocations (fst (retry fn backOffStrategy onFail))).
Proof.
  unfold retry, MAX_ATTEMPTS. simpl.
  destruct (fn 1%nat) as [e1|v1] eqn:H1; simpl;
    [destruct (fn 2%nat) as [e2|v2] eqn:H2; simpl;
     [destruct (fn 3%nat) as [e3|v3] eqn:H3; simpl;
      [destruct (fn 4%nat) as [e4|v4] eqn:H4; simpl;
       [destruct (fn 5%nat) as [e5|v5] eqn:H5; simpl|]|]|]|];
    repeat split; intros;
    repeat match goal with
           | |- context [if ?b then _ else _] => destruct b; simpl
           | H : context [if ?b then _ else _] |- _ => destruct b; simpl in H
           end;
    simpl in *; try discriminate; try lia; try congruence.
Qed.

End RetryMore.

Lemma Qpow2_succ (n : nat) : (2 ^ Z.of_nat (S n) == 2 * 2 ^ Z.of_nat n)%Q.
Proof.
  rewrite Nat2Z.inj_succ, <- Z.add_1_r.
  rewrite Qpower_plus by (intros H; discriminate H).
  change (2 ^ 1)%Q with 2%Q. ring.
Qed.

Lemma Qpow2_ge_1 (n : nat) : (1 <= 2 ^ Z.of_nat n)%Q.
Proof.
  induction n as [|n IH].
  - simpl. lra.
  - rewrite Qpow2_succ. lra.
Qed.

(** X12. With a random draw in [0, 1) and every product and sum rounded to
    binary64: a linear delay lies between 100 and 200, both ends included;
    the geometric delay of an iteration is never above that of the next,
    for iterations up to 46 and whatever the two jitters; and a geometric
    delay from iteration 1 on is never shorter than a linear delay.  The
    ends are reached: the linear delay is exactly 200 for the draw
    [1 - 2^-53], and the geometric delay of iteration 0 for that draw equals
    that of iteration 1 for the draw 0. *)
Theorem backoff_delays_ordered (n : nat) (r r' : Q) :
  (n < 46)%nat ->
  (0 <= r)%Q -> (r < 1)%Q -> (0 <= r')%Q -> (r' < 1)%Q ->
  (100 <= linearBackoff r)%Q /\ (linearBackoff r <= 200)%Q
  /\ (geometricBackoff (Z.of_nat n) r <= geometricBackoff (Z.of_nat (S n)) r')%Q
  /\ (linearBackoff r <= geometricBackoff (Z.of_nat (S n)) r')%Q
  /\ (linearBackoff maxRandom == 200)%Q
  /\ (geometricBackoff 0 maxRandom == geometricBackoff 1 0)%Q.
Proof.
  intros Hn H0 H1 H0' H1'.
  destruct (linearBackoff_bounds r H0 (Qlt_le_weak _ _ H1)) as [Hl0 Hl1].
  destruct (geometricBackoff_bounds n r ltac:(lia) H0 (Qlt_le_weak _ _ H1))
    as (_ & Hg0 & Hg1).
  destruct (geometricBackoff_bounds (S n) r' ltac:(lia) H0' (Qlt_le_weak _ _ H1'))
    as (_ & Hs0 & Hs1).
  pose proof (Qpow2_ge_1 n) as Hpow. pose proof (Qpow2_succ n) as Hsucc.
  rewrite Hsucc in Hs0, Hs1.
  repeat split; try lra; vm_compute; reflexivity.
Qed.

(** X13. The waiting a caller incurs when every attempt fails, the four
    delays being binary64 numbers: they add up to at least 3000 ms and at
    most 3400 ms under geometric backoff, and to at least 400 ms and at
    most 800 ms under linear backoff.  The upper ends are reached: with
    every draw [1 - 2^-52] the geometric delays add up to exactly 3400 ms,
    and with every draw [1 - 2^-53] the linear ones to exactly 800 ms. *)
Theorem retry_total_wait {E T : Type} (fn : nat -> E + T) (random : nat -> Q)
    (onFail : bool) (errs : nat -> E) :
  (forall k, fn k = inl (errs k)) ->
  (forall k, (0 <= random k)%Q /\ (random k < 1)%Q) ->
  (3000 <= totalDelay (waits (fst (exponentialBackoffRetry fn random onFail))))%Q
  /\ (totalDelay (waits (fst (exponentialBackoffRetry fn random onFail))) <= 3400)%Q
  /\ (400 <= totalDelay (waits (fst (linearBackoffRetry fn random onFail))))%Q
  /\ (totalDelay (waits (fst (linearBackoffRetry fn random onFail))) <= 800)%Q
  /\ (totalDelay
        (waits (fst (exponentialBackoffRetry fn
                       (fun _ => 4503599627370495 # 4503599627370496) onFail)))
      == 3400)%Q
  /\ (totalDelay (waits (fst (linearBackoffRetry fn (fun _ => maxRandom) onFail)))
      == 800)%Q.
Proof.
  intros Hfail Hrand.
  unfold exponentialBackoffRetry, linearBackoffRetry.
  rewrite !(retry_failing_waits fn _ onFail errs Hfail).
  destruct (Hrand 1%nat) as [A1 B1]. destruct (Hrand 2%nat) as [A2 B2].
  destruct (Hrand 3%nat) as [A3 B3]. destruct (Hrand 4%nat) as [A4 B4].
  destruct (geometricBackoff_bounds 1 (random 1%nat) ltac:(lia) A1 (Qlt_le_weak _ _ B1))
    as (_ & G1 & G1').
  destruct (geometricBackoff_bounds 2 (random 2%nat) ltac:(lia) A2 (Qlt_le_weak _ _ B2))
    as (_ & G2 & G2').
  destruct (geometricBackoff_bounds 3 (random 3%nat) ltac:(lia) A3 (Qlt_le_weak _ _ B3))
    as (_ & G3 & G3').
  destruct (geometricBackoff_bounds 4 (random 4%nat) ltac:(lia) A4 (Qlt_le_weak _ _ B4))
    as (_ & G4 & G4').
  destruct (linearBackoff_bounds (random 1%nat) A1 (Qlt_le_weak _ _ B1)) as [L1 L1'].
  destruct (linearBackoff_bounds (random 2%nat) A2 (Qlt_le_weak _ _ B2)) as [L2 L2'].
  destruct (linearBackoff_bounds (random 3%nat) A3 (Qlt_le_weak _ _ B3)) as [L3 L3'].
  destruct (linearBackoff_bounds (random 4%nat) A4 (Qlt_le_weak _ _ B4)) as [L4 L4'].
  change (2 ^ Z.of_nat 1)%Q with 2%Q in G1, G1'.
  change (2 ^ Z.of_nat 2)%Q with 4%Q in G2, G2'.
  change (2 ^ Z.of_nat 3)%Q with 8%Q in G3, G3'.
  change (2 ^ Z.of_nat 4)%Q with 16%Q in G4, G4'.
  unfold totalDelay. cbn [map fold_right].
  repeat split; try lra; vm_compute; reflexivity.
Qed.

Lemma retry_succeeds_witness :
  snd (retry (E := string) (fun k => if (k <? 3)%nat then inl "timeout" else inr k)
         (fun _ => linearBackoff 0) true)
  = Some (inr 3%nat)
  /\ invocations
       (fst (retry (E := string) (fun k => if (k <? 3)%nat then inl "timeout" else inr k)
               (fun _ => linearBackoff 0) true))
     = seq 1 3
  /\ failuresObserved
       (fst (retry (E := string) (fun k => if (k <? 3)%nat then inl "timeout" else inr k)
               (fun _ => linearBackoff 0) true))
     = map (fun _ => "timeout") (seq 1 (3 - 1))
  /\ waits
       (fst (retry (E := string) (fun k => if (k <? 3)%nat then inl "timeout" else inr k)
               (fun _ => linearBackoff 0) true))
     = map (fun _ => linearBackoff 0) (seq 1 (3 - 1)).
Proof.
  apply (retry_succeeds_at (E := string)
           (fun k => if (k <? 3)%nat then inl "timeout" else inr k)
           (fun _ => linearBackoff 0) true (fun _ => "timeout") 3%nat 3%nat).
  - unfold MAX_ATTEMPTS. lia.
  - intros j Hj. destruct (Nat.ltb_spec j 3); [reflexivity|lia].
  - reflexivity.
Defined.

Lemma backoff_delays_witness :
  (100 <= linearBackoff (1 # 2))%Q /\ (linearBackoff (1 # 2) <= 200)%Q
  /\ (geometricBackoff (Z.of_nat 3) (1 # 2) <= geometricBackoff (Z.of_nat 4) 0)%Q
  /\ (linearBackoff (1 # 2) <= geometricBackoff (Z.of_nat 4) 0)%Q
  /\ (linearBackoff maxRandom == 200)%Q
  /\ (geometricBackoff 0 maxRandom == geometricBackoff 1 0)%Q.
Proof.
  apply (backoff_delays_ordered 3 (1 # 2) 0); [lia| | | |]; vm_compute; congruence.
Defined.

Lemma retry_total_wait_witness :
  (3000 <= totalDelay (waits (fst (exponentialBackoffRetry (T := unit)
                                     (fun k => inl k) (fun _ => 1 # 2) true))))%Q
  /\ (totalDelay (waits (fst (exponentialBackoffRetry (T := unit)
                                (fun k => inl k) (fun _ => 1 # 2) true))) <= 3400)%Q
  /\ (400 <= totalDelay (waits (fst (linearBackoffRetry (T := unit)
                                       (fun k => inl k) (fun _ => 1 # 2) true))))%Q
  /\ (totalDelay (waits (fst (linearBackoffRetry (T := unit)
                                (fun k => inl k) (fun _ => 1 # 2) true))) <= 800)%Q
  /\ (totalDelay
        (waits (fst (exponentialBackoffRetry (T := unit) (fun k => inl k)
                       (fun _ => 4503599627370495 # 4503599627370496) true)))
      == 3400)%Q
  /\ (totalDelay (waits (fst (linearBackoffRetry (T := unit) (fun k => inl k)
                               (fun _ => maxRandom) true)))
      == 800)%Q.
Proof.
  apply (retry_total_wait (T := unit) (fun k => inl k) (fun _ => 1 # 2) true
           (fun k => k)).
  - intros k. reflexivity.
  - intros k. split; vm_compute; congruence.
Defined.

(** ** More on the dispatcher *)

Lemma arraySet_lookup_Some {R : Type} (l : list (option R)) (i j : nat) (v r : R) :
  arraySet l i v !! j = Some (Some r) ->
  (j = i /\ r = v) \/ l !! j = Some (Some r).
Proof.
  unfold arraySet. destruct (i <? length l)%nat eqn:E.
  - intros H. apply list_lookup_insert_Some in H.
    destruct H as [(-> & Hv & _) | (_ & H)]; [left|now right].
    split; [reflexivity|congruence].
  - apply Nat.ltb_ge in E. intros H. apply lookup_app_Some in H.
    destruct H as [H | (Hlen & H)]; [now right|].
    apply lookup_app_Some in H. destruct H as [H | (Hlen2 & H)].
    + apply lookup_replicate in H. destruct H as [H _]. discriminate.
    + rewrite length_replicate in Hlen2, H.
      apply list_lookup_singleton_Some in H. destruct H as [Hz Hv].
      left. split; [lia|congruence].
Qed.

(** A length below the limit stays below it when it shrinks. *)
Lemma lengthBelow_mono (n m : nat) (limit : JsDouble) :
  (n <= m)%nat -> lengthBelow m limit = true -> lengthBelow n limit = true.
Proof.
  intros Hnm. destruct limit as [q| | |]; simpl; auto.
  rewrite !Bool.negb_true_iff. intros Hm.
  destruct (Qle_bool q (inject_Z (Z.of_nat n))) eqn:Hn; [|reflexivity].
  apply Qle_bool_iff in Hn.
  assert (Hle : (q <= inject_Z (Z.of_nat m))%Q).
  { eapply Qle_trans; [exact Hn|]. apply inject_Z_le_iff. lia. }
  apply Qle_bool_iff in Hle. congruence.
Qed.

Section DispatcherMore.

Context {Task Err Result : Type}.
Variable retryFn : Task -> nat -> Err + Result.
Variable tasks : list Task.
Variable concurrencyLimit : JsDouble.

(** The shape of every state of a dispatch, whether tasks succeed or fail. *)
Lemma dispatch_shape (s : Dispatch Err Result) :
  dreach retryFn tasks concurrencyLimit s ->
  (taskIndex s <= length tasks)%nat
  /\ (forall i, In i (activePromises s) -> (i < taskIndex s)%nat)
  /\ List.NoDup (activePromises s)
  /\ (forall n, length (activePromises s) = S n ->
                lengthBelow n concurrencyLimit = true)
  /\ (length (results s) <= taskIndex s)%nat
  /\ (forall i r, results s !! i = Some (Some r) ->
                  exists t, tasks !! i = Some t /\ retryFn t i = inr r)
  /\ (forall out, pc s = Returned out -> out = results s).
Proof.
  induction 1 as [|s s' _ IH Hstep].
  - unfold dispatchStart. cbn [pc activePromises results taskIndex].
    refine (conj _ (conj _ (conj _ (conj _ (conj _ (conj _ _)))))).
    + simpl. lia.
    + intros i [].
    + constructor.
    + intros n Hn. discriminate Hn.
    + simpl. lia.
    + intros i r H. rewrite lookup_nil in H. discriminate.
    + discriminate.
  - destruct IH as (Hidx & Hact & Hnd & Hlim & Hlen & Hres & Hret).
    destruct Hstep as [s Hp Hlt Hroom | s Hp Hlt Hfull | s Hp Hge
                      | s i t r p' Hin Ht Hr Hp | s i t e p' Hin Ht He Hp
                      | s Hp Hempty];
      cbn [pc activePromises results taskIndex];
      refine (conj _ (conj _ (conj _ (conj _ (conj _ (conj _ _)))))).
    (* Launch *)
    + lia.
    + intros i Hi. apply in_app_or in Hi. destruct Hi as [Hi|[<-|[]]]; [|lia].
      specialize (Hact i Hi). lia.
    + eapply Permutation_NoDup; [apply Permutation_cons_append|].
      constructor; [|assumption]. intros Hin. specialize (Hact _ Hin). lia.
    + intros n Hn. rewrite length_app in Hn. simpl in Hn.
      replace n with (length (activePromises s)) by lia. exact Hroom.
    + lia.
    + exact Hres.
    + discriminate.
    (* AwaitRace *)
    + exact Hidx.
    + exact Hact.
    + exact Hnd.
    + exact Hlim.
    + exact Hlen.
    + exact Hres.
    + discriminate.
    (* ExitLoop *)
    + exact Hidx.
    + exact Hact.
    + exact Hnd.
    + exact Hlim.
    + exact Hlen.
    + exact Hres.
    + discriminate.
    (* Settle *)
    + exact Hidx.
    + intros j Hj. apply removePromise_In in Hj. apply Hact. tauto.
    + now apply List.NoDup_filter.
    + intros n Hn.
      pose proof (List.filter_length_le (fun j => negb (Nat.eqb j i)) (activePromises s))
        as Hle.
      unfold removePromise in Hn. rewrite Hn in Hle.
      destruct (length (activePromises s)) as [|m] eqn:Hm; [lia|].
      apply (lengthBelow_mono n m); [lia|]. now apply Hlim.
    + rewrite arraySet_length. specialize (Hact i Hin). lia.
    + intros j r0 Hj. apply arraySet_lookup_Some in Hj.
      destruct Hj as [(-> & ->)|Hj]; [eauto|now apply Hres].
    + intros out Hout. subst p'. destruct (pc s); simpl in Hp; discriminate.
    (* SettleFail *)
    + exact Hidx.
    + intros j Hj. apply removePromise_In in Hj. apply Hact. tauto.
    + now apply List.NoDup_filter.
    + intros n Hn.
      pose proof (List.filter_length_le (fun j => negb (Nat.eqb j i)) (activePromises s))
        as Hle.
      unfold removePromise in Hn. rewrite Hn in Hle.
      destruct (length (activePromises s)) as [|m] eqn:Hm; [lia|].
      apply (lengthBelow_mono n m); [lia|]. now apply Hlim.
    + exact Hlen.
    + exact Hres.
    + intros out Hout. subst p'. destruct (pc s); simpl in Hp; discriminate.
    (* Return *)
    + exact Hidx.
    + exact Hact.
    + exact Hnd.
    + exact Hlim.
    + exact Hlen.
    + exact Hres.
    + intros out Hout. now inversion Hout.
Qed.

(** X14. At every point of a dispatch, whatever the tasks do, a task
    promise is in flight only if the number of the others in flight is
    below the limit, so the number in flight stays below the limit plus
    one: at most the limit rounded up to a whole number, two for a limit of
    1.5 and one for 0.5, and none when the limit is not above zero or is
    NaN.  No task is in flight twice, and the tasks in flight are among
    those launched so far, which are the first [taskIndex] tasks of the
    list. *)
Theorem dispatch_is_bounded (s : Dispatch Err Result) :
  dreach retryFn tasks concurrencyLimit s ->
  (forall n, length (activePromises s) = S n -> lengthBelow n concurrencyLimit = true)
  /\ (forall q, concurrencyLimit = Finite q -> activePromises s <> [] ->
                (inject_Z (Z.of_nat (length (activePromises s))) < q + 1)%Q)
  /\ (lengthBelow 0 concurrencyLimit = false -> activePromises s = [])
  /\ List.NoDup (activePromises s)
  /\ (forall i, In i (activePromises s) -> (i < taskIndex s)%nat)
  /\ (taskIndex s <= length tasks)%nat.
Proof.
  intros Hreach. destruct (dispatch_shape s Hreach) as (A & B & C & D & _).
  split; [exact D|]. split; [|split; [|auto]].
  - intros q Hq Hne.
    destruct (length (activePromises s)) as [|n] eqn:Hn.
    + destruct (activePromises s); [congruence|discriminate].
    + specialize (D n eq_refl). rewrite Hq in D. simpl in D.
      apply Bool.negb_true_iff in D.
      destruct (Qlt_le_dec (inject_Z (Z.of_nat n)) q) as [Hlt|Hle].
      * rewrite Nat2Z.inj_succ, <- Z.add_1_r, inject_Z_plus.
        change (inject_Z 1) with 1%Q. lra.
      * apply Qle_bool_iff in Hle. congruence.
  - intros Hzero.
    destruct (activePromises s) as [|i rest] eqn:Ha; [reflexivity|].
    specialize (D (length rest) eq_refl).
    pose proof (lengthBelow_mono 0 (length rest) concurrencyLimit ltac:(lia) D).
    congruence.
Qed.


End DispatcherMore.

Lemma bothInFlight_reached : dreach tenfold twoTasks threeHalves bothInFlight.
Proof.
  pose (s1 := {| pc := Looping; activePromises := [0%nat]; results := [];
                 taskIndex := 1 |} : Dispatch unit Z).
  apply (dreach_step tenfold twoTasks threeHalves s1).
  - apply (dreach_step tenfold twoTasks threeHalves dispatchStart); [apply dreach_start|].
    apply (Launch tenfold twoTasks threeHalves dispatchStart);
      [reflexivity | simpl; lia | reflexivity].
  - apply (Launch tenfold twoTasks threeHalves s1);
      [reflexivity | simpl; lia | reflexivity].
Qed.

Lemma dispatch_is_bounded_witness :
  (forall n, length (activePromises bothInFlight) = S n -> lengthBelow n threeHalves = true)
  /\ (forall q, threeHalves = Finite q -> activePromises bothInFlight <> [] ->
                (inject_Z (Z.of_nat (length (activePromises bothInFlight))) < q + 1)%Q)
  /\ (lengthBelow 0 threeHalves = false -> activePromises bothInFlight = [])
  /\ List.NoDup (activePromises bothInFlight)
  /\ (forall i, In i (activePromises bothInFlight) -> (i < taskIndex bothInFlight)%nat)
  /\ (taskIndex bothInFlight <= length twoTasks)%nat.
Proof.
  exact (dispatch_is_bounded tenfold twoTasks threeHalves bothInFlight bothInFlight_reached).
Defined.


(** ** Utilities of the command-line package *)

Lemma inString_uuid_alphabet (c : ascii) :
  inString c "0123456789abcdef-" = isLowerHex c || isDash c.
Proof. destruct c as [[] [] [] [] [] [] [] []]; reflexivity. Qed.

Lemma uuidCharsFrom_spec (s : string) :
  uuidCharsFrom s = true
  <-> forall c, In c (list_ascii_of_string s) -> isLowerHex c || isDash c = true.
Proof.
  induction s as [|a s IH].
  - simpl. split; [intros _ c []|reflexivity].
  - change (uuidCharsFrom (String a s))
      with (if negb (inString a "0123456789abcdef-") then false else uuidCharsFrom s).
    change (list_ascii_of_string (String a s)) with (a :: list_ascii_of_string s).
    rewrite inString_uuid_alphabet. destruct (isLowerHex a || isDash a) eqn:Ha.
    + change (uuidCharsFrom s = true
              <-> forall c, In c (a :: list_ascii_of_string s)
                            -> isLowerHex c || isDash c = true).
      rewrite IH. split.
      * intros H c [<-|Hc]; auto.
      * intros H c Hc. apply H. now right.
    + change (false = true
              <-> forall c, In c (a :: list_ascii_of_string s)
                            -> isLowerHex c || isDash c = true).
      split; [discriminate|]. intros H.
      rewrite (H a (or_introl eq_refl)) in Ha. discriminate.
Qed.

(** X16. [isValidUUID] accepts exactly the strings of 36 characters that are
    all lower-case hexadecimal digits or dashes: values that are not
    strings, other lengths, upper-case digits and any other character are
    rejected, and where the dashes stand is not looked at. *)
Theorem isValidUUID_spec (str : JsValue) :
  isValidUUID str = true
  <-> exists s, str = JsString s
                /\ String.length s = 36%nat
                /\ forall c, In c (list_ascii_of_string s)
                             -> isLowerHex c = true \/ c = "-"%char.
Proof.
  assert (Hchar : forall c, isLowerHex c || isDash c = true
                            <-> isLowerHex c = true \/ c = "-"%char).
  { intros c. rewrite Bool.orb_true_iff. unfold isDash. now rewrite Ascii.eqb_eq. }
  unfold isValidUUID. split.
  - destruct str as [| | | |s|]; try discriminate.
    destruct (Nat.eqb (String.length s) 36) eqn:Hlen; simpl; [|discriminate].
    intros H. exists s. apply Nat.eqb_eq in Hlen. repeat split; auto.
    intros c Hc. apply Hchar. revert c Hc. now apply uuidCharsFrom_spec.
  - intros (s & -> & Hlen & Hall). rewrite Hlen. simpl.
    apply uuidCharsFrom_spec. intros c Hc. apply Hchar. auto.
Qed.

(** X17. A browser name passes [assertValidBrowserName] after
    [fuzzyBrowserName] exactly when, lower-cased and trimmed, it is one of
    "chrome", "chromium", "gecko" and "firefox"; the first two become
    "chromium", the other two "firefox"; a missing name is always
    rejected. *)
Theorem browser_name_accepted (toLowerCase trim : string -> string)
    (browser : option string) :
  (assertValidBrowserName (fuzzyBrowserName toLowerCase trim browser) = inr tt
   <-> exists b, browser = Some b
                 /\ (trim (toLowerCase b) = "chrome" \/ trim (toLowerCase b) = "chromium"
                     \/ trim (toLowerCase b) = "gecko"
                     \/ trim (toLowerCase b) = "firefox"))
  /\ (forall b, browser = Some b ->
                (trim (toLowerCase b) = "chrome" \/ trim (toLowerCase b) = "chromium"
                 -> fuzzyBrowserName toLowerCase trim browser = Some "chromium")
                /\ (trim (toLowerCase b) = "gecko" \/ trim (toLowerCase b) = "firefox"
                    -> fuzzyBrowserName toLowerCase trim browser = Some "firefox")).
Proof.
  split.
  - destruct browser as [b|]; simpl.
    + unfold fuzzyBrowserName. simpl. set (n := trim (toLowerCase b)).
      destruct (String.eqb n "chrome") eqn:E1.
      { apply String.eqb_eq in E1. simpl. split; [eauto 6|reflexivity]. }
      destruct (String.eqb n "gecko") eqn:E2.
      { apply String.eqb_eq in E2. simpl. split; [eauto 6|reflexivity]. }
      unfold assertValidBrowserName, truthy.
      apply String.eqb_neq in E1, E2.
      destruct (String.eqb n "chromium") eqn:E3.
      { apply String.eqb_eq in E3. rewrite E3. simpl. split; [eauto 6|reflexivity]. }
      destruct (String.eqb n "firefox") eqn:E4.
      { apply String.eqb_eq in E4. rewrite E4. simpl. split; [eauto 6|reflexivity]. }
      apply String.eqb_neq in E3, E4. rewrite Bool.orb_true_r.
      split; [discriminate|].
      intros (b' & Hb & H). inversion Hb; subst b'. fold n in H. intuition congruence.
    + split; [discriminate|]. intros (b & Hb & _). discriminate.
  - intros b ->. unfold fuzzyBrowserName. simpl. set (n := trim (toLowerCase b)).
    split.
    + intros [->| ->]; reflexivity.
    + intros [->| ->]; reflexivity.
Qed.

(** X18. [resolveId] hands back a resolution only for a source that is
    relative or external, only as [this.resolve] gave it, and only when the
    resolved id is virtual (starts with "\0") or starts with the package
    directory; it returns nothing exactly for entries, virtual sources and
    bundled ones; and a bare import of a package that is not external is
    rejected without regard to what [this.resolve] would say. *)
Theorem resolveId_guards (isExternal : string -> bool) (pkgDir : string)
    (resolve : string -> option string -> ResolveOptions -> option ResolvedId)
    (source : string) (importer : option string) (options : ResolveOptions) :
  (forall r, resolveId isExternal pkgDir resolve source importer options = inr (Some r) ->
             resolve source importer options = Some r
             /\ (startsWith (resolved_id r) nulString = true
                 \/ startsWith (resolved_id r) pkgDir = true)
             /\ (startsWith source "." = true \/ isExternal source = true)
             /\ isEntry options = false /\ customBundled options = false)
  /\ (resolveId isExternal pkgDir resolve source importer options = inr None
      <-> isEntry options = true \/ startsWith source nulString = true
          \/ customBundled options = true)
  /\ (isEntry options = false -> startsWith source nulString = false ->
      customBundled options = false ->
      startsWith source "." = false -> isExternal source = false ->
      resolveId isExternal pkgDir resolve source importer options
      = inl (UndeclaredImport source importer)).
Proof.
  unfold resolveId.
  destruct (isEntry options) eqn:He; simpl.
  { repeat split; try discriminate; auto. }
  destruct (startsWith source nulString) eqn:Hn; simpl.
  { repeat split; try discriminate; auto. }
  destruct (customBundled options) eqn:Hb; simpl.
  { repeat split; try discriminate; auto. }
  destruct (startsWith source ".") eqn:Hd; simpl;
    [|destruct (isExternal source) eqn:Hx; simpl].
  all: try (destruct (resolve source importer options) as [r0|] eqn:Hr;
            [destruct (startsWith (resolved_id r0) nulString) eqn:Hrn; simpl;
             [|destruct (startsWith (resolved_id r0) pkgDir) eqn:Hrp; simpl]|]).
  all: repeat split; intros; try discriminate; try congruence;
    try match goal with
        | H : inr (Some _) = inr (Some _) |- _ => inversion H; subst; clear H
        end;
    auto; try (intuition discriminate).
Qed.

(** ** The Playwright reporter *)

Lemma splitLines_nonempty (s : string) : splitLines s <> [].
Proof.
  destruct s as [|c s]; simpl; [discriminate|].
  destruct (Ascii.eqb c newline); [discriminate|].
  destruct (splitLines s); discriminate.
Qed.

Lemma joinLines_splitLines (s : string) : joinLines (splitLines s) = s.
Proof.
  induction s as [|c s IH]; [reflexivity|].
  simpl splitLines. destruct (Ascii.eqb c newline) eqn:Hc.
  - apply Ascii.eqb_eq in Hc. subst c.
    pose proof (splitLines_nonempty s) as Hne.
    destruct (splitLines s) as [|l ls] eqn:Hs; [contradiction|].
    change (joinLines (EmptyString :: l :: ls))
      with (String newline (joinLines (l :: ls))).
    now rewrite IH.
  - pose proof (splitLines_nonempty s) as Hne.
    destruct (splitLines s) as [|l ls] eqn:Hs; [contradiction|].
    destruct ls as [|l' ls].
    + simpl in *. now rewrite IH.
    + change (joinLines (String c l :: l' :: ls))
        with (String c (l ++ String newline (joinLines (l' :: ls)))).
      change (joinLines (l :: l' :: ls))
        with (l ++ String newline (joinLines (l' :: ls)))%string in IH.
      now rewrite IH.
Qed.

Lemma findIndex_None {A : Type} (p : A -> bool) (l : list A) :
  findIndex p l = None -> Forall (fun x => p x = false) l.
Proof.
  induction l as [|a l IH]; simpl; intros H; [constructor|].
  destruct (p a) eqn:Hp; [discriminate|].
  destruct (findIndex p l); [discriminate|]. constructor; auto.
Qed.

Lemma findIndex_skipn {A : Type} (p : A -> bool) (l : list A) (i : nat) :
  findIndex p l = Some i ->
  Forall (fun x => p x = false) (firstn i l)
  /\ exists x rest, skipn i l = x :: rest /\ p x = true.
Proof.
  revert i. induction l as [|a l IH]; simpl; intros i H; [discriminate|].
  destruct (p a) eqn:Hp.
  - inversion H; subst. simpl. split; [constructor|eauto].
  - destruct (findIndex p l) as [k|]; simpl in H; [|discriminate].
    inversion H; subst. destruct (IH k eq_refl) as [Hall Hex].
    simpl. split; [constructor; auto|exact Hex].
Qed.

(** X19. For an error with a message, [extractErrorMessage] returns the
    first lines of the message joined again: at most ten of them, none that
    starts with "Call log:", cut exactly at the first such line or at the
    tenth; a message of at most ten lines with no call log comes back
    unchanged. *)
Theorem extracted_message_is_head_of_lines
    (removeAnsiCodes : option string -> option string)
    (error : PwTestError) (message : string) :
  removeAnsiCodes (pw_message error) = Some message ->
  message <> ""%string ->
  exists kept rest,
    splitLines message = kept ++ rest
    /\ extractErrorMessage removeAnsiCodes error = joinLines kept
    /\ (length kept <= 10)%nat
    /\ Forall (fun l => startsWith l "Call log:" = false) kept
    /\ (rest = [] \/ length kept = 10%nat
        \/ exists l rest', rest = l :: rest' /\ startsWith l "Call log:" = true)
    /\ (rest = [] -> extractErrorMessage removeAnsiCodes error = message).
Proof.
  intros Hmsg Hne. unfold extractErrorMessage. rewrite Hmsg.
  assert (Ht : truthy message = true).
  { unfold truthy. apply Bool.negb_true_iff. now apply String.eqb_neq. }
  rewrite Ht. set (lines := splitLines message).
  set (p := fun l : string => startsWith l "Call log:").
  assert (Hjoin : joinLines lines = message) by apply joinLines_splitLines.
  destruct (findIndex p lines) as [i|] eqn:Hfind.
  - destruct (findIndex_skipn p lines i Hfind) as [Hall (x & rest' & Hskip & Hx)].
    exists (firstn (Nat.min i 10) lines), (skipn (Nat.min i 10) lines).
    split; [now rewrite firstn_skipn|]. split; [reflexivity|].
    split; [rewrite length_firstn; lia|].
    split.
    { rewrite Nat.min_comm, <- firstn_firstn. now apply Forall_take. }
    split.
    { destruct (Nat.le_gt_cases i 10) as [Hle|Hgt].
      - right; right. rewrite Nat.min_l by exact Hle. eauto.
      - right; left. rewrite Nat.min_r by lia. rewrite length_firstn.
        assert (Hlen : (i < length lines)%nat).
        { destruct (Nat.lt_ge_cases i (length lines)) as [|Hge]; [assumption|].
          rewrite skipn_all2 in Hskip by exact Hge. discriminate. }
        lia. }
    intros Hrest. rewrite <- (firstn_skipn (Nat.min i 10) lines) in Hjoin at 1.
    rewrite Hrest, app_nil_r in Hjoin. exact Hjoin.
  - pose proof (findIndex_None p lines Hfind) as Hall.
    exists (firstn 10 lines), (skipn 10 lines).
    split; [now rewrite firstn_skipn|]. split; [reflexivity|].
    split; [rewrite length_firstn; lia|].
    split; [now apply Forall_take|].
    split.
    { destruct (Nat.le_gt_cases (length lines) 10) as [Hle|Hgt].
      - left. now apply skipn_all2.
      - right; left. rewrite length_firstn. lia. }
    intros Hrest. rewrite <- (firstn_skipn 10 lines) in Hjoin at 1.
    rewrite Hrest, app_nil_r in Hjoin. exact Hjoin.
Qed.

Lemma bucketStep_fold (removeAnsiCodes : option string -> option string)
    (l : list (nat * PwTestStep)) (hookMap : HookMap) (steps : list UserActionEvent) :
  let ev := fun e : nat * PwTestStep => stepEvent removeAnsiCodes (fst e) (snd e) in
  let out := fold_left (bucketStep removeAnsiCodes) l (hookMap, steps) in
  snd out = steps ++ map ev (List.filter isMainEntry l)
  /\ bucket HookBeforeEach (fst out)
     = bucket HookBeforeEach hookMap ++ map ev (List.filter isBeforeEachEntry l)
  /\ bucket HookAfterEach (fst out)
     = bucket HookAfterEach hookMap ++ map ev (List.filter isAfterEachEntry l).
Proof.
  revert hookMap steps. induction l as [|[i s] l IH]; intros hookMap steps; simpl.
  - now rewrite !app_nil_r.
  - unfold isMainEntry, isBeforeEachEntry, isAfterEachEntry. simpl.
    destruct (mapTestStepHook s) as [[|]|] eqn:Hh.
    + destruct (IH (hookMapSet HookBeforeEach
                      (match hookMapGet HookBeforeEach hookMap with
                       | Some l0 => l0 | None => [] end
                       ++ [stepEvent removeAnsiCodes i s]) hookMap) steps)
        as (H1 & H2 & H3).
      rewrite H1, H2, H3. unfold bucket. simpl.
      repeat split; auto. now rewrite <- app_assoc.
    + destruct (IH (hookMapSet HookAfterEach
                      (match hookMapGet HookAfterEach hookMap with
                       | Some l0 => l0 | None => [] end
                       ++ [stepEvent removeAnsiCodes i s]) hookMap) steps)
        as (H1 & H2 & H3).
      rewrite H1, H2, H3. unfold bucket. simpl.
      repeat split; auto. now rewrite <- app_assoc.
    + destruct (IH hookMap (steps ++ [stepEvent removeAnsiCodes i s]))
        as (H1 & H2 & H3).
      rewrite H1, H2, H3. repeat split; auto. now rewrite <- app_assoc.
Qed.

Lemma buckets_partition (l : list (nat * PwTestStep)) :
  Permutation (List.filter isMainEntry l
               ++ List.filter isBeforeEachEntry l
               ++ List.filter isAfterEachEntry l) l.
Proof.
  induction l as [|[i s] l IH]; simpl; [constructor|].
  unfold isMainEntry, isBeforeEachEntry, isAfterEachEntry. simpl.
  destruct (mapTestStepHook s) as [[|]|].
  - symmetry. etransitivity; [|apply Permutation_middle].
    constructor. now symmetry.
  - symmetry. rewrite app_assoc.
    etransitivity; [|apply Permutation_middle].
    constructor. rewrite <- app_assoc. now symmetry.
  - simpl. now constructor.
Qed.

Lemma indexString_inj (i j : nat) : indexString i = indexString j -> i = j.
Proof.
  unfold indexString. intros H.
  apply Unsigned.to_uint_inj.
  pose proof (NilEmpty.usu (Nat.to_uint i)) as Hi.
  pose proof (NilEmpty.usu (Nat.to_uint j)) as Hj.
  rewrite H in Hi. congruence.
Qed.

Lemma entries_ids (removeAnsiCodes : option string -> option string)
    (l : list PwTestStep) :
  map ua_id (map (fun e : nat * PwTestStep => stepEvent removeAnsiCodes (fst e) (snd e))
                 (entries l))
  = map indexString (seq 0 (length l)).
Proof.
  unfold entries. generalize 0%nat as k.
  induction l as [|s l IH]; intros k; simpl; [reflexivity|].
  now rewrite IH.
Qed.

(** X20. For a test that was not skipped, the Playwright reporter always
    reports: the steps of its hooks "Before Hooks" and "After Hooks" go to
    [beforeEach] and [afterEach], every other step to [main], each bucket
    in the order of [result.steps]; no step is lost or reported twice, and
    the ids, the positions in [result.steps], are distinct across the
    buckets.  The result reported is never "interrupted". *)
Theorem test_end_buckets (removeAnsiCodes : option string -> option string)
    (captureTestFile : bool) (readFileSync : string -> option string)
    (test : PwTestCase) (result : PwTestResult) :
  res_status result <> "skipped"%string ->
  let ev := fun e : nat * PwTestStep => stepEvent removeAnsiCodes (fst e) (snd e) in
  let all := entries (res_steps result) in
  exists rep,
    pwOnTestEnd removeAnsiCodes captureTestFile readFileSync test result = Some rep
    /\ te_main rep = map ev (List.filter isMainEntry all)
    /\ te_beforeEach rep = map ev (List.filter isBeforeEachEntry all)
    /\ te_afterEach rep = map ev (List.filter isAfterEachEntry all)
    /\ Permutation (te_main rep ++ te_beforeEach rep ++ te_afterEach rep) (map ev all)
    /\ List.NoDup (map ua_id (te_main rep ++ te_beforeEach rep ++ te_afterEach rep))
    /\ te_result rep <> "interrupted"%string.
Proof.
  intros Hstatus ev all. unfold pwOnTestEnd.
  apply String.eqb_neq in Hstatus. rewrite Hstatus.
  pose proof (bucketStep_fold removeAnsiCodes all
                {| hm_beforeEach := None; hm_afterEach := None |} [])
    as (Hmain & Hbefore & Hafter).
  fold all.
  destruct (fold_left (bucketStep removeAnsiCodes) all
              ({| hm_beforeEach := None; hm_afterEach := None |}, []))
    as [hookMap steps] eqn:Hfold.
  simpl in Hmain, Hbefore, Hafter. unfold bucket in Hbefore, Hafter.
  simpl in Hbefore, Hafter.
  eexists. split; [reflexivity|]. simpl.
  fold ev in Hmain, Hbefore, Hafter.
  rewrite Hmain, Hbefore, Hafter.
  assert (Hperm : Permutation
                    (map ev (List.filter isMainEntry all)
                     ++ map ev (List.filter isBeforeEachEntry all)
                     ++ map ev (List.filter isAfterEachEntry all))
                    (map ev all)).
  { rewrite <- !map_app. apply Permutation_map, buckets_partition. }
  repeat split; auto.
  - eapply Permutation_NoDup.
    + symmetry. apply Permutation_map. exact Hperm.
    + unfold ev, all. rewrite entries_ids.
      apply Finite.Injective_map_NoDup.
      * intros i j. apply indexString_inj.
      * apply List.seq_NoDup.
  - destruct (String.eqb (res_status result) "interrupted") eqn:Hi.
    + discriminate.
    + now apply String.eqb_neq.
Qed.

(** X21. For a title path made of the root, the project, the file, the
    enclosing describe blocks and the title of the test, the scope of
    [getSource] is exactly the describe blocks and the spec file is the
    file; a title path of four entries or fewer has an empty scope. *)
Theorem source_scope_between_file_and_title (test : PwTestCase)
    (root project file title : string) (scope : list string) :
  (tc_titlePath test = root :: project :: file :: scope ++ [title] ->
   src_scope (getSource test) = scope
   /\ src_title (getSource test) = tc_title test
   /\ tc_titlePath test !! 2%nat = Some file)
  /\ ((length (tc_titlePath test) <= 4)%nat -> src_scope (getSource test) = []).
Proof.
  unfold getSource, sliceToLast. simpl. split.
  - intros ->. repeat split.
    change (firstn (length (root :: project :: file :: scope ++ [title]) - 1 - 3)
                   (scope ++ [title]) = scope).
    replace (length (root :: project :: file :: scope ++ [title]) - 1 - 3)%nat
      with (length scope + 0)%nat by (simpl; rewrite length_app; simpl; lia).
    rewrite firstn_app_2. simpl. now rewrite app_nil_r.
  - intros Hlen.
    replace (length (tc_titlePath test) - 1 - 3)%nat with 0%nat by lia.
    reflexivity.
Qed.

(** ** The earlier Cypress plugin *)

Lemma specStatus_fold (states : list string) (acc : string) :
  acc = "passed"%string \/ acc = "failed"%string ->
  fold_left (fun acc t =>
               if String.eqb acc "failed" || String.eqb t "failed"
               then "failed" else "passed")%string states acc
  = if String.eqb acc "failed" || existsb (fun t => String.eqb t "failed") states
    then "failed"%string else "passed"%string.
Proof.
  revert acc. induction states as [|t states IH]; intros acc Hacc; simpl.
  - destruct Hacc as [-> | ->]; reflexivity.
  - rewrite IH.
    + destruct Hacc as [-> | ->]; simpl; [|reflexivity].
      destruct (String.eqb t "failed"); reflexivity.
    + destruct (String.eqb acc "failed" || String.eqb t "failed"); auto.
Qed.

(** X22. The [after:spec] handler of the earlier Cypress plugin always
    reports, its guard on the status never returning early: the result is
    "failed" exactly when some test of the spec has the state "failed" and
    "passed" otherwise, also for a spec with no test or with only pending
    ones. *)
Theorem after_spec_always_reports (selectedBrowser : option string)
    (relative : string) (specType : option string) (states : list string) :
  exists r,
    afterSpec selectedBrowser relative specType states = Some r
    /\ se_relativePath r = relative
    /\ (se_result r = "failed"%string <-> In "failed"%string states)
    /\ (se_result r = "passed"%string <-> ~ In "failed"%string states).
Proof.
  unfold afterSpec, specStatus. rewrite specStatus_fold by auto. simpl.
  destruct (existsb (fun t => String.eqb t "failed") states) eqn:Hex; simpl.
  - apply existsb_exists in Hex. destruct Hex as (t & Hin & Ht).
    apply String.eqb_eq in Ht. subst t.
    eexists. split; [reflexivity|]. simpl. repeat split; auto; try discriminate.
    intros Hn. contradiction.
  - assert (Hnot : ~ In "failed"%string states).
    { intros Hin. assert (existsb (fun t => String.eqb t "failed") states = true).
      { apply existsb_exists. exists "failed"%string. split; auto. }
      congruence. }
    eexists. split; [reflexivity|]. simpl. repeat split; auto; try discriminate.
    intros Hin. contradiction.
Qed.

(** ** The Cypress plugin *)

Lemma string_of_list_ascii_length (l : list ascii) :
  String.length (string_of_list_ascii l) = length l.
Proof. induction l as [|a l IH]; simpl; congruence. Qed.

Lemma rule_length (n : Z) : (0 <= n)%Z -> Z.of_nat (String.length (rule n)) = n.
Proof.
  intros Hn. unfold rule. rewrite string_of_list_ascii_length, repeat_length. lia.
Qed.

(** X23. On a terminal of at least 19 columns the header of a warning, the
    package name between two rules, is exactly as wide as the terminal
    and as the rule that closes the warning, and the right rule is as long
    as the left one or one longer; with no column count, or a count of 0,
    the width is 80. *)
Theorem warn_header_fits (magentaBright : string -> string)
    (columns : option Z) (lines : list string) :
  (19 <= terminalWidth columns)%Z ->
  exists left right,
    warn magentaBright columns lines
    = [(String newline
          (left ++ " " ++ magentaBright packageName ++ " " ++ right
           ++ String newline ""))%string]
      ++ lines
      ++ [(String newline (rule (terminalWidth columns) ++ String newline ""))%string]
    /\ (Z.of_nat (String.length left) + 1 + Z.of_nat (String.length packageName) + 1
        + Z.of_nat (String.length right) = terminalWidth columns)%Z
    /\ Z.of_nat (String.length (rule (terminalWidth columns))) = terminalWidth columns
    /\ (String.length left <= String.length right <= String.length left + 1)%nat
    /\ (columns = None \/ columns = Some 0%Z -> terminalWidth columns = 80%Z).
Proof.
  intros Hw. set (w := terminalWidth columns) in *.
  exists (rule (startHeaderWidth w)), (rule (endHeaderWidth w)).
  assert (Hname : Z.of_nat (String.length packageName) = 17%Z) by reflexivity.
  assert (Hhalf : (1 <= (w - 17) / 2)%Z) by (apply Z.div_le_lower_bound; lia).
  assert (Hmod : (0 <= (w - 17) mod 2 < 2)%Z) by (apply Z.mod_pos_bound; lia).
  assert (Hdiv : (w - 17 = 2 * ((w - 17) / 2) + (w - 17) mod 2)%Z)
    by (apply Z.div_mod; lia).
  assert (Hs : (0 <= startHeaderWidth w)%Z).
  { unfold startHeaderWidth. rewrite Hname. lia. }
  assert (He : (startHeaderWidth w <= endHeaderWidth w <= startHeaderWidth w + 1)%Z).
  { unfold endHeaderWidth, startHeaderWidth. rewrite Hname. lia. }
  split; [reflexivity|].
  pose proof (rule_length (startHeaderWidth w) Hs) as Hl.
  pose proof (rule_length (endHeaderWidth w) ltac:(lia)) as Hr.
  split.
  { rewrite Hl, Hr. unfold endHeaderWidth. lia. }
  split; [apply rule_length; lia|].
  split; [lia|].
  subst w. intros [-> | ->]; reflexivity.
Qed.

Section PluginEventsFacts.

Context {Handler : Type}.

Lemma regsFor_app (e : string) (a b : list (string * Handler)) :
  regsFor e (a ++ b) = regsFor e a ++ regsFor e b.
Proof. unfold regsFor. now rewrite List.filter_app, map_app. Qed.

Lemma regsFor_snoc (e0 e : string) (h : Handler) (pre : list (string * Handler)) :
  regsFor e0 (pre ++ [(e, h)])
  = regsFor e0 pre ++ (if String.eqb e e0 then [h] else []).
Proof.
  rewrite regsFor_app. f_equal. unfold regsFor. simpl.
  destruct (String.eqb e e0); reflexivity.
Qed.

Lemma callsFor_snoc (e0 : string) (c : BaseCall Handler) (calls : list (BaseCall Handler)) :
  callsFor e0 (calls ++ [c])
  = callsFor e0 calls ++ (if String.eqb (callEvent c) e0 then [c] else []).
Proof.
  unfold callsFor. rewrite List.filter_app. reflexivity.
Qed.

Lemma assocGet_set_eq {V : Type} (k : string) (v : V) (m : list (string * V)) :
  assocGet k (assocSet k v m) = Some v.
Proof.
  induction m as [|[k' v'] m IH]; simpl.
  - now rewrite String.eqb_refl.
  - destruct (String.eqb k k') eqn:Hk; simpl.
    + now rewrite String.eqb_refl.
    + now rewrite Hk.
Qed.

Lemma assocGet_set_ne {V : Type} (k k0 : string) (v : V) (m : list (string * V)) :
  k0 <> k -> assocGet k0 (assocSet k v m) = assocGet k0 m.
Proof.
  intros Hne. apply String.eqb_neq in Hne.
  induction m as [|[k' v'] m IH]; simpl.
  - now rewrite Hne.
  - destruct (String.eqb k k') eqn:Hk; simpl.
    + apply String.eqb_eq in Hk. subst k'. now rewrite Hne.
    + now rewrite IH.
Qed.

Lemma assocSet_keys {V : Type} (k : string) (v : V) (m : list (string * V)) :
  existsb (String.eqb k) (map fst m) = true ->
  map fst (assocSet k v m) = map fst m.
Proof.
  induction m as [|[k' v'] m IH]; simpl; [discriminate|].
  destruct (String.eqb k k') eqn:Hk; simpl.
  - apply String.eqb_eq in Hk. now subst.
  - intros H. now rewrite IH.
Qed.

Lemma length_zero_nil {A : Type} (l : list A) :
  Nat.eqb (length l) 0 = true -> l = [].
Proof. destruct l; [reflexivity|discriminate]. Qed.

Lemma isSingleHandlerEvent_not_task : isSingleHandlerEvent "task" = false.
Proof. reflexivity. Qed.

Lemma onInv_initial : onInv (Handler := Handler) onInitial [].
Proof.
  unfold onInv. simpl. repeat split.
  - unfold isSingleHandlerEvent in H. simpl in H.
    destruct (String.eqb e "after:screenshot") eqn:E1; [reflexivity|].
    destruct (String.eqb e "file:preprocessor") eqn:E2; [reflexivity|].
    destruct (String.eqb e "dev-server:start") eqn:E3; [reflexivity|].
    discriminate.
  - lia.
  - intros e. now destruct (String.eqb e "task" || isSingleHandlerEvent e).
Qed.

Lemma on_step (e : string) (h : Handler) (st : OnState Handler)
    (pre : list (string * Handler)) :
  onInv st pre ->
  (forall st', on e h st = inr st' -> onInv st' (pre ++ [(e, h)]))
  /\ (forall msg, on e h st = inl msg ->
        isSingleHandlerEvent e = true
        /\ length (regsFor e pre) = 1%nat
        /\ msg = ("Only 1 handler allowed for " ++ e)%string).
Proof.
  intros (Hkeys & Hsingle & Hmulti & Hcalls). unfold on.
  destruct (String.eqb e "task") eqn:Htask.
  { apply String.eqb_eq in Htask. subst e.
    split; [|discriminate]. intros st' Hst. inversion Hst; subst st'; clear Hst.
    unfold onInv. simpl. split; [exact Hkeys|]. split; [|split].
    - intros e0 He0. rewrite regsFor_snoc.
      destruct (String.eqb "task" e0) eqn:E.
      + apply String.eqb_eq in E. subst e0. discriminate.
      + rewrite app_nil_r. now apply Hsingle.
    - intros e0 Hne He0. rewrite regsFor_snoc.
      destruct (String.eqb "task" e0) eqn:E.
      + apply String.eqb_eq in E. congruence.
      + rewrite app_nil_r. now apply Hmulti.
    - intros e0. rewrite callsFor_snoc, regsFor_snoc, Hcalls. cbn [callEvent].
      destruct (String.eqb "task" e0) eqn:E.
      + apply String.eqb_eq in E. subst e0. simpl. now rewrite map_app.
      + now rewrite !app_nil_r. }
  assert (Hnt : e <> "task"%string) by now apply String.eqb_neq.
  rewrite Hkeys. fold (isSingleHandlerEvent e).
  destruct (isSingleHandlerEvent e) eqn:Hs.
  { destruct (Hsingle e Hs) as [Hget Hlen]. rewrite Hget.
    destruct (Nat.eqb (length (regsFor e pre)) 0) eqn:Hz; simpl.
    - split; [|discriminate]. intros st' Hst. inversion Hst; subst st'; clear Hst.
      apply length_zero_nil in Hz.
      unfold onInv. simpl. split; [|split; [|split]].
      + rewrite assocSet_keys; [exact Hkeys|]. now rewrite Hkeys.
      + intros e0 He0. rewrite regsFor_snoc.
        destruct (String.eqb e e0) eqn:E.
        * apply String.eqb_eq in E. subst e0.
          rewrite assocGet_set_eq, Hz. simpl. split; [reflexivity|lia].
        * apply String.eqb_neq in E. rewrite app_nil_r.
          rewrite assocGet_set_ne by congruence. now apply Hsingle.
      + intros e0 Hne He0. rewrite regsFor_snoc.
        destruct (String.eqb e e0) eqn:E.
        * apply String.eqb_eq in E. congruence.
        * rewrite app_nil_r. now apply Hmulti.
      + intros e0. rewrite callsFor_snoc, regsFor_snoc, Hcalls. simpl.
        destruct (String.eqb e e0) eqn:E.
        * apply String.eqb_eq in E. subst e0. rewrite Hs, Bool.orb_true_r.
          now rewrite map_app.
        * now rewrite !app_nil_r.
    - split; [discriminate|]. intros msg Hmsg. inversion Hmsg; subst msg.
      apply Nat.eqb_neq in Hz. repeat split; auto. lia. }
  split; [|discriminate]. intros st' Hst. inversion Hst; subst st'; clear Hst.
  pose proof (Hmulti e Hnt Hs) as Hget.
  assert (Hold : match assocGet e (handlers st) with Some l => l | None => [] end
                 = regsFor e pre).
  { rewrite Hget. destruct (Nat.eqb (length (regsFor e pre)) 0) eqn:Hz; [|reflexivity].
    symmetry. now apply length_zero_nil. }
  rewrite Hold.
  unfold onInv. simpl. split; [exact Hkeys|]. split; [|split].
  - intros e0 He0. rewrite regsFor_snoc.
    destruct (String.eqb e e0) eqn:E.
    + apply String.eqb_eq in E. congruence.
    + rewrite app_nil_r. now apply Hsingle.
  - intros e0 Hne He0. rewrite regsFor_snoc.
    destruct (String.eqb e e0) eqn:E.
    + apply String.eqb_eq in E. subst e0. rewrite assocGet_set_eq.
      rewrite length_app. simpl.
      replace (Nat.eqb (length (regsFor e pre) + 1) 0) with false; [reflexivity|].
      symmetry. apply Nat.eqb_neq. lia.
    + apply String.eqb_neq in E. rewrite app_nil_r.
      rewrite assocGet_set_ne by congruence. now apply Hmulti.
  - intros e0. rewrite regsFor_snoc.
    assert (Hc : callsFor e0
                   (if Nat.eqb (length (regsFor e pre ++ [h])) 1
                    then baseCalls st ++ [BaseDispatcher e] else baseCalls st)
                 = callsFor e0 (baseCalls st)
                   ++ (if String.eqb e e0 && Nat.eqb (length (regsFor e pre)) 0
                       then [BaseDispatcher e] else [])).
    { rewrite length_app. simpl.
      destruct (regsFor e pre) as [|x xs] eqn:Hre; simpl.
      - rewrite callsFor_snoc. simpl. now rewrite Bool.andb_true_r.
      - replace (Nat.eqb (length xs + 1) 0) with false
          by (symmetry; apply Nat.eqb_neq; lia).
        rewrite Bool.andb_false_r, app_nil_r. reflexivity. }
    rewrite Hc, Hcalls.
    destruct (String.eqb e e0) eqn:E; simpl.
    + apply String.eqb_eq in E. subst e0. rewrite Htask, Hs. simpl.
      rewrite length_app. simpl.
      replace (Nat.eqb (length (regsFor e pre) + 1) 0) with false
        by (symmetry; apply Nat.eqb_neq; lia).
      destruct (Nat.eqb (length (regsFor e pre)) 0); reflexivity.
    + now rewrite !app_nil_r.
Qed.

Lemma onAll_run (regs pre : list (string * Handler)) (st : OnState Handler) :
  onInv st pre ->
  (forall st', onAll regs st = inr st' -> onInv st' (pre ++ regs))
  /\ (forall msg, onAll regs st = inl msg ->
        exists e, isSingleHandlerEvent e = true
                  /\ (2 <= length (regsFor e (pre ++ regs)))%nat
                  /\ msg = ("Only 1 handler allowed for " ++ e)%string).
Proof.
  revert pre st. induction regs as [|[e h] regs IH]; intros pre st Hinv; simpl.
  - split; [|discriminate]. intros st' Hst. inversion Hst; subst.
    now rewrite app_nil_r.
  - destruct (on_step e h st pre Hinv) as [Hok Hthrow].
    destruct (on e h st) as [msg0|st1] eqn:Hon.
    + split; [discriminate|]. intros msg Hmsg. inversion Hmsg; subst msg0.
      destruct (Hthrow msg eq_refl) as (Hs & Hlen & ->).
      exists e. repeat split; auto.
      rewrite regsFor_app, length_app, Hlen. unfold regsFor. simpl.
      rewrite String.eqb_refl. simpl. lia.
    + specialize (IH (pre ++ [(e, h)]) st1 (Hok st1 eq_refl)).
      rewrite <- app_assoc in IH. exact IH.
Qed.

(** X24. Whatever is registered through the wrapped [on]: while no
    single-handler event is registered twice every registration succeeds,
    and then the wrapped function of Cypress has been called at most once
    for every event other than "task", with the dispatcher for an event that
    may have several handlers, all of which are kept in the order of their
    registration, and with the handler itself for "task" and for the
    single-handler events.  The registrations throw only at a second handler
    of a single-handler event. *)
Theorem plugin_registrations (regs : list (string * Handler)) :
  (forall st, onAll regs onInitial = inr st ->
     (forall e, isSingleHandlerEvent e = true -> (length (regsFor e regs) <= 1)%nat)
     /\ (forall e, e <> "task"%string -> (length (callsFor e (baseCalls st)) <= 1)%nat)
     /\ (forall e, e <> "task"%string -> isSingleHandlerEvent e = false ->
           regsFor e regs <> [] ->
           callsFor e (baseCalls st) = [BaseDispatcher e]
           /\ assocGet e (handlers st) = Some (regsFor e regs))
     /\ (forall e, e = "task"%string \/ isSingleHandlerEvent e = true ->
           callsFor e (baseCalls st) = map (BaseHandler e) (regsFor e regs)))
  /\ (forall msg, onAll regs onInitial = inl msg ->
        exists e, isSingleHandlerEvent e = true
                  /\ (2 <= length (regsFor e regs))%nat
                  /\ msg = ("Only 1 handler allowed for " ++ e)%string)
  /\ ((forall e, isSingleHandlerEvent e = true -> (length (regsFor e regs) <= 1)%nat) ->
      exists st, onAll regs onInitial = inr st).
Proof.
  destruct (onAll_run regs [] onInitial onInv_initial) as [Hok Hthrow].
  simpl in Hok, Hthrow.
  split; [|split].
  - intros st Hst. destruct (Hok st Hst) as (Hkeys & Hsingle & Hmulti & Hcalls).
    split; [|split; [|split]].
    + intros e He. now apply Hsingle.
    + intros e Hne. rewrite Hcalls.
      apply String.eqb_neq in Hne. rewrite Hne. simpl.
      destruct (isSingleHandlerEvent e) eqn:Hs.
      * rewrite length_map. now apply Hsingle.
      * destruct (Nat.eqb (length (regsFor e regs)) 0); simpl; lia.
    + intros e Hne Hs Hregs. rewrite Hcalls, (Hmulti e Hne Hs).
      apply String.eqb_neq in Hne. rewrite Hne, Hs. simpl.
      destruct (Nat.eqb (length (regsFor e regs)) 0) eqn:Hz; [|auto].
      apply length_zero_nil in Hz. contradiction.
    + intros e [-> | Hs]; rewrite Hcalls.
      * reflexivity.
      * now rewrite Hs, Bool.orb_true_r.
  - exact Hthrow.
  - intros Hall. destruct (onAll regs onInitial) as [msg|st] eqn:Hrun; [|eauto].
    destruct (Hthrow msg eq_refl) as (e & Hs & Hlen & _).
    specialize (Hall e Hs). lia.
Qed.

End PluginEventsFacts.

(** ** Event tracking *)

Lemma prefix_app (p s : string) : String.prefix p (p ++ s) = true.
Proof.
  induction p as [|c p IH]; simpl; [now destruct s|].
  destruct (ascii_dec c c); [exact IH|contradiction].
Qed.

Lemma assocGet_absent {V : Type} (k : string) (m : list (string * V)) :
  ~ In k (map fst m) -> assocGet k m = None.
Proof.
  induction m as [|[k' v'] m IH]; simpl; intros Hn; [reflexivity|].
  destruct (String.eqb k k') eqn:Hk.
  - apply String.eqb_eq in Hk. subst. tauto.
  - apply IH. tauto.
Qed.

Lemma spread_lookup {V : Type} (defaults properties : list (string * V)) (k : string) :
  List.NoDup (map fst defaults) ->
  assocGet k (spread properties defaults)
  = match assocGet k defaults with
    | Some v => Some v
    | None => assocGet k properties
    end.
Proof.
  unfold spread. revert properties.
  induction defaults as [|[k1 v1] ds IH]; intros properties Hnd; simpl; [reflexivity|].
  inversion Hnd as [|? ? Hnotin Hnd']; subst.
  rewrite IH by exact Hnd'.
  destruct (String.eqb k k1) eqn:Hk.
  - apply String.eqb_eq in Hk. subst k1.
    rewrite (assocGet_absent k ds Hnotin). apply assocGet_set_eq.
  - apply String.eqb_neq in Hk.
    now rewrite (assocGet_set_ne k1 k v1 properties Hk).
Qed.

(** X25. With no API object nothing is tracked.  Otherwise the name handed
    to [track] always starts with "replayio.": a name that has the prefix
    goes through unchanged, so that tracking under the name handed on
    changes nothing again, and any other name gets the prefix in front.
    Of the properties handed on, a default property wins over the caller's
    property of the same key, and every other property of the caller is
    kept. *)
Theorem tracked_event_name_and_properties {V : Type}
    (defaultProperties properties : list (string * V)) (eventName : string) :
  List.NoDup (map fst defaultProperties) ->
  trackEvent false defaultProperties eventName properties = None
  /\ exists name merged,
       trackEvent true defaultProperties eventName properties = Some (name, merged)
       /\ startsWith name "replayio." = true
       /\ (startsWith eventName "replayio." = true -> name = eventName)
       /\ (startsWith eventName "replayio." = false
           -> name = ("replayio." ++ eventName)%string)
       /\ trackEvent true defaultProperties name properties = Some (name, merged)
       /\ forall k, assocGet k merged
                    = match assocGet k defaultProperties with
                      | Some v => Some v
                      | None => assocGet k properties
                      end.
Proof.
  intros Hnd. split; [reflexivity|]. unfold trackEvent. simpl negb.
  cbv iota.
  destruct (startsWith eventName "replayio.") eqn:Hp.
  - exists eventName, (spread properties defaultProperties).
    change (negb true) with false. cbv iota.
    rewrite Hp. change (negb true) with false. cbv iota.
    repeat split; auto; try discriminate.
    intros k. now apply spread_lookup.
  - exists ("replayio." ++ eventName)%string, (spread properties defaultProperties).
    change (negb false) with true. cbv iota.
    assert (Hq : startsWith ("replayio." ++ eventName) "replayio." = true)
      by apply prefix_app.
    rewrite Hq. change (negb true) with false. cbv iota.
    repeat split; auto; try discriminate.
    intros k. now apply spread_lookup.
Qed.

(** ** The prompt for a runtime update *)

(** X26. [promptForRuntimeUpdate] prompts exactly once, then always records
    the build offered in the cached prompt data, whatever the answer, and
    installs last and only if the runtime was not installed before or the
    user confirmed: the answer of a first-time user is not looked at, and
    an update declined is still recorded. *)
Theorem runtime_update_prompt (fromVersion : option Version)
    (toVersion : Version) (answer : bool) :
  exists announce after,
    promptForRuntimeUpdate fromVersion toVersion answer
    = announce :: Prompt
      :: UpdateCachedPromptData PROMPT_ID (buildId toVersion) :: after
    /\ (announce = AnnounceUpdate toVersion <-> fromVersion <> None)
    /\ (announce = AnnounceInstall <-> fromVersion = None)
    /\ (after = [InstallLatestRelease] <-> fromVersion = None \/ answer = true)
    /\ (after = [] <-> fromVersion <> None /\ answer = false).
Proof.
  unfold promptForRuntimeUpdate.
  destruct fromVersion as [v|]; simpl.
  - destruct answer; simpl; eexists _, _; (split; [reflexivity|]);
      repeat split; intros; try discriminate; try congruence; auto;
      try (intuition congruence).
  - eexists _, _; (split; [reflexivity|]);
      repeat split; intros; try discriminate; try congruence; auto;
      try (intuition congruence).
Qed.

(** ** Worked inputs for the utilities, the reporters and the plugin *)

Lemma isValidUUID_witness :
  exists s, sampleUUID = JsString s
            /\ String.length s = 36%nat
            /\ forall c, In c (list_ascii_of_string s)
                         -> isLowerHex c = true \/ c = "-"%char.
Proof. exact (proj1 (isValidUUID_spec sampleUUID) eq_refl). Defined.

Lemma browser_name_witness :
  assertValidBrowserName (fuzzyBrowserName asciiLowerCase trimSpaces (Some " Chrome "%string))
  = inr tt
  /\ fuzzyBrowserName asciiLowerCase trimSpaces (Some " Chrome "%string)
     = Some "chromium"%string.
Proof.
  pose proof (browser_name_accepted asciiLowerCase trimSpaces (Some " Chrome "%string))
    as [Hiff Hmap].
  split.
  - apply Hiff. exists " Chrome "%string. split; [reflexivity|]. left. reflexivity.
  - apply (Hmap " Chrome "%string eq_refl). left. reflexivity.
Defined.

Lemma resolveId_witness :
  resolveId onlyReact "/repo/packages/replayio" resolveNothing "lodash" None plainImport
  = inl (UndeclaredImport "lodash" None).
Proof.
  apply (proj2 (proj2 (resolveId_guards onlyReact "/repo/packages/replayio"
                         resolveNothing "lodash" None plainImport)));
    reflexivity.
Defined.

Lemma extracted_message_witness :
  exists kept rest,
    splitLines callLogMessage = kept ++ rest
    /\ extractErrorMessage keepText callLogError = joinLines kept
    /\ (length kept <= 10)%nat
    /\ Forall (fun l => startsWith l "Call log:" = false) kept
    /\ (rest = [] \/ length kept = 10%nat
        \/ exists l rest', rest = l :: rest' /\ startsWith l "Call log:" = true)
    /\ (rest = [] -> extractErrorMessage keepText callLogError = callLogMessage).
Proof.
  apply (extracted_message_is_head_of_lines keepText callLogError callLogMessage).
  - reflexivity.
  - discriminate.
Defined.

Lemma test_end_buckets_witness :
  exists rep,
    pwOnTestEnd keepText true noFile signsIn failedResult = Some rep
    /\ te_main rep
       = map (fun e => stepEvent keepText (fst e) (snd e))
             (List.filter isMainEntry (entries (res_steps failedResult)))
    /\ te_beforeEach rep
       = map (fun e => stepEvent keepText (fst e) (snd e))
             (List.filter isBeforeEachEntry (entries (res_steps failedResult)))
    /\ te_afterEach rep
       = map (fun e => stepEvent keepText (fst e) (snd e))
             (List.filter isAfterEachEntry (entries (res_steps failedResult)))
    /\ Permutation (te_main rep ++ te_beforeEach rep ++ te_afterEach rep)
                   (map (fun e => stepEvent keepText (fst e) (snd e))
                        (entries (res_steps failedResult)))
    /\ List.NoDup (map ua_id (te_main rep ++ te_beforeEach rep ++ te_afterEach rep))
    /\ te_result rep <> "interrupted"%string.
Proof.
  apply (test_end_buckets keepText true noFile signsIn failedResult).
  discriminate.
Defined.

Lemma source_scope_witness :
  src_scope (getSource signsIn) = ["auth"%string]
  /\ src_title (getSource signsIn) = tc_title signsIn
  /\ tc_titlePath signsIn !! 2%nat = Some "login.spec.ts"%string.
Proof.
  apply (proj1 (source_scope_between_file_and_title signsIn
                  "" "chromium" "login.spec.ts" "signs in" ["auth"%string])).
  reflexivity.
Defined.

Lemma warn_header_witness :
  exists left right,
    warn (fun s => s) None ["Your tests completed"%string]
    = [(String newline
          (left ++ " " ++ packageName ++ " " ++ right ++ String newline ""))%string]
      ++ ["Your tests completed"%string]
      ++ [(String newline (rule (terminalWidth None) ++ String newline ""))%string]
    /\ (Z.of_nat (String.length left) + 1 + Z.of_nat (String.length packageName) + 1
        + Z.of_nat (String.length right) = terminalWidth None)%Z
    /\ Z.of_nat (String.length (rule (terminalWidth None))) = terminalWidth None
    /\ (String.length left <= String.length right <= String.length left + 1)%nat
    /\ (@None Z = None \/ None = Some 0%Z -> terminalWidth None = 80%Z).
Proof.
  apply (warn_header_fits (fun s => s) None ["Your tests completed"%string]).
  unfold terminalWidth. lia.
Defined.

Lemma plugin_registrations_witness :
  exists st,
    onAll someRegistrations onInitial = inr st
    /\ callsFor "before:spec" (baseCalls st) = [BaseDispatcher "before:spec"]
    /\ assocGet "before:spec" (handlers st) = Some [1%nat; 3%nat].
Proof.
  eexists. split; [reflexivity|].
  apply (proj1 (proj2 (proj2 (proj1 (plugin_registrations someRegistrations)
                                _ eq_refl)))).
  - discriminate.
  - reflexivity.
  - discriminate.
Defined.

Lemma tracked_event_witness :
  trackEvent false sessionDefaults "upload" callerProperties = None
  /\ exists name merged,
       trackEvent true sessionDefaults "upload" callerProperties = Some (name, merged)
       /\ startsWith name "replayio." = true
       /\ (startsWith "upload" "replayio." = true -> name = "upload"%string)
       /\ (startsWith "upload" "replayio." = false
           -> name = ("replayio." ++ "upload")%string)
       /\ trackEvent true sessionDefaults name callerProperties = Some (name, merged)
       /\ forall k, assocGet k merged
                    = match assocGet k sessionDefaults with
                      | Some v => Some v
                      | None => assocGet k callerProperties
                      end.
Proof.
  apply (tracked_event_name_and_properties sessionDefaults callerProperties "upload").
  simpl. constructor; [simpl; tauto|constructor].
Defined.
